(** * billede-spil: metadata normalisation and remix-prompt synthesis

    A shallow embedding of the pure helpers and of the request handlers of
    the API routes of the repository:

    - [JS]          : the JavaScript built-ins the routes rely on;
    - [Recent]      : [src/app/api/cloudinary/recent/route.ts]
                      ([pick], [csvToArr]);
    - [Upload]      : the upload route ([dedupLower], [mergedTags]);
    - [Effect]      : handlers as trees of external calls;
    - [Remix]       : the first [generateImage/route.ts]
                      ([uniq], [buildAnchors], [remixLine], [finalPrompt],
                      [POST]);
    - [LegacyRemix] : the second [generateImage/route.ts], the one that
                      still accepts [descriptions] and [parentIds];
    - [Spec]        : the components in the words of the specification;
    - [Listing]     : the [GET] handler of the listing route;
    - [Ingest]      : the [POST] handler of the upload route;
    - [CompatGet]   : the [GET] both [generateImage/route.ts] keep;
    - [Reingest]    : the re-ingest route;
    - [Helpers]     : [urlToFile] and [uploadB64ToCloudinary].

    JavaScript strings are modelled as [string]; every [ascii] stands for
    one UTF-16 code unit below 256.  Numbers are binary64 floats
    ([PrimFloat]), so that a decimal literal of the source and the same
    literal here denote the same double.  Request bodies and the parsed
    plan are records typed as the TypeScript annotations say, with [None]
    for a missing property; [JSON.parse] and [Number::toString] are
    parameters where a route applies them to arbitrary values.  A
    metadata container is a plain object, given by its own properties;
    what it inherits from [Object.prototype] is part of a lookup. *)

From Stdlib Require Import Strings.String Strings.Ascii Numbers.DecimalString.
From Stdlib Require Import Numbers.DecimalNat Numbers.DecimalFacts.
From Stdlib Require Import ZArith Floats.
From stdpp Require Import base list strings gmap.

Set Warnings "-inexact-float,-register-all".
Local Open Scope string_scope.
Local Open Scope list_scope.

(* ===================================================================== *)
(** ** The JavaScript built-ins the routes use *)
(* ===================================================================== *)

Module JS.

(** [WhiteSpace] and [LineTerminator] code units below 256: TAB, LF, VT,
    FF, CR, SP and NBSP.  These are what [String.prototype.trim] strips. *)
Definition isWhite (c : ascii) : bool :=
  let n := nat_of_ascii c in
  (Nat.leb 9 n && Nat.leb n 13) || Nat.eqb n 32 || Nat.eqb n 160.

Fixpoint trimStart (s : string) : string :=
  match s with
  | EmptyString => EmptyString
  | String c r => if isWhite c then trimStart r else s
  end.

Fixpoint trimEnd (s : string) : string :=
  match s with
  | EmptyString => EmptyString
  | String c r =>
      match trimEnd r with
      | EmptyString => if isWhite c then EmptyString else String c EmptyString
      | r' => String c r'
      end
  end.

(** [s.trim()] *)
Definition trim (s : string) : string := trimEnd (trimStart s).

(** One code unit of [toLowerCase]: A-Z, and the Latin-1 capitals
    U+00C0..U+00DE except the multiplication sign U+00D7. *)
Definition lowerChar (c : ascii) : ascii :=
  let n := nat_of_ascii c in
  if (Nat.leb 65 n && Nat.leb n 90)
     || (Nat.leb 192 n && Nat.leb n 222 && negb (Nat.eqb n 215))
  then ascii_of_nat (n + 32) else c.

(** [s.toLowerCase()] *)
Fixpoint toLowerCase (s : string) : string :=
  match s with
  | EmptyString => EmptyString
  | String c r => String (lowerChar c) (toLowerCase r)
  end.

(** [s.split(sep)] for a one-code-unit separator; [("").split(",")] is
    [[""]], never the empty array. *)
Fixpoint split (sep : ascii) (s : string) : list string :=
  match s with
  | EmptyString => [EmptyString]
  | String c r =>
      if Ascii.eqb c sep then EmptyString :: split sep r
      else match split sep r with
           | w :: ws => String c w :: ws
           | [] => [String c EmptyString]
           end
  end.

(** [arr.join(sep)] on an array of strings. *)
Fixpoint join (sep : string) (l : list string) : string :=
  match l with
  | [] => EmptyString
  | [x] => x
  | x :: r => x +:+ sep +:+ join sep r
  end.

(** [s.startsWith(p)] *)
Definition startsWith (s p : string) : bool := String.prefix p s.

(** [s.endsWith(p)] *)
Definition endsWith (s p : string) : bool :=
  Nat.leb (String.length p) (String.length s)
  && String.eqb (substring (String.length s - String.length p) (String.length p) s) p.

(** A string is truthy unless it is empty ([Boolean(s)], [!s], [s || d]). *)
Definition nonEmpty (s : string) : bool :=
  match s with EmptyString => false | _ => true end.

(** [arr.slice(0, n)] *)
Definition slice0 {A} (n : nat) (l : list A) : list A := take n l.

(** A [Set] keeps its members in insertion order; [add] of a member
    already present changes nothing. *)
Definition Set_add (x : string) (s : list string) : list string :=
  if bool_decide (x ∈ s) then s else s ++ [x].

(** [Array.from(new Set(arr))] *)
Definition Array_from_Set (arr : list string) : list string :=
  fold_left (fun s x => Set_add x s) arr [].

(** JavaScript values, as [JSON.parse] and a request body produce them,
    plus [undefined] and the built-in functions every object inherits,
    given by their names. *)
Inductive value : Type :=
| VUndefined
| VNull
| VBool (b : bool)
| VNum (n : float)
| VStr (s : string)
| VArr (l : list value)
| VObj (fields : list (string * value))
| VFun (name : string).

Definition isNaN (n : float) : bool := negb (PrimFloat.eqb n n).

(** [ToBoolean] *)
Definition truthy (v : value) : bool :=
  match v with
  | VUndefined | VNull => false
  | VBool b => b
  | VNum n => negb (PrimFloat.eqb n 0 || isNaN n)
  | VStr s => nonEmpty s
  | VArr _ | VObj _ | VFun _ => true
  end.

(** [Math.min] and [Math.max] of two numbers: NaN is contagious, and
    [-0] is below [+0]. *)
Definition Math_min (a b : float) : float :=
  if isNaN a || isNaN b then nan
  else if PrimFloat.ltb a b then a
  else if PrimFloat.ltb b a then b
  else match classify a with NZero => a | _ => b end.

Definition Math_max (a b : float) : float :=
  if isNaN a || isNaN b then nan
  else if PrimFloat.ltb a b then b
  else if PrimFloat.ltb b a then a
  else match classify a with PZero => a | _ => b end.

Section Platform.
(** [Number::toString], the decimal rendering of a double. *)
Variable Number_toString : float -> string.

(** [String(v)]: inside an array, [null] and [undefined] render as the
    empty string and the elements are joined with a comma. *)
Fixpoint toString (v : value) : string :=
  match v with
  | VUndefined => "undefined"
  | VNull => "null"
  | VBool true => "true"
  | VBool false => "false"
  | VNum n => Number_toString n
  | VStr s => s
  | VArr l =>
      join ","
        (map (fun e => match e with
                       | VUndefined | VNull => EmptyString
                       | _ => toString e
                       end) l)
  | VObj _ => "[object Object]"
  | VFun name => "function " +:+ name +:+ "() { [native code] }"
  end.
End Platform.

End JS.

(* ===================================================================== *)
(** ** [cloudinary/recent]: field resolution and list coercion *)
(* ===================================================================== *)

Module Recent.
Import JS.

Section Route.
Variable Number_toString : float -> string.
(** [JSON.parse]: [None] when it throws a [SyntaxError]. *)
Variable JSON_parse : string -> option value.

Local Abbreviation String_ := (toString Number_toString).

(** What a plain object inherits from [Object.prototype] under the name
    [k]: its built-in functions, under [constructor] the function
    [Object], and under [__proto__] the prototype itself, an object
    without enumerable properties. *)
Definition Object_prototype (k : string) : value :=
  if bool_decide (k ∈ [ "hasOwnProperty"; "isPrototypeOf";
                        "propertyIsEnumerable"; "toLocaleString"; "toString";
                        "valueOf"; "__defineGetter__"; "__defineSetter__";
                        "__lookupGetter__"; "__lookupSetter__" ])
  then VFun k
  else if String.eqb k "constructor" then VFun "Object"
  else if String.eqb k "__proto__" then VObj []
  else VUndefined.

(** [obj?.[k]] on a metadata container, a plain object given by its own
    properties: the property of its own, or else the inherited one. *)
Definition get (obj : gmap string value) (k : string) : value :=
  match obj !! k with
  | Some v => v
  | None => Object_prototype k
  end.

(** [v !== undefined && v !== null && String(v).trim() !== ""] *)
Definition usable (v : value) : bool :=
  match v with
  | VUndefined | VNull => false
  | _ => nonEmpty (trim (String_ v))
  end.

Fixpoint pick (obj : gmap string value) (keys : list string) : value :=
  match keys with
  | [] => VNull
  | k :: ks => let v := get obj k in if usable v then v else pick obj ks
  end.

(** [a ?? b] *)
Definition nullish (a b : value) : value :=
  match a with
  | VUndefined | VNull => b
  | _ => a
  end.

(** The lookup the route writes for every AI field:
    [pick(cx, ...keys) ?? pick(md, ...keys)], and then [?? null] when
    the descriptor is filled in. *)
Definition resolve (cx md : gmap string value) (keys : list string) : value :=
  nullish (nullish (pick cx keys) (pick md keys)) VNull.

(** [.map(String).map((s) => s.trim()).filter(Boolean)] *)
Definition cleaned (l : list value) : list string :=
  List.filter nonEmpty (map trim (map String_ l)).

Definition bracketed (s : string) : bool :=
  (startsWith s "[" && endsWith s "]") || (startsWith s "{" && endsWith s "}").

Definition csvToArr (v : value) : list string :=
  if negb (truthy v) then []
  else match v with
       | VArr l => cleaned l
       | _ =>
           let s := trim (String_ v) in
           if negb (nonEmpty s) then []
           else
             let commas := List.filter nonEmpty (map trim (split "," s)) in
             if bracketed s then
               match JSON_parse s with
               | Some (VArr parsed) => cleaned parsed
               | _ => commas
               end
             else commas
       end.
End Route.

End Recent.

(* ===================================================================== *)
(** ** The upload route: merged tags *)
(* ===================================================================== *)

Module Upload.
Import JS.

(** One turn of the [for (const t of arr)] loop of [dedupLower]; the state
    is the [seen] set and the [out] array. *)
Definition dedupLower_step (st : gset string * list string) (t : string)
  : gset string * list string :=
  let k := toLowerCase (trim t) in
  if negb (nonEmpty k) then st
  else if bool_decide (k ∈ st.1) then st
  else (st.1 ∪ {[ k ]}, st.2 ++ [trim t]).

Definition dedupLower (arr : list string) : list string :=
  (fold_left dedupLower_step arr (∅, [])).2.

(** The list fields of the vision reply [ai] that the tags are drawn from;
    [None] is a missing (falsy) field, read through [ai.f || []]. *)
Record AiLists := {
  ai_tags : option (list string);
  ai_vibe : option (list string);
  ai_objects : option (list string);
  ai_must_keep : option (list string);
}.

Definition orEmpty (o : option (list string)) : list string := default [] o.

(** The five spread arguments of [mergedTags], in source order; [tags] is
    the request's comma-separated string (default [""]). *)
Definition tagSources (ai : AiLists) (tags : string) : list (list string) :=
  [ orEmpty (ai_tags ai);
    orEmpty (ai_vibe ai);
    orEmpty (ai_objects ai);
    orEmpty (ai_must_keep ai);
    if nonEmpty tags then split "," tags else [] ].

Definition mergedTags (ai : AiLists) (tags : string) : list string :=
  slice0 40 (dedupLower (concat (tagSources ai tags))).

End Upload.

(* ===================================================================== *)
(** ** Handlers as trees of external calls *)
(* ===================================================================== *)

Module Effect.

(** What an awaited promise does. *)
Inductive outcome (A : Type) : Type :=
| Rejected
| Resolved (a : A).
Arguments Rejected {A}.
Arguments Resolved {A} a.

(** A handler body: it returns, throws, or performs one call of the
    family [E] and goes on with the reply. *)
Inductive io (E : Type -> Type) (A : Type) : Type :=
| Ret (a : A)
| Throw
| Do {R : Type} (c : E R) (k : R -> io E A).
Arguments Ret {E A} a.
Arguments Throw {E A}.
Arguments Do {E A R} c k.

Fixpoint bind {E A B} (m : io E A) (f : A -> io E B) : io E B :=
  match m with
  | Ret a => f a
  | Throw => Throw
  | Do c k => Do c (fun r => bind (k r) f)
  end.

(** [try { m } catch { h }] *)
Fixpoint try_catch {E A} (m : io E A) (h : io E A) : io E A :=
  match m with
  | Ret a => Ret a
  | Throw => h
  | Do c k => Do c (fun r => try_catch (k r) h)
  end.

(** [await c], throwing when the promise rejects. *)
Definition await {E A} (c : E (outcome A)) : io E A :=
  Do c (fun o => match o with Resolved a => Ret a | Rejected => Throw end).

(** [cs.map(start)]: every call is issued, in order, before any result
    is looked at. *)
Fixpoint start_all {E A} (cs : list (E (outcome A))) : io E (list (outcome A)) :=
  match cs with
  | [] => Ret []
  | c :: r => Do c (fun o => bind (start_all r) (fun os => Ret (o :: os)))
  end.

Fixpoint all_resolved {A} (os : list (outcome A)) : option (list A) :=
  match os with
  | [] => Some []
  | Rejected :: _ => None
  | Resolved a :: r => option_map (cons a) (all_resolved r)
  end.

(** [await Promise.all(cs.map(start))] *)
Definition Promise_all {E A} (cs : list (E (outcome A))) : io E (list A) :=
  bind (start_all cs)
       (fun os => match all_resolved os with
                  | Some l => Ret l
                  | None => Throw
                  end).

(** The outside world answers every call. *)
Definition world (E : Type -> Type) : Type := forall R, E R -> R.

Inductive event (E : Type -> Type) : Type :=
| Called {R : Type} (c : E R).
Arguments Called {E R} c.

(** Running a handler against a world: the calls it made, in order, and
    its result ([None] for an uncaught exception). *)
Fixpoint run {E A} (w : world E) (m : io E A) : list (event E) * option A :=
  match m with
  | Ret a => ([], Some a)
  | Throw => ([], None)
  | Do c k => let tr := run w (k (w _ c)) in (Called c :: tr.1, tr.2)
  end.

(** [x ← m; k] is stdpp's notation for [bind m (fun x => k)]. *)
#[global] Instance io_ret {E} : MRet (io E) := fun A a => Ret a.
#[global] Instance io_bind {E} : MBind (io E) := fun A B f m => bind m f.

End Effect.

(* ===================================================================== *)
(** ** Types shared by the two [generateImage/route.ts] files *)
(* ===================================================================== *)

Module RemixTypes.
Import JS.

(** [ParentDescriptor]; [None] is a field that is missing, and for the
    array fields one that is not an array. *)
Record ParentDescriptor := {
  title : option string;
  description : option string;
  subject : option string;
  setting : option string;
  medium : option string;
  realism : option string;
  lighting : option string;
  palette : option string;
  composition : option string;
  style : option string;
  vibe : option (list string);
  objects : option (list string);
  people : option (list string);
  trend : option string;
  feeling : option string;
  must_keep : option (list string);
}.

(** [{}] *)
Definition noDescriptor : ParentDescriptor :=
  {| title := None; description := None; subject := None; setting := None;
     medium := None; realism := None; lighting := None; palette := None;
     composition := None; style := None; vibe := None; objects := None;
     people := None; trend := None; feeling := None; must_keep := None |}.

Record RemixParent := {
  url : string;
  descriptor : option ParentDescriptor;
}.

(** The object [JSON.parse] makes of the plan the model returns; [None]
    is a property the object does not have. *)
Record RemixPlan := {
  scene : option string;
  plan_subject : option string;
  plan_setting : option string;
  plan_composition : option string;
  plan_medium : option string;
  plan_realism : option string;
  plan_lighting : option string;
  plan_palette : option string;
  style_notes : option string;
  must_include : option (list string);
  avoid : option (list string);
  remix_directive : option string;
}.

(** [JSON.parse("{}")] *)
Definition noPlan : RemixPlan :=
  {| scene := None; plan_subject := None; plan_setting := None;
     plan_composition := None; plan_medium := None; plan_realism := None;
     plan_lighting := None; plan_palette := None; style_notes := None;
     must_include := None; avoid := None; remix_directive := None |}.

(** The [schema] constant both routes send with the completion request:
    every property required, [must_include] of 4 to 16 items, [avoid] of
    at most 14. *)
Definition conforms (p : RemixPlan) : bool :=
  bool_decide (is_Some (scene p)) && bool_decide (is_Some (plan_subject p))
  && bool_decide (is_Some (plan_setting p))
  && bool_decide (is_Some (plan_composition p))
  && bool_decide (is_Some (plan_medium p)) && bool_decide (is_Some (plan_realism p))
  && bool_decide (is_Some (plan_lighting p)) && bool_decide (is_Some (plan_palette p))
  && bool_decide (is_Some (style_notes p))
  && match must_include p with
     | Some l => Nat.leb 4 (length l) && Nat.leb (length l) 16
     | None => false
     end
  && match avoid p with
     | Some l => Nat.leb (length l) 14
     | None => false
     end
  && bool_decide (is_Some (remix_directive p)).

(** What the route finds in [planResp.choices[0]?.message?.content]:
    nothing, a text [JSON.parse] throws on, or a text it parses to an
    object whose properties, where present, have the types of the schema
    (a string, an array of strings).  Replies that parse to anything else
    are not covered. *)
Inductive Completion : Type :=
| NoContent
| Unparsable
| Parsed (plan : RemixPlan).

(** [JSON.parse(content ?? "{}")] *)
Definition parsePlan (c : Completion) : option RemixPlan :=
  match c with
  | NoContent => Some noPlan
  | Unparsable => None
  | Parsed p => Some p
  end.

(** [o || ""] *)
Definition orBlank (o : option string) : string := default "" o.

(** [Array.isArray(a) ? a : []] *)
Definition orNoArray (o : option (list string)) : list string := default [] o.

(** [${x}] in a template literal; a missing property prints as
    [undefined]. *)
Definition tpl (o : option string) : string := default "undefined" o.

(** [x ? x : ""] *)
Definition ifTruthy (o : option string) : string := default "" o.

(** [a[0] ? [a[0]] : []] *)
Definition firstTruthy (a : list string) : list string :=
  match a with
  | x :: _ => if nonEmpty x then [x] else []
  | [] => []
  end.

(** A request-body property that the handler tests with [Array.isArray]:
    missing (the destructuring default applies), present but not an
    array, or an array. *)
Inductive arrayField (A : Type) : Type :=
| Missing
| NotArray
| Array (l : list A).
Arguments Missing {A}.
Arguments NotArray {A}.
Arguments Array {A} l.

(** [const { f = [] } = body] followed by [Array.isArray(f)] *)
Definition asArray {A} (f : arrayField A) : option (list A) :=
  match f with
  | Missing => Some []
  | NotArray => None
  | Array l => Some l
  end.

(** The decimal numeral of [i] in a template literal. *)
Definition numeral (i : nat) : string :=
  DecimalString.NilEmpty.string_of_uint (Nat.to_uint i).

End RemixTypes.

(* ===================================================================== *)
(** ** [generateImage/route.ts], first file: multi-image edit *)
(* ===================================================================== *)

Module Remix.
Import JS Effect RemixTypes.

Definition uniq (arr : list string) : list string :=
  Array_from_Set (List.filter nonEmpty (map trim arr)).

Definition buildAnchors (d : option ParentDescriptor) : list string :=
  let objects := orNoArray (d ≫= objects) in
  let vibe := orNoArray (d ≫= vibe) in
  let people := orNoArray (d ≫= people) in
  let mustKeep := orNoArray (d ≫= must_keep) in
  slice0 10
    (uniq (mustKeep ++ slice0 5 objects ++ firstTruthy vibe ++ firstTruthy people)).

(** A downloaded parent image. *)
Record File := {
  file_name : string;
  file_type : string;
  file_data : string;
}.

Record ParentSummary := {
  ps_index : nat;
  ps_url : string;
  ps_subject : string;
  ps_setting : string;
  ps_medium : string;
  ps_realism : string;
  ps_lighting : string;
  ps_palette : string;
  ps_composition : string;
  ps_vibe : list string;
  ps_people : list string;
  ps_objects : list string;
  ps_trend : string;
  ps_feeling : string;
  ps_style : string;
  ps_anchors : list string;
}.

(** Everything [mergePrompt] is assembled from; the instruction text is a
    fixed function of these values and is not spelled out here. *)
Record PlanRequest := {
  rq_anchorPerParent : string;
  rq_strength : float;
  rq_adjectives : string;
  rq_communities : list string;
  rq_trends : list string;
  rq_extraPrompt : string;
  rq_parentSummaries : list ParentSummary;
}.

(** The reply of the [images/edits] endpoint: [res.ok] and
    [img.data?.[0]?.b64_json]. *)
Record EditReply := {
  res_ok : bool;
  b64_json : option string;
}.

(** The external calls of the handler, in the order it makes them. *)
Inductive call : Type -> Type :=
| UrlToFile (url fallbackName : string) : call (outcome File)
| ChatCompletion (rq : PlanRequest) : call (outcome Completion)
| ImagesEdit (prompt size : string) (images : list File) : call (outcome EditReply)
| UploadB64ToCloudinary (b64 : string) : call (outcome string).

Record Body := {
  parents : arrayField RemixParent;
  adjectives : option string;
  communities : option (list string);
  trends : option (list string);
  extraPrompt : option string;
  size : option string;
  remixStrength : option float;
  anchorPerParent : option string;
}.

Inductive Json : Type :=
| ErrorJson (error : string)
| RemixJson (remixedPrompt : string) (plan : RemixPlan) (strength : float)
            (imageUrl : string) (parentUrls : list string).

Record Response := {
  status : nat;
  json : Json;
}.

Definition HIGH : string :=
  "Highly remixed reinterpretation with bold recomposition and surprising fusions.".
Definition CREATIVE : string :=
  "Creative remix reinterpretation; allow recomposition, scale shifts, and fused elements.".
Definition LIGHT : string :=
  "Light remix; small but noticeable rearrangements and stylized integrations.".

Definition remixLine (strength : float) : string :=
  if PrimFloat.leb 0.8 strength then HIGH
  else if PrimFloat.leb 0.5 strength then CREATIVE
  else LIGHT.

(** [Math.max(0, Math.min(1, remixStrength))] *)
Definition clamp (remixStrength : float) : float :=
  Math_max 0 (Math_min 1 remixStrength).

(** [None] is the [TypeError] of [uniq(undefined)]. *)
Definition finalPrompt (plan : RemixPlan) (strength : float) : option string :=
  match must_include plan with
  | None => None
  | Some mustInclude =>
      Some (join " " (List.filter nonEmpty
        [ tpl (scene plan) +:+ ". " +:+ tpl (plan_subject plan) +:+ ". "
            +:+ tpl (plan_setting plan) +:+ ".";
          remixLine strength;
          ifTruthy (remix_directive plan);
          "Composition: " +:+ tpl (plan_composition plan) +:+ ".";
          "Medium: " +:+ tpl (plan_medium plan) +:+ ", realism: "
            +:+ tpl (plan_realism plan) +:+ ".";
          "Lighting: " +:+ tpl (plan_lighting plan) +:+ ". Palette: "
            +:+ tpl (plan_palette plan) +:+ ".";
          (if nonEmpty (ifTruthy (style_notes plan))
           then "Style: " +:+ tpl (style_notes plan) +:+ "." else "");
          "Must include (integrated naturally): "
            +:+ join ", " (uniq mustInclude) +:+ ".";
          (match avoid plan with
           | Some (_ :: _ as a) => "Avoid: " +:+ join ", " (uniq a) +:+ "."
           | _ => ""
           end);
          "No text, no watermark, no UI, no logos, no signatures.";
          "Square image." ]))
  end.

Definition summary (i : nat) (p : RemixParent) : ParentSummary :=
  let d := default noDescriptor (descriptor p) in
  {| ps_index := i + 1;
     ps_url := url p;
     ps_subject := orBlank (subject d);
     ps_setting := orBlank (setting d);
     ps_medium := orBlank (medium d);
     ps_realism := orBlank (realism d);
     ps_lighting := orBlank (lighting d);
     ps_palette := orBlank (palette d);
     ps_composition := orBlank (composition d);
     ps_vibe := orNoArray (vibe d);
     ps_people := orNoArray (people d);
     ps_objects := orNoArray (objects d);
     ps_trend := orBlank (trend d);
     ps_feeling := orBlank (feeling d);
     ps_style := orBlank (style d);
     ps_anchors := buildAnchors (Some d) |}.

Definition parentSummaries (parents : list RemixParent) : list ParentSummary :=
  imap summary (slice0 16 parents).

Definition downloads (parents : list RemixParent) : list (call (outcome File)) :=
  imap (fun i p => UrlToFile (url p) ("parent-" +:+ numeral (i + 1)))
       (slice0 16 parents).

Definition badRequest : Response :=
  {| status := 400; json := ErrorJson "Provide at least 2 parents." |}.
Definition noImage : Response :=
  {| status := 500; json := ErrorJson "No image returned." |}.
Definition failed : Response :=
  {| status := 500; json := ErrorJson "Failed to remix images" |}.

(** The handler from the plan reply on: render the prompt, edit, upload. *)
Definition generate (body : Body) (parents : list RemixParent)
    (strength : float) (imageFiles : list File) (c : Completion)
  : io call Response :=
  match parsePlan c with
  | None => Throw
  | Some plan =>
      match finalPrompt plan strength with
      | None => Throw
      | Some prompt =>
          res ← await (ImagesEdit prompt
                         (let s := default "1024x1024" (size body) in
                          if nonEmpty s then s else "1024x1024")
                         imageFiles);
          if negb (res_ok res) then Throw
          else match b64_json res with
               | Some (String _ _ as b64) =>
                   remixUrl ← await (UploadB64ToCloudinary b64);
                   Ret {| status := 200;
                          json := RemixJson prompt plan strength remixUrl
                                    (map url parents) |}
               | _ => Ret noImage
               end
      end
  end.

Definition planRequest (body : Body) (parents : list RemixParent)
    (strength : float) : PlanRequest :=
  {| rq_anchorPerParent := default "1-2" (anchorPerParent body);
     rq_strength := strength;
     rq_adjectives := default "" (adjectives body);
     rq_communities := default [] (communities body);
     rq_trends := default [] (trends body);
     rq_extraPrompt := default "" (extraPrompt body);
     rq_parentSummaries := parentSummaries parents |}.

Definition POST (body : Body) : io call Response :=
  try_catch
    (match asArray (parents body) with
     | None => Ret badRequest
     | Some parents =>
         if Nat.ltb (length parents) 2 then Ret badRequest
         else
           let strength := clamp (default 0.65%float (remixStrength body)) in
           imageFiles ← Promise_all (downloads parents);
           c ← await (ChatCompletion (planRequest body parents strength));
           generate body parents strength imageFiles c
     end)
    (Ret failed).

End Remix.

(* ===================================================================== *)
(** ** [generateImage/route.ts], second file: legacy-compatible route *)
(* ===================================================================== *)

Module LegacyRemix.
Import JS Effect RemixTypes.

(** Here the empties are dropped before trimming. *)
Definition uniq (arr : list string) : list string :=
  Array_from_Set (map trim (List.filter nonEmpty arr)).

Definition buildAnchors (d : option ParentDescriptor) : list string :=
  let objects := orNoArray (d ≫= objects) in
  let vibe := orNoArray (d ≫= vibe) in
  let people := orNoArray (d ≫= people) in
  let mustKeep := orNoArray (d ≫= must_keep) in
  slice0 10
    (uniq (mustKeep ++ slice0 5 objects ++ firstTruthy vibe ++ firstTruthy people)).

Record ParentSummary := {
  ps_index : nat;
  ps_description : string;
  ps_subject : string;
  ps_setting : string;
  ps_style : string;
  ps_medium : string;
  ps_realism : string;
  ps_lighting : string;
  ps_palette : string;
  ps_composition : string;
  ps_trend : string;
  ps_feeling : string;
  ps_anchors : list string;
}.

Record PlanRequest := {
  rq_strength : float;
  rq_adjectives : string;
  rq_communities : list string;
  rq_trends : list string;
  rq_extraPrompt : string;
  rq_parentSummaries : list ParentSummary;
}.

Inductive call : Type -> Type :=
| ChatCompletion (rq : PlanRequest) : call (outcome Completion)
| ImagesGenerate (prompt size : string) : call (outcome (option string)).

(** [descriptions] and [parentIds] are [None] when missing or [null]. *)
Record Body := {
  parents : arrayField RemixParent;
  adjectives : option string;
  communities : option (list string);
  trends : option (list string);
  extraPrompt : option string;
  remixStrength : option float;
  descriptions : option (list string);
  parentIds : option (list string);
  size : option string;
}.

Inductive Json : Type :=
| ErrorJson (error : string)
| RemixJson (remixedPrompt : string) (plan : RemixPlan)
            (imageUrl : option string) (parentUrls : list string).

Record Response := {
  status : nat;
  json : Json;
}.

Definition HIGH : string :=
  "Highly remixed reinterpretation, bold recomposition, surprising fusions.".
Definition CREATIVE : string :=
  "Creative remix reinterpretation, allow recomposition and scale shifts.".
Definition LIGHT : string :=
  "Light remix, subtle rearrangements and stylized integrations.".

Definition remixLine (strength : float) : string :=
  if PrimFloat.leb 0.85 strength then HIGH
  else if PrimFloat.leb 0.55 strength then CREATIVE
  else LIGHT.

Definition clamp (remixStrength : float) : float :=
  Math_max 0 (Math_min 1 remixStrength).

Definition finalPrompt (plan : RemixPlan) (strength : float) : string :=
  join " " (List.filter nonEmpty
    [ tpl (scene plan) +:+ ". " +:+ tpl (plan_subject plan) +:+ ". "
        +:+ tpl (plan_setting plan) +:+ ".";
      remixLine strength;
      ifTruthy (remix_directive plan);
      "Composition: " +:+ tpl (plan_composition plan) +:+ ".";
      "Medium: " +:+ tpl (plan_medium plan) +:+ ", realism: "
        +:+ tpl (plan_realism plan) +:+ ".";
      "Lighting: " +:+ tpl (plan_lighting plan) +:+ ". Palette: "
        +:+ tpl (plan_palette plan) +:+ ".";
      (if nonEmpty (ifTruthy (style_notes plan))
       then "Style: " +:+ tpl (style_notes plan) +:+ "." else "");
      "Must include: " +:+ join ", " (uniq (orNoArray (must_include plan))) +:+ ".";
      (match avoid plan with
       | Some (_ :: _ as a) => "Avoid: " +:+ join ", " (uniq a) +:+ "."
       | _ => ""
       end);
      "Square image. No text, no watermark, no UI, no logos, no signatures." ]).

(** One fabricated parent: [{ url: parentIds?.[i] || "", descriptor:
    { description: d } }]. *)
Definition fabricate (parentIds : option (list string)) (i : nat) (d : string)
  : RemixParent :=
  {| url := default "" (parentIds ≫= (fun ids => ids !! i));
     descriptor := Some {| title := None; description := Some d;
       subject := None; setting := None; medium := None; realism := None;
       lighting := None; palette := None; composition := None; style := None;
       vibe := None; objects := None; people := None; trend := None;
       feeling := None; must_keep := None |} |}.

Definition atLeastTwo (parents : arrayField RemixParent) : option (list RemixParent) :=
  match asArray parents with
  | Some l => if Nat.leb 2 (length l) then Some l else None
  | None => None
  end.

Definition normalizedParents (body : Body) : list RemixParent :=
  match atLeastTwo (parents body) with
  | Some l => l
  | None => imap (fabricate (parentIds body)) (default [] (descriptions body))
  end.

Definition summary (i : nat) (p : RemixParent) : ParentSummary :=
  let d := default noDescriptor (descriptor p) in
  {| ps_index := i + 1;
     ps_description := orBlank (description d);
     ps_subject := orBlank (subject d);
     ps_setting := orBlank (setting d);
     ps_style := orBlank (style d);
     ps_medium := orBlank (medium d);
     ps_realism := orBlank (realism d);
     ps_lighting := orBlank (lighting d);
     ps_palette := orBlank (palette d);
     ps_composition := orBlank (composition d);
     ps_trend := orBlank (trend d);
     ps_feeling := orBlank (feeling d);
     ps_anchors := buildAnchors (Some d) |}.

Definition parentSummaries (normalized : list RemixParent) : list ParentSummary :=
  imap summary (slice0 10 normalized).

Definition badRequest : Response :=
  {| status := 400; json := ErrorJson "Provide at least 2 parents." |}.
Definition failed : Response :=
  {| status := 500; json := ErrorJson "Failed to generate content" |}.

Definition planRequest (body : Body) (normalized : list RemixParent)
    (strength : float) : PlanRequest :=
  {| rq_strength := strength;
     rq_adjectives := default "" (adjectives body);
     rq_communities := default [] (communities body);
     rq_trends := default [] (trends body);
     rq_extraPrompt := default "" (extraPrompt body);
     rq_parentSummaries := parentSummaries normalized |}.

(** The handler from the plan reply on. *)
Definition generate (body : Body) (normalized : list RemixParent)
    (strength : float) (c : Completion) : io call Response :=
  match parsePlan c with
  | None => Throw
  | Some plan =>
      let prompt := finalPrompt plan strength in
      image ← await (ImagesGenerate prompt (default "1024x1024" (size body)));
      Ret {| status := 200;
             json := RemixJson prompt plan image
                       (List.filter nonEmpty (map url normalized)) |}
  end.

Definition POST (body : Body) : io call Response :=
  try_catch
    (let strength := clamp (default 0.7%float (remixStrength body)) in
     let normalized := normalizedParents body in
     if Nat.ltb (length normalized) 2 then Ret badRequest
     else
       c ← await (ChatCompletion (planRequest body normalized strength));
       generate body normalized strength c)
    (Ret failed).

End LegacyRemix.

(* ===================================================================== *)
(** ** The components as the specification words them, and the
       vocabulary of the statements below *)
(* ===================================================================== *)

Module Spec.
Import JS Effect RemixTypes.

(** Keep an entry only when its key was not seen before. *)
Fixpoint firstSeenBy (key : string -> string) (seen : list string)
    (l : list string) : list string :=
  match l with
  | [] => []
  | x :: r =>
      if bool_decide (key x ∈ seen) then firstSeenBy key seen r
      else x :: firstSeenBy key (key x :: seen) r
  end.

(** Tag Merger: concatenate in argument order, trim, drop empties,
    deduplicate by lower-cased value keeping the first-seen form, cut at
    [cap]. *)
Definition mergeTags (lists : list (list string)) (cap : nat) : list string :=
  take cap
    (firstSeenBy toLowerCase []
       (List.filter nonEmpty (map trim (concat lists)))).

(** [x], unless it is already in [sofar]. *)
Definition unlessPresent (sofar : list string) (x : string) : list string :=
  if bool_decide (x ∈ sofar) then [] else [x].

(** Anchor Extractor, steps 1 to 6. *)
Definition extractAnchors (mustKeep objects vibe people : list string)
  : list string :=
  let s1 := mustKeep in
  let s2 := s1 ++ List.filter (fun o => negb (bool_decide (o ∈ s1))) (take 5 objects) in
  let s3 := s2 ++ flat_map (unlessPresent s2) (take 1 vibe) in
  let s4 := s3 ++ flat_map (unlessPresent s3) (take 1 people) in
  take 10 (firstSeenBy (fun s => s) [] (map trim s4)).

(** The invariant of a descriptor's list fields: no entry is empty or
    only whitespace. *)
Definition noBlank (l : list string) : Prop :=
  Forall (fun e => nonEmpty (trim e) = true) l.

(** [c] occurs in [s]. *)
Fixpoint includesChar (c : ascii) (s : string) : bool :=
  match s with
  | EmptyString => false
  | String d r => Ascii.eqb d c || includesChar c r
  end.

(** A request's [parents] has fewer than two entries (or is no list). *)
Definition fewerThanTwo (f : arrayField RemixParent) : Prop :=
  forall l, asArray f = Some l -> length l < 2.

(** The first call a handler makes, if it makes one. *)
Definition firstCall {E A} (m : Effect.io E A) : option (Effect.event E) :=
  match m with
  | Effect.Do c _ => Some (Effect.Called c)
  | _ => None
  end.

(** A string that does not begin with whitespace. *)
Definition headOk (s : string) : Prop :=
  match s with
  | EmptyString => True
  | String c _ => isWhite c = false
  end.

(** An entry as [trim] and [filter(Boolean)] leave it. *)
Definition tidy (e : string) : Prop := trim e = e ∧ nonEmpty e = true.

(** The completion requests among the calls of a run. *)
Definition planRequestOf {R} (c : Remix.call R) : option Remix.PlanRequest :=
  match c with
  | Remix.ChatCompletion rq => Some rq
  | _ => None
  end.

Definition planRequests (t : list (event Remix.call)) : list Remix.PlanRequest :=
  omap (fun e => match e with Called c => planRequestOf c end) t.

Definition legacyPlanRequestOf {R} (c : LegacyRemix.call R)
  : option LegacyRemix.PlanRequest :=
  match c with
  | LegacyRemix.ChatCompletion rq => Some rq
  | _ => None
  end.

Definition legacyPlanRequests (t : list (event LegacyRemix.call))
  : list LegacyRemix.PlanRequest :=
  omap (fun e => match e with Called c => legacyPlanRequestOf c end) t.

(** The locators a run downloaded, in order. *)
Definition downloadOf {R} (c : Remix.call R) : option string :=
  match c with
  | Remix.UrlToFile u _ => Some u
  | _ => None
  end.

Definition downloaded (t : list (event Remix.call)) : list string :=
  omap (fun e => match e with Called c => downloadOf c end) t.

(** [size || "1024x1024"] after the destructuring default. *)
Definition editSize (body : Remix.Body) : string :=
  let s := default "1024x1024" (Remix.size body) in
  if nonEmpty s then s else "1024x1024".

(** The shape the two [remixLine]s share: two bounds, three phrases. *)
Definition tier (hi lo : float) (HIGH CREATIVE LIGHT : string)
    (strength : float) : string :=
  if PrimFloat.leb hi strength then HIGH
  else if PrimFloat.leb lo strength then CREATIVE
  else LIGHT.

End Spec.

(* ===================================================================== *)
(** ** Requests, plans and worlds used as examples *)
(* ===================================================================== *)

Module Examples.
Import JS Effect RemixTypes.

(** The descriptor of the specification's anchor example. *)
Definition lampDescriptor : ParentDescriptor :=
  {| title := None; description := None; subject := None; setting := None;
     medium := None; realism := None; lighting := None; palette := None;
     composition := None; style := None;
     vibe := Some ["moody"];
     objects := Some ["a"; "b"; "c"; "d"; "e"; "f"];
     people := Some [];
     trend := None; feeling := None;
     must_keep := Some ["lamp"] |}.

(** A parent given by its locator only. *)
Definition parentAt (u : string) : RemixParent :=
  {| url := u; descriptor := None |}.

(** A parent given by a description only. *)
Definition parentDescribed (d : string) : RemixParent :=
  LegacyRemix.fabricate None 0 d.

(** A request to the first route with the given parents and nothing else. *)
Definition remixBody (ps : arrayField RemixParent) : Remix.Body :=
  {| Remix.parents := ps; Remix.adjectives := None; Remix.communities := None;
     Remix.trends := None; Remix.extraPrompt := None; Remix.size := None;
     Remix.remixStrength := None; Remix.anchorPerParent := None |}.

(** A request to the legacy route. *)
Definition legacyBody (ps : arrayField RemixParent)
    (ds ids : option (list string)) : LegacyRemix.Body :=
  {| LegacyRemix.parents := ps; LegacyRemix.adjectives := None;
     LegacyRemix.communities := None; LegacyRemix.trends := None;
     LegacyRemix.extraPrompt := None; LegacyRemix.remixStrength := None;
     LegacyRemix.descriptions := ds; LegacyRemix.parentIds := ids;
     LegacyRemix.size := None |}.

(** A world in which every call fails. *)
Definition silentWorld : world Remix.call :=
  fun R c =>
    match c in Remix.call R return R with
    | Remix.UrlToFile _ _ => Rejected
    | Remix.ChatCompletion _ => Rejected
    | Remix.ImagesEdit _ _ _ => Rejected
    | Remix.UploadB64ToCloudinary _ => Rejected
    end.

Definition silentLegacyWorld : world LegacyRemix.call :=
  fun R c =>
    match c in LegacyRemix.call R return R with
    | LegacyRemix.ChatCompletion _ => Rejected
    | LegacyRemix.ImagesGenerate _ _ => Rejected
    end.

(** One parent, two descriptions. *)
Definition oneParentTwoDescriptions : LegacyRemix.Body :=
  legacyBody (Array [parentAt "https://img.example/1.png"])
             (Some ["a cat"; "a dog"]) (Some ["id-1"]).

(** Eleven parents, told apart by their descriptions. *)
Definition elevenParents : list RemixParent :=
  map parentDescribed
    ["p1"; "p2"; "p3"; "p4"; "p5"; "p6"; "p7"; "p8"; "p9"; "p10"; "p11"].

(** Seventeen parents, told apart by their locators. *)
Definition seventeenParents : list RemixParent :=
  map parentAt
    ["u1"; "u2"; "u3"; "u4"; "u5"; "u6"; "u7"; "u8"; "u9"; "u10"; "u11";
     "u12"; "u13"; "u14"; "u15"; "u16"; "u17"].

(** A plan with every property present but only two anchors. *)
Definition twoAnchorPlan : RemixPlan :=
  {| scene := Some "A street at dusk";
     plan_subject := Some "A dog under a lamp";
     plan_setting := Some "Old town";
     plan_composition := Some "Low angle";
     plan_medium := Some "photograph";
     plan_realism := Some "photorealistic";
     plan_lighting := Some "warm";
     plan_palette := Some "amber";
     style_notes := Some "grainy";
     must_include := Some ["lamp"; "dog"];
     avoid := Some [];
     remix_directive := Some "Blend freely." |}.

Definition twoParents : list RemixParent := [parentAt "u1"; parentAt "u2"].

(** A world in which every call succeeds and the model answers [c]. *)
Definition obligingWorld (c : Completion) : world Remix.call :=
  fun R call =>
    match call in Remix.call R return R with
    | Remix.UrlToFile u name =>
        Resolved {| Remix.file_name := name +:+ ".jpg";
                    Remix.file_type := "image/jpeg";
                    Remix.file_data := u |}
    | Remix.ChatCompletion _ => Resolved c
    | Remix.ImagesEdit _ _ _ =>
        Resolved {| Remix.res_ok := true; Remix.b64_json := Some "aGVsbG8=" |}
    | Remix.UploadB64ToCloudinary _ => Resolved "https://cdn.example/remix.png"
    end.

Definition obligingLegacyWorld (c : Completion) : world LegacyRemix.call :=
  fun R call =>
    match call in LegacyRemix.call R return R with
    | LegacyRemix.ChatCompletion _ => Resolved c
    | LegacyRemix.ImagesGenerate _ _ => Resolved (Some "https://cdn.example/gen.png")
    end.

End Examples.

(* ===================================================================== *)
(** ** [cloudinary/recent]: the [GET] handler *)
(* ===================================================================== *)

Module Listing.
Import JS Effect Recent.

(** One resource of a search result, with the properties the handler
    reads.  [context] and [metadata] are [None] when missing. *)
Record Resource := {
  secure_url : option string;
  public_id : option string;
  resource_type : option string;
  type_ : option string;
  asset_id : value;
  width : value;
  height : value;
  folder : value;
  created_at : value;
  tags : option (list string);
  context : option (gmap string value);
  metadata : option (gmap string value);
}.

Record ImageDescriptor := {
  d_title : value;
  d_caption : value;
  d_altText : value;
  d_so_me_type : value;
  d_trend : value;
  d_feeling : value;
  d_subject : value;
  d_setting : value;
  d_medium : value;
  d_realism : value;
  d_lighting : value;
  d_palette : value;
  d_composition : value;
  d_style : value;
  d_vibe : list string;
  d_objects : list string;
  d_people : list string;
  d_scenes : list string;
  d_must_keep : list string;
}.

Record ImageItem := {
  i_url : string;
  i_publicId : option string;
  i_assetId : value;
  i_width : value;
  i_height : value;
  i_folder : value;
  i_createdAt : value;
  i_tags : list string;
  i_title : value;
  i_alt : value;
  i_descriptor : ImageDescriptor;
  i_aiTitle : value;
  i_aiStyle : value;
  i_aiTrend : value;
  i_aiSoMeType : value;
  i_aiVibe : value;
  i_aiObjects : value;
  i_aiPeople : value;
  i_community : value;
  i_parentIds : value;
}.

(** The properties of an object value, as a container. *)
Definition propertiesOf (fields : list (string * value)) : gmap string value :=
  list_to_map fields.

(** [r.context?.custom ?? r.context ?? {}]: a [custom] that is some other
    kind of value has none of the properties looked up. *)
Definition contextOf (r : Resource) : gmap string value :=
  match context r with
  | None => ∅
  | Some c =>
      match c !! "custom" with
      | None | Some VUndefined | Some VNull => c
      | Some (VObj fields) => propertiesOf fields
      | Some _ => ∅
      end
  end.

(** [r.metadata ?? {}] *)
Definition metadataOf (r : Resource) : gmap string value :=
  default ∅ (metadata r).

(** One decimal digit. *)
Definition digitOf (c : ascii) : option Z :=
  let n := nat_of_ascii c in
  if Nat.leb 48 n && Nat.leb n 57 then Some (Z.of_nat (n - 48)) else None.

(** The digits at the head of [s], read from the left; [acc] is [None]
    until the first digit. *)
Fixpoint readDigits (acc : option Z) (s : string) : option Z :=
  match s with
  | EmptyString => acc
  | String c r =>
      match digitOf c with
      | Some d => readDigits (Some (10 * default 0%Z acc + d)%Z) r
      | None => acc
      end
  end.

(** [parseInt(s, 10)]; [None] is NaN.  The integer is the one written:
    binary64 holds it as it is up to [MAX_SAFE_INTEGER]. *)
Definition parseInt (s : string) : option Z :=
  match trimStart s with
  | String "-" r => Z.opp <$> readDigits None r
  | String "+" r => readDigits None r
  | t => readDigits None t
  end.

(** [a + b] on the results of [parseInt]. *)
Definition plus (a b : option Z) : option Z :=
  match a, b with
  | Some x, Some y => Some (x + y)%Z
  | _, _ => None
  end.

Definition MAX_SAFE_INTEGER : Z := 2 ^ 53 - 1.

(** NaN, or an integer that binary64 holds exactly. *)
Definition safe (i : option Z) : bool :=
  match i with
  | None => true
  | Some z => (Z.abs z <=? MAX_SAFE_INTEGER)%Z
  end.

(** The index [slice] makes of an argument: NaN counts as 0, a negative
    number counts from the end. *)
Definition relativeIndex (len : nat) (i : option Z) : nat :=
  match i with
  | None => 0
  | Some z =>
      if (z <? 0)%Z then Z.to_nat (Z.max (Z.of_nat len + z) 0)
      else Nat.min (Z.to_nat z) len
  end.

(** [arr.slice(start, end)] *)
Definition slice {A} (start end_ : option Z) (arr : list A) : list A :=
  let k := relativeIndex (length arr) start in
  let final := relativeIndex (length arr) end_ in
  take (final - k) (drop k arr).

(** [s.split("/").pop()] *)
Definition lastSegment (s : string) : string :=
  List.last (split "/" s) EmptyString.

(** [x || d] on a query parameter that may be missing. *)
Definition orElse (o : option string) (d : string) : string :=
  match o with
  | Some (String _ _ as s) => s
  | _ => d
  end.

Definition cloudinaryfolder : string := "imageEcology".

Section Route.
Variable Number_toString : float -> string.
Variable JSON_parse : string -> option value.
(** [cloudinary.url(public_id, { secure: true, resource_type, type })] *)
Variable cloudinary_url : option string -> string -> string -> string.

Local Abbreviation pick := (Recent.pick Number_toString).
Local Abbreviation csvToArr := (Recent.csvToArr Number_toString JSON_parse).

(** [pick(cx, ...keys) ?? pick(md, ...keys)] *)
Definition either (cx md : gmap string value) (keys : list string) : value :=
  nullish (pick cx keys) (pick md keys).

Definition captionOf (cx md : gmap string value) : value :=
  nullish (pick cx ["caption"; "Caption"]) (pick md ["caption"]).

Definition altOf (cx md : gmap string value) : value :=
  nullish (pick cx ["alt"; "altText"; "alt_text"])
          (pick md ["alt"; "altText"; "alt_text"; "description"]).

Definition titleOf (r : Resource) : value :=
  let cx := contextOf r in
  let md := metadataOf r in
  nullish (captionOf cx md)
    (nullish (pick md ["title"])
       (nullish (match public_id r with
                 | Some p => VStr (lastSegment p)
                 | None => VUndefined
                 end)
          (VStr "Untitled"))).

Definition descriptorOf (cx md : gmap string value) : ImageDescriptor :=
  {| d_title := nullish (either cx md ["aiTitle"; "ai_title"]) VNull;
     d_caption := nullish (either cx md ["aiCaption"; "ai_caption"]) VNull;
     d_altText := nullish (altOf cx md) VNull;
     d_so_me_type := nullish (either cx md ["aiSoMeType"; "ai_so_me_type"]) VNull;
     d_trend := nullish (either cx md ["aiTrend"; "ai_trend"]) VNull;
     d_feeling := nullish (either cx md ["aiFeeling"; "ai_feeling"]) VNull;
     d_subject := nullish (either cx md ["aiSubject"; "ai_subject"]) VNull;
     d_setting := nullish (either cx md ["aiSetting"; "ai_setting"]) VNull;
     d_medium := nullish (either cx md ["aiMedium"; "ai_medium"]) VNull;
     d_realism := nullish (either cx md ["aiRealism"; "ai_realism"]) VNull;
     d_lighting := nullish (either cx md ["aiLighting"; "ai_lighting"]) VNull;
     d_palette := nullish (either cx md ["aiPalette"; "ai_palette"]) VNull;
     d_composition := nullish (either cx md ["aiComposition"; "ai_composition"]) VNull;
     d_style := nullish (either cx md ["aiStyle"; "ai_style"]) VNull;
     d_vibe := csvToArr (either cx md ["aiVibe"; "ai_vibe"]);
     d_objects := csvToArr (either cx md ["aiObjects"; "ai_objects"]);
     d_people := csvToArr (either cx md ["aiPeople"; "ai_people"]);
     d_scenes := csvToArr (either cx md ["aiScenes"; "ai_scenes"]);
     d_must_keep := csvToArr (either cx md ["aiMustKeep"; "ai_must_keep"]) |}.

(** The callback of [.map((r: any) => ...)]. *)
Definition itemOf (r : Resource) : ImageItem :=
  let cx := contextOf r in
  let md := metadataOf r in
  {| i_url := match secure_url r with
              | Some (String _ _ as u) => u
              | _ => cloudinary_url (public_id r)
                       (orElse (resource_type r) "image")
                       (orElse (type_ r) "upload")
              end;
     i_publicId := public_id r;
     i_assetId := nullish (asset_id r) VNull;
     i_width := nullish (width r) VNull;
     i_height := nullish (height r) VNull;
     i_folder := nullish (folder r) VNull;
     i_createdAt := nullish (created_at r) VNull;
     i_tags := default [] (tags r);
     i_title := titleOf r;
     i_alt := nullish (altOf cx md) VNull;
     i_descriptor := descriptorOf cx md;
     i_aiTitle := nullish (either cx md ["aiTitle"; "ai_title"]) VNull;
     i_aiStyle := nullish (either cx md ["aiStyle"; "ai_style"]) VNull;
     i_aiTrend := nullish (either cx md ["aiTrend"; "ai_trend"]) VNull;
     i_aiSoMeType := nullish (either cx md ["aiSoMeType"; "ai_so_me_type"]) VNull;
     i_aiVibe := nullish (either cx md ["aiVibe"; "ai_vibe"]) VNull;
     i_aiObjects := nullish (either cx md ["aiObjects"; "ai_objects"]) VNull;
     i_aiPeople := nullish (either cx md ["aiPeople"; "ai_people"]) VNull;
     i_community := nullish (either cx md ["community"]) VNull;
     i_parentIds := nullish (either cx md ["parentIds"; "parent_ids"]) VNull |}.

(** The one external call: the search, with its folder and
    [max_results]; the reply is [res.resources], [None] when missing. *)
Inductive call : Type -> Type :=
| Search (folder : string) (max_results : option Z)
    : call (outcome (option (list Resource))).

Inductive Json : Type :=
| ErrorJson (error : string)
| ItemsJson (items : list ImageItem).

Record Response := {
  status : nat;
  json : Json;
}.

Definition failed : Response :=
  {| status := 500; json := ErrorJson "Failed to fetch images" |}.

(** The page of a search result. *)
Definition page (skip limit : option Z) (resources : list Resource)
  : list ImageItem :=
  map itemOf (slice skip (plus skip limit) resources).

(** The handler, given the three query parameters as
    [url.searchParams.get] returns them. *)
Definition GET (skipParam limitParam folderParam : option string)
  : io call Response :=
  let skip := parseInt (orElse skipParam "0") in
  let limit := parseInt (orElse limitParam "10") in
  let folder := orElse folderParam cloudinaryfolder in
  try_catch
    (resources ← await (Search folder (plus skip limit));
     Ret {| status := 200;
            json := ItemsJson (page skip limit (default [] resources)) |})
    (Ret failed).
End Route.

End Listing.

(* ===================================================================== *)
(** ** The upload route: the [POST] handler *)
(* ===================================================================== *)

Module Ingest.
Import JS Effect.

(** The object [JSON.parse] makes of the vision reply; [None] is a
    property the object does not have. *)
Record Ai := {
  title : option string;
  caption : option string;
  altText : option string;
  so_me_type : option string;
  trend : option string;
  feeling : option string;
  subject : option string;
  setting : option string;
  medium : option string;
  realism : option string;
  lighting : option string;
  palette : option string;
  composition : option string;
  style : option string;
  tags : option (list string);
  vibe : option (list string);
  objects : option (list string);
  scenes : option (list string);
  people : option (list string);
  must_keep : option (list string);
}.

(** [JSON.parse("{}")] *)
Definition noAi : Ai :=
  {| title := None; caption := None; altText := None; so_me_type := None;
     trend := None; feeling := None; subject := None; setting := None;
     medium := None; realism := None; lighting := None; palette := None;
     composition := None; style := None; tags := None; vibe := None;
     objects := None; scenes := None; people := None; must_keep := None |}.

(** The four lists [mergedTags] draws from. *)
Definition listsOf (ai : Ai) : Upload.AiLists :=
  {| Upload.ai_tags := tags ai; Upload.ai_vibe := vibe ai;
     Upload.ai_objects := objects ai; Upload.ai_must_keep := must_keep ai |}.

(** What the route finds in [completion.choices[0]?.message?.content]. *)
Inductive Completion : Type :=
| NoContent
| Unparsable
| Parsed (ai : Ai).

(** [JSON.parse(content ?? "{}")] *)
Definition parseAi (c : Completion) : option Ai :=
  match c with
  | NoContent => Some noAi
  | Unparsable => None
  | Parsed ai => Some ai
  end.

(** One entry of the upload result's [moderation] array. *)
Record Moderation := {
  m_status : string;
  m_kind : string;
}.

Record UploadResult := {
  secure_url : string;
  public_id : string;
  moderation : option (list Moderation);
}.

(** The request body; [title] and [tags] default to the empty string. *)
Record Body := {
  imageUrl : string;
  b_title : option string;
  b_tags : option string;
  parentIds : value;
  community : option string;
}.

Section Route.
Variable Number_toString : float -> string.

(** [x != null ? String(x) : ""] *)
Definition stringOrBlank (x : value) : string :=
  match x with
  | VUndefined | VNull => ""
  | _ => toString Number_toString x
  end.

(** A context property holding an optional string. *)
Definition prop (o : option string) : value :=
  match o with
  | Some s => VStr s
  | None => VUndefined
  end.

(** [(a || []).join(sep)] *)
Definition joined (sep : string) (a : option (list string)) : value :=
  VStr (join sep (default [] a)).

(** The [context] of the first upload. *)
Definition uploadContext (body : Body) : list (string * value) :=
  let title := default "" (b_title body) in
  [ ("alt", VStr title);
    ("caption", VStr title);
    ("parentIds", VStr (stringOrBlank (parentIds body)));
    ("community", VStr (default "" (community body))) ].

(** The [context] written back with the descriptor. *)
Definition descriptorContext (body : Body) (ai : Ai) : list (string * value) :=
  [ ("caption", VStr (default "" (b_title body)));
    ("alt", prop (altText ai));
    ("community", VStr (default "" (community body)));
    ("parentIds", VStr (stringOrBlank (parentIds body)));
    ("ai_title", prop (title ai));
    ("ai_caption", prop (caption ai));
    ("ai_trend", prop (trend ai));
    ("ai_so_me_type", prop (so_me_type ai));
    ("ai_feeling", prop (feeling ai));
    ("ai_style", prop (style ai));
    ("ai_subject", prop (subject ai));
    ("ai_setting", prop (setting ai));
    ("ai_medium", prop (medium ai));
    ("ai_realism", prop (realism ai));
    ("ai_lighting", prop (lighting ai));
    ("ai_palette", prop (palette ai));
    ("ai_composition", prop (composition ai));
    ("ai_vibe", joined ", " (vibe ai));
    ("ai_objects", joined ", " (objects ai));
    ("ai_scenes", joined " | " (scenes ai));
    ("ai_people", joined ", " (people ai));
    ("ai_must_keep", joined ", " (must_keep ai)) ].

(** The external calls: the upload, the vision completion (its prompt is
    a fixed text around the title, sent with the uploaded image), and the
    write-back. *)
Inductive call : Type -> Type :=
| CloudinaryUpload (imageUrl : string) (context : list (string * value))
    : call (outcome UploadResult)
| VisionCompletion (title : string) (image_url : string)
    : call (outcome Completion)
| CloudinaryExplicit (public_id : string) (tags : string)
    (context : list (string * value)) : call (outcome unit).

Inductive Json : Type :=
| ErrorJson (error : string)
| UploadedJson (url publicId title : string) (ai : Ai) (tags : list string)
    (parentIds : value) (community : option string).

Record Response := {
  status : nat;
  json : Json;
}.

Definition policy : Response :=
  {| status := 500; json := ErrorJson "image does not adhere to our policy" |}.
Definition failed : Response :=
  {| status := 500; json := ErrorJson "Failed to upload image" |}.

(** [moderationArr?.some((m) => m.status === "rejected" &&
    m.kind.startsWith("aws_rek"))] *)
Definition wasRejected (result : UploadResult) : bool :=
  match moderation result with
  | None => false
  | Some arr =>
      existsb (fun m => String.eqb (m_status m) "rejected"
                        && startsWith (m_kind m) "aws_rek") arr
  end.

Definition mergedTags (body : Body) (ai : Ai) : list string :=
  Upload.mergedTags (listsOf ai) (default "" (b_tags body)).

Definition POST (body : Body) : io call Response :=
  let title := default "" (b_title body) in
  try_catch
    (result ← await (CloudinaryUpload (imageUrl body) (uploadContext body));
     if wasRejected result then Ret policy
     else
       c ← await (VisionCompletion title (secure_url result));
       match parseAi c with
       | None => Throw
       | Some ai =>
           let merged := mergedTags body ai in
           _ ← await (CloudinaryExplicit (public_id result) (join "," merged)
                        (descriptorContext body ai));
           Ret {| status := 200;
                  json := UploadedJson (secure_url result) (public_id result)
                            title ai merged
                            (Recent.nullish (parentIds body) VNull)
                            (community body) |}
       end)
    (Ret failed).
End Route.

End Ingest.

(* ===================================================================== *)
(** ** [generateImage/route.ts]: the [GET] kept for compatibility *)
(* ===================================================================== *)

Module CompatGet.
Import JS Effect.

(** [s.replace(pattern, "")] with a one-code-unit string pattern: only the
    first occurrence goes. *)
Fixpoint removeFirst (c : ascii) (s : string) : string :=
  match s with
  | EmptyString => EmptyString
  | String d r => if Ascii.eqb d c then r else String d (removeFirst c r)
  end.

Definition quote : ascii := ascii_of_nat 34.

Definition styleSuffix : string :=
  "the image should be in the style of mideaval drawings, fantasy, post-internet graphics and sci-fi. the image is not allowed to show any caption or UI element.".

(** The message sent to the chat model. *)
Definition question (prompt adjectives : string) : string :=
  "pretend that you are an image prompt engineer that is trying to produce social media content."
  +:+ "We need to write an image prompt that expands on and depicts the following sentence: There is... "
  +:+ prompt +:+ ". "
  +:+ "The image should fit this vibe: " +:+ adjectives
  +:+ " and be in the style of mediaval drawings or post-internet graphics and sci-fi, "
  +:+ "please output an image prompt in english".

Definition newline : string := String (ascii_of_nat 10) EmptyString.

(** What [completion.choices[0]] holds: nothing, or a message whose
    [content] is [None] when it is [null]. *)
Inductive Choice : Type :=
| NoChoice
| Message (content : option string).

(** The replies: the first choice of the completion, and [image.data] as
    the list of its entries' [url]s ([None] when [data] is missing). *)
Inductive call : Type -> Type :=
| ChatCompletion (content : string) : call (outcome Choice)
| ImagesGenerate (prompt : string)
    : call (outcome (option (list (option string)))).

Inductive Json : Type :=
| ErrorJson (error : string)
| DataJson (prompt remixedPrompt : string) (imageUrl : option string)
    (tags : string).

Record Response := {
  status : nat;
  json : Json;
}.

Definition failed : Response :=
  {| status := 500; json := ErrorJson "Failed to generate content" |}.

(** [(content || "")] with its first double quote replaced by nothing. *)
Definition sentenceOf (content : option string) : string :=
  removeFirst quote (default "" content).

(** The prompt handed to the image model. *)
Definition imagePrompt (sentence : string) : string :=
  trim (sentence +:+ newline +:+ styleSuffix).

(** The handler, given the two query parameters as
    [url.searchParams.get] returns them. *)
Definition GET (promptParam adjectivesParam : option string)
  : io call Response :=
  try_catch
    (let prompt := Listing.orElse promptParam "" in
     let adjectives := Listing.orElse adjectivesParam "" in
     choice ← await (ChatCompletion (question prompt adjectives));
     match choice with
     | NoChoice => Throw
     | Message content =>
         let sentence := sentenceOf content in
         data ← await (ImagesGenerate (imagePrompt sentence));
         match data with
         | None =>
             Ret {| status := 200;
                    json := DataJson prompt sentence (Some "imageurlplaceholder")
                              adjectives |}
         | Some [] => Throw
         | Some (url :: _) =>
             Ret {| status := 200;
                    json := DataJson prompt sentence url adjectives |}
         end
     end)
    (Ret failed).

End CompatGet.

(* ===================================================================== *)
(** ** The re-ingest route *)
(* ===================================================================== *)

Module Reingest.
Import JS Effect.

Record Image := {
  id : string;
  url : string;
  title : string;
  tags : list string;
  date : string;
}.

(** The reply of the listing request: [response.ok], and the body as
    [response.json()] reads it ([None] when that throws). *)
Record RecentReply := {
  ok : bool;
  body : option (list Image);
}.

(** The two requests the handler sends to its own origin: the listing
    with its [limit] and [skip], and one upload per image with the
    [imageUrl] and [title] of its JSON body. *)
Inductive call : Type -> Type :=
| FetchRecent (origin : string) (limit skip : nat) : call (outcome RecentReply)
| FetchUpload (origin imageUrl title : string) : call (outcome bool).

Inductive Json : Type :=
| ErrorJson (error : string)
| ImagesJson (data : list Image).

Record Response := {
  status : nat;
  json : Json;
}.

Definition failed : Response :=
  {| status := 500; json := ErrorJson "Failed to fetch recent images" |}.

Definition uploads (origin : string) (data : list Image)
  : list (call (outcome bool)) :=
  map (fun element => FetchUpload origin (url element) (title element)) data.

(** There is no [try] around this handler. *)
Definition GET (origin : string) : io call Response :=
  recentImagesResponse ← await (FetchRecent origin 1000 0);
  if negb (ok recentImagesResponse) then Ret failed
  else
    match body recentImagesResponse with
    | None => Throw
    | Some data =>
        _ ← Promise_all (uploads origin data);
        Ret {| status := 200; json := ImagesJson data |}
    end.

End Reingest.

(* ===================================================================== *)
(** ** [generateImage/route.ts], first file: the helpers *)
(* ===================================================================== *)

Module Helpers.
Import JS Effect.

(** [s.includes(sub)] *)
Fixpoint includes (s sub : string) : bool :=
  String.prefix sub s
  || match s with
     | EmptyString => false
     | String _ r => includes r sub
     end.

(** What [fetch] resolves with: [res.ok], the [content-type] header, and
    what [res.arrayBuffer()] gives. *)
Record Fetched := {
  ok : bool;
  content_type : option string;
  arrayBuffer : outcome string;
}.

(** What the callback of [upload_stream] is called with: [err], and
    [result?.secure_url]. *)
Record Streamed := {
  err : bool;
  secure_url : option string;
}.

Inductive call : Type -> Type :=
| Fetch (url : string) : call (outcome Fetched)
| UploadStream (b64 : string) : call Streamed.

(** A code unit from U+0020 to U+007E. *)
Definition printable (c : ascii) : bool :=
  let n := nat_of_ascii c in Nat.leb 32 n && Nat.leb n 126.

(** The [type] a [File] keeps of the [type] option it is constructed
    with: the empty string when the option holds a code unit outside
    U+0020 to U+007E, else the option in lower case. *)
Definition typeOf (type : string) : string :=
  if forallb printable (list_ascii_of_string type) then toLowerCase type
  else "".

Definition extOf (contentType : string) : string :=
  if includes contentType "png" then "png"
  else if includes contentType "webp" then "webp"
  else "jpg".

Definition urlToFile (url fallbackName : string) : io call Remix.File :=
  res ← await (Fetch url);
  if negb (ok res) then Throw
  else
    let contentType := Listing.orElse (content_type res) "image/jpeg" in
    match arrayBuffer res with
    | Rejected => Throw
    | Resolved ab =>
        Ret {| Remix.file_name := fallbackName +:+ "." +:+ extOf contentType;
               Remix.file_type := typeOf contentType;
               Remix.file_data := ab |}
    end.

(** [b64] is whatever the caller hands over. *)
Definition uploadB64ToCloudinary (b64 : value) : io call string :=
  match b64 with
  | VStr (String _ _ as s) =>
      Do (UploadStream s)
         (fun r =>
            if err r then Throw
            else match secure_url r with
                 | Some (String _ _ as u) => Ret u
                 | _ => Throw
                 end)
  | _ => Throw
  end.

End Helpers.

(* ===================================================================== *)
(** ** Further vocabulary for statements about whole handlers *)
(* ===================================================================== *)

Module Terms.
Import JS Effect RemixTypes.

(** A scalar field as the listing fills it: [null], or a value some key
    of one of the two containers holds, which is not [undefined] and
    does not render blank. *)
Definition storedNonBlank (Number_toString : float -> string)
    (cx md : gmap string value) (v : value) : Prop :=
  v = VNull
  ∨ ((exists k, cx !! k = Some v ∨ md !! k = Some v)
     ∧ v ≠ VUndefined
     ∧ nonEmpty (trim (toString Number_toString v)) = true).

(** The scalar fields of a descriptor. *)
Definition scalarsOf (d : Listing.ImageDescriptor) : list value :=
  [ Listing.d_title d; Listing.d_caption d; Listing.d_altText d;
    Listing.d_so_me_type d; Listing.d_trend d; Listing.d_feeling d;
    Listing.d_subject d; Listing.d_setting d; Listing.d_medium d;
    Listing.d_realism d; Listing.d_lighting d; Listing.d_palette d;
    Listing.d_composition d; Listing.d_style d ].

(** The list fields of a descriptor. *)
Definition listsOf (d : Listing.ImageDescriptor) : list (list string) :=
  [ Listing.d_vibe d; Listing.d_objects d; Listing.d_people d;
    Listing.d_scenes d; Listing.d_must_keep d ].

(** A string that is neither empty nor only whitespace. *)
Definition nonBlank (s : string) : Prop := nonEmpty (trim s) = true.

(** How often [c] occurs in [s]. *)
Fixpoint occurrences (c : ascii) (s : string) : nat :=
  match s with
  | EmptyString => 0
  | String d r => (if Ascii.eqb d c then 1 else 0) + occurrences c r
  end.

(** [s] without every [c]. *)
Fixpoint without (c : ascii) (s : string) : string :=
  match s with
  | EmptyString => EmptyString
  | String d r => if Ascii.eqb d c then without c r else String d (without c r)
  end.

(** The entries a descriptor offers as anchors, before any tidying. *)
Definition anchorSources (d : option ParentDescriptor) : list string :=
  orNoArray (d ≫= must_keep) ++ take 5 (orNoArray (d ≫= objects))
  ++ take 1 (orNoArray (d ≫= vibe)) ++ take 1 (orNoArray (d ≫= people)).

(** The base64 payloads a run handed to the upload helper. *)
Definition uploadOf {R} (c : Remix.call R) : option string :=
  match c with
  | Remix.UploadB64ToCloudinary b64 => Some b64
  | _ => None
  end.

Definition uploaded (t : list (event Remix.call)) : list string :=
  omap (fun e => match e with Called c => uploadOf c end) t.

(** The kind of each call of a run of the first remix route. *)
Inductive step : Type := Download | Plan | Edit | Store.

Definition stepOf {R} (c : Remix.call R) : step :=
  match c with
  | Remix.UrlToFile _ _ => Download
  | Remix.ChatCompletion _ => Plan
  | Remix.ImagesEdit _ _ _ => Edit
  | Remix.UploadB64ToCloudinary _ => Store
  end.

Definition steps (t : list (event Remix.call)) : list step :=
  map (fun e => match e with Called c => stepOf c end) t.

End Terms.

(* ===================================================================== *)
(** ** Concrete services for the further handlers *)
(* ===================================================================== *)

Module Cases.
Import JS Effect RemixTypes.

(** A descriptor whose only anchor is a blank. *)
Definition blankKeep : ParentDescriptor :=
  {| title := None; description := None; subject := None; setting := None;
     medium := None; realism := None; lighting := None; palette := None;
     composition := None; style := None; vibe := None; objects := None;
     people := None; trend := None; feeling := None;
     must_keep := Some [" "] |}.

(** A search that finds nothing. *)
Definition emptySearch : world Listing.call :=
  fun R c =>
    match c in Listing.call R return R with
    | Listing.Search _ _ => Resolved (Some [])
    end.

(** An upload that moderation rejected. *)
Definition flagged : Ingest.UploadResult :=
  {| Ingest.secure_url := "https://cdn.example/a.png";
     Ingest.public_id := "imageEcology/a";
     Ingest.moderation :=
       Some [ {| Ingest.m_status := "rejected";
                 Ingest.m_kind := "aws_rek" |} ] |}.

Definition oneImage : Ingest.Body :=
  {| Ingest.imageUrl := "https://example.org/a.png";
     Ingest.b_title := Some "A lamp";
     Ingest.b_tags := Some "lamp, night";
     Ingest.parentIds := VUndefined;
     Ingest.community := None |}.

(** A vision reply about a lamp. *)
Definition lampAi : Ingest.Ai :=
  {| Ingest.title := Some "Lamp at night";
     Ingest.caption := Some "A lamp glows on a wet street.";
     Ingest.altText := Some "street lamp at night";
     Ingest.so_me_type := Some "photo dump";
     Ingest.trend := Some "";
     Ingest.feeling := Some "calm";
     Ingest.subject := Some "a street lamp";
     Ingest.setting := Some "wet street";
     Ingest.medium := Some "photograph";
     Ingest.realism := Some "photorealistic";
     Ingest.lighting := Some "warm";
     Ingest.palette := Some "amber";
     Ingest.composition := Some "low angle";
     Ingest.style := Some "grainy night photograph";
     Ingest.tags := Some ["Lamp"; "street"];
     Ingest.vibe := Some ["moody"];
     Ingest.objects := Some ["lamp"; "puddle"];
     Ingest.scenes := Some ["street"; "night"];
     Ingest.people := Some [];
     Ingest.must_keep := Some ["lamp"; "wet asphalt"; "glow"] |}.

(** An upload that moderation let through. *)
Definition accepted : Ingest.UploadResult :=
  {| Ingest.secure_url := "https://cdn.example/a.png";
     Ingest.public_id := "imageEcology/a";
     Ingest.moderation := Some [] |}.

(** A world in which only the write-back fails. *)
Definition lostWriteBack : world Ingest.call :=
  fun R c =>
    match c in Ingest.call R return R with
    | Ingest.CloudinaryUpload _ _ => Resolved accepted
    | Ingest.VisionCompletion _ _ => Resolved (Ingest.Parsed lampAi)
    | Ingest.CloudinaryExplicit _ _ _ => Rejected
    end.

(** A world whose moderation rejects every upload. *)
Definition strictModeration : world Ingest.call :=
  fun R c =>
    match c in Ingest.call R return R with
    | Ingest.CloudinaryUpload _ _ => Resolved flagged
    | Ingest.VisionCompletion _ _ => Rejected
    | Ingest.CloudinaryExplicit _ _ _ => Rejected
    end.

(** A host that serves a PNG. *)
Definition pngHost : world Helpers.call :=
  fun R c =>
    match c in Helpers.call R return R with
    | Helpers.Fetch _ =>
        Resolved {| Helpers.ok := true;
                    Helpers.content_type := Some "image/png";
                    Helpers.arrayBuffer := Resolved "bytes" |}
    | Helpers.UploadStream _ =>
        {| Helpers.err := false;
           Helpers.secure_url := Some "https://cdn.example/remix.png" |}
    end.

(** A chat model that does not answer. *)
Definition noChat : world CompatGet.call :=
  fun R c =>
    match c in CompatGet.call R return R with
    | CompatGet.ChatCompletion _ => Rejected
    | CompatGet.ImagesGenerate _ => Rejected
    end.

(** A listing that is down. *)
Definition listingDown : world Reingest.call :=
  fun R c =>
    match c in Reingest.call R return R with
    | Reingest.FetchRecent _ _ _ => Rejected
    | Reingest.FetchUpload _ _ _ => Resolved true
    end.

End Cases.

(* ===================================================================== *)
(** ** Facts about the string built-ins *)
(* ===================================================================== *)

Module JSFacts.
Import JS Spec.

Lemma trimStart_headOk s : headOk (trimStart s).
Proof.
  induction s as [|c r IH]; simpl; [done|].
  destruct (isWhite c) eqn:W; [done|]. exact W.
Qed.

Lemma trimStart_fix s : headOk s -> trimStart s = s.
Proof. destruct s as [|c r]; simpl; [done|]. by intros ->. Qed.

Lemma trimEnd_headOk s : headOk s -> headOk (trimEnd s).
Proof.
  destruct s as [|c r]; simpl; [done|]. intros W.
  destruct (trimEnd r); [by rewrite W|done].
Qed.

Lemma trimEnd_idem s : trimEnd (trimEnd s) = trimEnd s.
Proof.
  induction s as [|c r IH]; simpl; [done|].
  destruct (trimEnd r) as [|a t] eqn:E.
  - destruct (isWhite c) eqn:W; simpl; [done|by rewrite W].
  - change (trimEnd (String c (String a t)) = String c (String a t)).
    simpl in IH |- *. destruct (trimEnd t) eqn:Et.
    + destruct (isWhite a) eqn:Wa; [done|]. by inversion IH.
    + by rewrite IH.
Qed.

Lemma trim_idem s : trim (trim s) = trim s.
Proof.
  unfold trim.
  rewrite (trimStart_fix (trimEnd (trimStart s)))
    by apply trimEnd_headOk, trimStart_headOk.
  apply trimEnd_idem.
Qed.

Lemma trim_fix_start s : trim s = s -> trimStart s = s.
Proof.
  intros H. apply trimStart_fix. rewrite <- H.
  apply trimEnd_headOk, trimStart_headOk.
Qed.

Lemma trim_fix_end s : trim s = s -> trimEnd s = s.
Proof. intros H. rewrite <- H at 1. unfold trim. by rewrite trimEnd_idem. Qed.

Lemma append_cons c r b : String c r +:+ b = String c (r +:+ b).
Proof. reflexivity. Qed.

Lemma append_nonEmpty_r a b : nonEmpty b = true -> nonEmpty (a +:+ b) = true.
Proof. destruct a; simpl; done. Qed.

Lemma append_nonEmpty_l a b : nonEmpty a = true -> nonEmpty (a +:+ b) = true.
Proof. destruct a; simpl; done. Qed.

Lemma trimStart_append a b :
  nonEmpty (trimStart a) = true -> trimStart (a +:+ b) = trimStart a +:+ b.
Proof.
  induction a as [|c r IH]; simpl; [done|].
  destruct (isWhite c); [exact IH|done].
Qed.

Lemma trimEnd_append a b :
  nonEmpty (trimEnd b) = true -> trimEnd (a +:+ b) = a +:+ trimEnd b.
Proof.
  intros Hb. induction a as [|c r IH]; simpl; [done|].
  rewrite IH, append_cons. pose proof (append_nonEmpty_r r _ Hb) as Hne.
  destruct (r +:+ trimEnd b) eqn:E; [by simpl in Hne|done].
Qed.

Lemma tidy_cleaned (l : list string) :
  Forall tidy (List.filter nonEmpty (map trim l)).
Proof.
  induction l as [|x r IH]; simpl; [constructor|].
  destruct (nonEmpty (trim x)) eqn:E; [|exact IH].
  constructor; [|exact IH]. split; [apply trim_idem|exact E].
Qed.

Lemma cleaned_tidy (l : list string) :
  Forall tidy l -> List.filter nonEmpty (map trim l) = l.
Proof.
  induction 1 as [|x r [Ht Hn] _ IH]; simpl; [done|].
  by rewrite Ht, Hn, IH.
Qed.

(** Joining tidy entries gives a string that [trim] leaves alone. *)
Lemma join_tidy sep (l : list string) :
  Forall tidy l -> l ≠ [] ->
  trimStart (join sep l) = join sep l
  ∧ trimEnd (join sep l) = join sep l
  ∧ nonEmpty (join sep l) = true.
Proof.
  induction 1 as [|x r [Ht Hn] Hr IH]; [done|]. intros _.
  destruct r as [|y r'].
  - simpl. auto using trim_fix_start, trim_fix_end.
  - destruct IH as (_ & IHe & IHn); [done|].
    change (join sep (x :: y :: r')) with (x +:+ sep +:+ join sep (y :: r')).
    set (rest := join sep (y :: r')) in *.
    split; [|split].
    + rewrite trimStart_append; rewrite (trim_fix_start x Ht); done.
    + assert (trimEnd (sep +:+ rest) = sep +:+ rest) as Hsr
        by (rewrite trimEnd_append; rewrite IHe; done).
      rewrite trimEnd_append; rewrite Hsr; [done|by apply append_nonEmpty_r].
    + by apply append_nonEmpty_l.
Qed.

Lemma trim_join_tidy sep (l : list string) :
  Forall tidy l -> l ≠ [] -> trim (join sep l) = join sep l.
Proof.
  intros Hl Hne. destruct (join_tidy sep l Hl Hne) as (Hs & He & _).
  unfold trim. by rewrite Hs.
Qed.

Lemma split_without sep s : includesChar sep s = false -> split sep s = [s].
Proof.
  induction s as [|c r IH]; simpl; [done|].
  destruct (Ascii.eqb c sep); simpl; [done|]. intros H. by rewrite IH.
Qed.

Lemma split_append sep a b :
  includesChar sep a = false ->
  split sep (a +:+ String sep b) = a :: split sep b.
Proof.
  induction a as [|c r IH]; simpl.
  - intros _. by rewrite Ascii.eqb_refl.
  - destruct (Ascii.eqb c sep); simpl; [done|]. intros H. by rewrite IH.
Qed.

(** [split] undoes [join] when no entry holds the separator. *)
Lemma split_join sep (l : list string) :
  l ≠ [] -> Forall (fun e => includesChar sep e = false) l ->
  split sep (join (String sep EmptyString) l) = l.
Proof.
  intros Hne Hl. induction Hl as [|x r Hx Hr IH]; [done|].
  destruct r as [|y r'].
  - simpl. by apply split_without.
  - change (join (String sep EmptyString) (x :: y :: r'))
      with (x +:+ String sep (join (String sep EmptyString) (y :: r'))).
    rewrite split_append by done. by rewrite IH.
Qed.

Lemma toLowerCase_nonEmpty s : nonEmpty (toLowerCase s) = nonEmpty s.
Proof. by destruct s. Qed.

End JSFacts.

(* ===================================================================== *)
(** ** Facts about first-seen deduplication *)
(* ===================================================================== *)

Module DedupFacts.
Import JS Spec JSFacts.

Section FirstSeen.
Variable key : string -> string.

(** Only membership in [seen] matters. *)
Lemma firstSeenBy_ext (l s1 s2 : list string) :
  (forall x, x ∈ s1 <-> x ∈ s2) ->
  firstSeenBy key s1 l = firstSeenBy key s2 l.
Proof.
  revert s1 s2. induction l as [|a r IH]; intros s1 s2 H; simpl; [done|].
  rewrite (bool_decide_ext _ _ (H (key a))).
  case_bool_decide.
  - by apply IH.
  - f_equal. apply IH. intros x. rewrite !elem_of_cons. by rewrite H.
Qed.

(** An entry whose key is already known can be dropped from the input. *)
Lemma firstSeenBy_skip (l1 l2 seen : list string) (a : string) :
  key a ∈ seen ∨ key a ∈ map key l1 ->
  firstSeenBy key seen (l1 ++ a :: l2) = firstSeenBy key seen (l1 ++ l2).
Proof.
  revert seen. induction l1 as [|x r IH]; intros seen H; simpl.
  - destruct H as [H|H]; [|by apply elem_of_nil in H].
    by rewrite bool_decide_true.
  - case_bool_decide as Hx.
    + apply IH. destruct H as [H|H]; [by left|].
      simpl in H. apply elem_of_cons in H as [->|H]; [by left|by right].
    + f_equal. apply IH. destruct H as [H|H].
      * left. by apply elem_of_cons; right.
      * simpl in H. apply elem_of_cons in H as [->|H]; [left|by right].
        by apply elem_of_cons; left.
Qed.

(** So can every entry that a membership test would have rejected. *)
Lemma firstSeenBy_filter (P : string -> bool) (B A C seen : list string) :
  (forall x, x ∈ B -> P x = false -> key x ∈ seen ∨ key x ∈ map key A) ->
  firstSeenBy key seen (A ++ List.filter P B ++ C)
  = firstSeenBy key seen (A ++ B ++ C).
Proof.
  revert A. induction B as [|b r IH]; intros A H; simpl; [done|].
  destruct (P b) eqn:Pb.
  - simpl.
    rewrite (cons_middle b A), (cons_middle b A (r ++ C)), !(assoc_L (++) A [b]).
    apply IH. intros x Hx Px.
    destruct (H x) as [Hs|Hs]; [by apply elem_of_cons; right|done|by left|].
    right. rewrite map_app. apply elem_of_app. by left.
  - rewrite IH.
    + symmetry. apply firstSeenBy_skip. apply H; [by apply elem_of_cons; left|done].
    + intros x Hx Px. apply H; [by apply elem_of_cons; right|done].
Qed.

(** Deduplicating the keys is deduplicating by key. *)
Lemma firstSeenBy_map (l seen : list string) :
  firstSeenBy (fun s => s) seen (map key l) = map key (firstSeenBy key seen l).
Proof.
  revert seen. induction l as [|a r IH]; intros seen; simpl; [done|].
  case_bool_decide; simpl; by rewrite IH.
Qed.

(** The result never holds two entries with one key, nor a key that was
    known beforehand. *)
Lemma firstSeenBy_fresh (l seen : list string) (x : string) :
  x ∈ firstSeenBy key seen l -> key x ∉ seen.
Proof.
  revert seen. induction l as [|a r IH]; intros seen; simpl.
  - by intros ?%elem_of_nil.
  - case_bool_decide as Ha; [by apply IH|].
    intros [->|Hx]%elem_of_cons; [done|].
    apply IH in Hx. intros Hin. apply Hx. by apply elem_of_cons; right.
Qed.

Lemma firstSeenBy_NoDup (l seen : list string) :
  NoDup (map key (firstSeenBy key seen l)).
Proof.
  revert seen. induction l as [|a r IH]; intros seen; simpl; [constructor|].
  case_bool_decide as Ha; [by apply IH|].
  simpl. constructor; [|by apply IH].
  intros (y & Hy & Hin)%list_elem_of_fmap.
  apply firstSeenBy_fresh in Hin. apply Hin. rewrite <- Hy.
  by apply elem_of_cons; left.
Qed.

(** Every key of the input that was not known beforehand survives. *)
Lemma firstSeenBy_complete (l seen : list string) (x : string) :
  x ∈ l -> key x ∈ seen ∨ key x ∈ map key (firstSeenBy key seen l).
Proof.
  revert seen. induction l as [|a r IH]; intros seen; simpl.
  - by intros ?%elem_of_nil.
  - intros [->|Hx]%elem_of_cons.
    + case_bool_decide as Ha; [by left|]. right. simpl. by apply elem_of_cons; left.
    + case_bool_decide as Ha; [by apply IH|].
      destruct (IH (key a :: seen) Hx) as [[->|H]%elem_of_cons|H].
      * right. simpl. by apply elem_of_cons; left.
      * by left.
      * right. simpl. by apply elem_of_cons; right.
Qed.

(** The survivors come from the input, in the input's order. *)
Lemma firstSeenBy_sublist (l seen : list string) :
  firstSeenBy key seen l `sublist_of` l.
Proof.
  revert seen. induction l as [|a r IH]; intros seen; simpl; [done|].
  case_bool_decide.
  - by apply sublist_cons.
  - by apply sublist_skip.
Qed.
End FirstSeen.

(** A [Set] filled from an array lists the array's first occurrences. *)
Lemma fold_Set_add (l acc : list string) :
  fold_left (fun s x => Set_add x s) l acc
  = acc ++ firstSeenBy (fun s => s) acc l.
Proof.
  revert acc. induction l as [|x r IH]; intros acc; simpl.
  - by rewrite app_nil_r.
  - rewrite IH. unfold Set_add. case_bool_decide as Hx; [done|].
    rewrite <- (assoc_L (++)). simpl. do 2 f_equal.
    apply firstSeenBy_ext. intros y.
    rewrite elem_of_app, !elem_of_cons, elem_of_nil. tauto.
Qed.

Lemma Array_from_Set_firstSeen (l : list string) :
  Array_from_Set l = firstSeenBy (fun s => s) [] l.
Proof. unfold Array_from_Set. by rewrite fold_Set_add. Qed.

(** The loop of [dedupLower], started in any state. *)
Lemma dedupLower_loop (l : list string) (seen : gset string)
    (known out : list string) :
  (forall x, x ∈ seen <-> x ∈ known) ->
  (fold_left Upload.dedupLower_step l (seen, out)).2
  = out ++ firstSeenBy toLowerCase known (List.filter nonEmpty (map trim l)).
Proof.
  revert seen known out.
  induction l as [|t r IH]; intros seen known out H; simpl.
  - by rewrite app_nil_r.
  - unfold Upload.dedupLower_step at 2. simpl.
    rewrite toLowerCase_nonEmpty.
    destruct (nonEmpty (trim t)) eqn:Ht; simpl; [|by apply IH].
    rewrite (bool_decide_ext _ _ (H (toLowerCase (trim t)))).
    case_bool_decide as Hk; [by apply IH|].
    rewrite (IH _ (toLowerCase (trim t) :: known)).
    + by rewrite <- (assoc_L (++)).
    + intros x. rewrite elem_of_union, elem_of_singleton, elem_of_cons, H. tauto.
Qed.

Lemma trim_nonEmpty s : nonEmpty (trim s) = true -> nonEmpty s = true.
Proof. by destruct s. Qed.

Lemma noBlank_filter (l : list string) :
  noBlank l -> List.filter nonEmpty l = l.
Proof.
  induction 1 as [|x r Hx _ IH]; simpl; [done|].
  by rewrite (trim_nonEmpty x Hx), IH.
Qed.

Lemma noBlank_filter_trim (l : list string) :
  noBlank l -> List.filter nonEmpty (map trim l) = map trim l.
Proof.
  induction 1 as [|x r Hx _ IH]; simpl; [done|]. by rewrite Hx, IH.
Qed.

Lemma noBlank_firstTruthy (l : list string) :
  noBlank l -> RemixTypes.firstTruthy l = take 1 l.
Proof.
  destruct 1 as [|x r Hx _]; simpl; [done|].
  rewrite (trim_nonEmpty x Hx). by rewrite take_0.
Qed.

Lemma noBlank_app (a b : list string) : noBlank a -> noBlank b -> noBlank (a ++ b).
Proof. apply Forall_app_2. Qed.

Lemma noBlank_take (n : nat) (a : list string) : noBlank a -> noBlank (take n a).
Proof. apply Forall_take. Qed.

Lemma flat_map_unlessPresent (sofar l : list string) :
  flat_map (unlessPresent sofar) l
  = List.filter (fun x => negb (bool_decide (x ∈ sofar))) l.
Proof.
  induction l as [|x r IH]; simpl; [done|].
  unfold unlessPresent at 1. case_bool_decide; simpl; by rewrite IH.
Qed.

(** The "not already present" tests of steps 2 to 4 change nothing that
    the final deduplication would not do anyway. *)
Lemma extractAnchors_flat (mustKeep objects vibe people : list string) :
  extractAnchors mustKeep objects vibe people
  = take 10 (firstSeenBy (fun s => s) []
               (map trim (mustKeep ++ take 5 objects ++ take 1 vibe ++ take 1 people))).
Proof.
  unfold extractAnchors. f_equal.
  rewrite !firstSeenBy_map. f_equal.
  rewrite !flat_map_unlessPresent.
  set (o5 := take 5 objects). set (v1 := take 1 vibe). set (p1 := take 1 people).
  set (P1 := fun o => negb (bool_decide (o ∈ mustKeep))).
  set (s2 := mustKeep ++ List.filter P1 o5).
  set (P2 := fun x => negb (bool_decide (x ∈ s2))).
  set (s3 := s2 ++ List.filter P2 v1).
  set (P3 := fun x => negb (bool_decide (x ∈ s3))).
  assert (forall (A B : list string) x,
            x ∈ B -> negb (bool_decide (x ∈ A)) = false ->
            trim x ∈ [] ∨ trim x ∈ map trim A) as Hin.
  { intros A B x _ Hx. right. apply negb_false_iff, bool_decide_eq_true in Hx.
    by apply list_elem_of_fmap_2. }
  rewrite <- (app_nil_r (List.filter P3 p1)).
  rewrite (firstSeenBy_filter trim P3 p1 s3 []) by apply Hin.
  rewrite app_nil_r. unfold s3. rewrite <- (assoc_L (++)).
  rewrite (firstSeenBy_filter trim P2 v1 s2 p1) by apply Hin.
  unfold s2. rewrite <- (assoc_L (++)).
  by rewrite (firstSeenBy_filter trim P1 o5 mustKeep (v1 ++ p1)) by apply Hin.
Qed.

End DedupFacts.

(* ===================================================================== *)
(** ** Anchors, the must-include clause and merged tags *)
(* ===================================================================== *)

Import JS RemixTypes Spec Examples JSFacts DedupFacts.

Lemma Forall_sublist_of {A} (P : A -> Prop) (l1 l2 : list A) :
  l1 `sublist_of` l2 -> Forall P l2 -> Forall P l1.
Proof.
  intros Hs Hl. apply Forall_forall. intros x Hx.
  rewrite Forall_forall in Hl. apply Hl. by eapply elem_of_sublist.
Qed.

Lemma firstSeen_NoDup (l : list string) : NoDup (firstSeenBy (fun s => s) [] l).
Proof. rewrite <- (map_id (firstSeenBy _ _ _)). apply firstSeenBy_NoDup. Qed.

Lemma uniq_firstSeen (l : list string) :
  Remix.uniq l
  = firstSeenBy (fun s => s) [] (List.filter nonEmpty (map trim l)).
Proof. unfold Remix.uniq. apply Array_from_Set_firstSeen. Qed.

Lemma legacy_uniq_firstSeen (l : list string) :
  LegacyRemix.uniq l
  = firstSeenBy (fun s => s) [] (map trim (List.filter nonEmpty l)).
Proof. unfold LegacyRemix.uniq. apply Array_from_Set_firstSeen. Qed.

Lemma dedupLower_firstSeen (l : list string) :
  Upload.dedupLower l
  = firstSeenBy toLowerCase [] (List.filter nonEmpty (map trim l)).
Proof.
  unfold Upload.dedupLower.
  rewrite (dedupLower_loop l ∅ [] []); [done|].
  intros x. rewrite elem_of_empty, elem_of_nil. tauto.
Qed.

(** C2. On a descriptor whose list fields hold no blank entry, both
    routes' [buildAnchors] compute the Anchor Extractor of the
    specification: all of mustKeep, then the first five objects, the first
    vibe and the first person where not already present, deduplicated
    case-sensitively by trimmed value in first-seen order and cut at ten;
    the result has at most ten entries and no duplicate, and on the lamp
    descriptor it is lamp, a, b, c, d, e, moody. *)
Theorem buildAnchors_extractAnchors (d : ParentDescriptor) :
  noBlank (orNoArray (must_keep d)) ->
  noBlank (orNoArray (objects d)) ->
  noBlank (orNoArray (vibe d)) ->
  noBlank (orNoArray (people d)) ->
  let spec := extractAnchors (orNoArray (must_keep d)) (orNoArray (objects d))
                (orNoArray (vibe d)) (orNoArray (people d)) in
  Remix.buildAnchors (Some d) = spec
  ∧ LegacyRemix.buildAnchors (Some d) = spec
  ∧ length spec <= 10
  ∧ NoDup spec
  ∧ Remix.buildAnchors (Some lampDescriptor)
    = ["lamp"; "a"; "b"; "c"; "d"; "e"; "moody"]
  ∧ LegacyRemix.buildAnchors (Some lampDescriptor)
    = ["lamp"; "a"; "b"; "c"; "d"; "e"; "moody"].
Proof.
  intros Hm Ho Hv Hp spec. subst spec. rewrite extractAnchors_flat.
  set (mk := orNoArray (must_keep d)) in *.
  set (ob := orNoArray (objects d)) in *.
  set (vb := orNoArray (vibe d)) in *.
  set (pp := orNoArray (people d)) in *.
  assert (noBlank (mk ++ take 5 ob ++ take 1 vb ++ take 1 pp)) as Hall
    by auto using noBlank_app, noBlank_take.
  split_and!.
  - unfold Remix.buildAnchors, slice0. simpl. fold mk ob vb pp.
    rewrite uniq_firstSeen, !noBlank_firstTruthy by done.
    by rewrite noBlank_filter_trim.
  - unfold LegacyRemix.buildAnchors, slice0. simpl. fold mk ob vb pp.
    rewrite legacy_uniq_firstSeen, !noBlank_firstTruthy by done.
    by rewrite noBlank_filter.
  - rewrite length_take. lia.
  - eapply sublist_NoDup; [apply firstSeen_NoDup|apply sublist_take].
  - vm_compute. reflexivity.
  - vm_compute. reflexivity.
Qed.

Lemma buildAnchors_extractAnchors_witness :
  Remix.buildAnchors (Some lampDescriptor)
  = extractAnchors ["lamp"] ["a"; "b"; "c"; "d"; "e"; "f"] ["moody"] []
  ∧ extractAnchors ["lamp"] ["a"; "b"; "c"; "d"; "e"; "f"] ["moody"] []
    = ["lamp"; "a"; "b"; "c"; "d"; "e"; "moody"].
Proof.
  split; [|vm_compute; reflexivity].
  refine (proj1 (buildAnchors_extractAnchors lampDescriptor _ _ _ _));
    unfold noBlank; simpl; repeat constructor.
Defined.

(** C7, as the code has it.  The must-include clause goes through [uniq],
    which trims, drops empties and keeps the first occurrence of every
    exact string: it is the Tag Merger's rule with the identity in the
    place of [toLowerCase], so entries that differ only in case are both
    kept.  (The legacy route drops the empties before it trims.) *)
Theorem uniq_dedups_case_sensitively (l : list string) :
  Remix.uniq l
  = firstSeenBy (fun s => s) [] (List.filter nonEmpty (map trim l))
  ∧ LegacyRemix.uniq l
    = firstSeenBy (fun s => s) [] (map trim (List.filter nonEmpty l))
  ∧ Upload.dedupLower l
    = firstSeenBy toLowerCase [] (List.filter nonEmpty (map trim l))
  ∧ NoDup (Remix.uniq l)
  ∧ NoDup (LegacyRemix.uniq l)
  ∧ Forall tidy (Remix.uniq l)
  ∧ (forall x, x ∈ l -> nonEmpty (trim x) = true -> trim x ∈ Remix.uniq l).
Proof.
  rewrite uniq_firstSeen, legacy_uniq_firstSeen, dedupLower_firstSeen.
  split_and!; try reflexivity.
  - apply firstSeen_NoDup.
  - apply firstSeen_NoDup.
  - eapply Forall_sublist_of; [apply firstSeenBy_sublist|apply tidy_cleaned].
  - intros x Hx Hne.
    destruct (firstSeenBy_complete (fun s => s) (List.filter nonEmpty (map trim l))
                [] (trim x)) as [H|H].
    + apply list_elem_of_In, filter_In. split; [|done].
      by apply list_elem_of_In, list_elem_of_fmap_2.
    + by apply elem_of_nil in H.
    + by rewrite map_id in H.
Qed.

(** C7, refuted as stated: [uniq] keeps both Cat and cat, [dedupLower]
    keeps one, and the rendered clause reads "Cat, cat". *)
Lemma uniq_is_not_dedupLower :
  Remix.uniq ["Cat"; "cat"] = ["Cat"; "cat"]
  ∧ Upload.dedupLower ["Cat"; "cat"] = ["Cat"]
  ∧ Remix.uniq ["Cat"; "cat"] ≠ Upload.dedupLower ["Cat"; "cat"]
  ∧ Remix.finalPrompt
      {| scene := Some "S"; plan_subject := Some "U"; plan_setting := Some "T";
         plan_composition := Some "C"; plan_medium := Some "M";
         plan_realism := Some "R"; plan_lighting := Some "L";
         plan_palette := Some "P"; style_notes := Some "";
         must_include := Some ["Cat"; "cat"]; avoid := Some [];
         remix_directive := Some "" |} 1
    = Some ("S. U. T. " +:+ Remix.HIGH
            +:+ " Composition: C. Medium: M, realism: R. Lighting: L. Palette: P."
            +:+ " Must include (integrated naturally): Cat, cat."
            +:+ " No text, no watermark, no UI, no logos, no signatures."
            +:+ " Square image.").
Proof. split_and!; try (vm_compute; reflexivity). vm_compute. discriminate. Qed.

(** C8. The upload route's [mergedTags] is the Tag Merger at cap 40 over
    its five sources in argument order, and so is [dedupLower] followed by
    a cut for any lists and any cap: entries trimmed, empties dropped,
    one entry per lower-cased value in its first-seen casing, order kept.
    Merging Cat, cat, Dog with dog, Bird gives Cat, Dog, Bird. *)
Theorem mergedTags_is_mergeTags (lists : list (list string)) (cap : nat)
    (ai : Upload.AiLists) (tags : string) :
  slice0 cap (Upload.dedupLower (concat lists)) = mergeTags lists cap
  ∧ Upload.mergedTags ai tags = mergeTags (Upload.tagSources ai tags) 40
  ∧ length (mergeTags lists cap) <= cap
  ∧ NoDup (map toLowerCase (mergeTags lists cap))
  ∧ Forall tidy (mergeTags lists cap)
  ∧ mergeTags lists cap `sublist_of` List.filter nonEmpty (map trim (concat lists))
  ∧ mergeTags [["Cat"; "cat"; "Dog"]; ["dog"; "Bird"]] 40 = ["Cat"; "Dog"; "Bird"]
  ∧ Upload.mergedTags
      {| Upload.ai_tags := Some ["Cat"; "cat"; "Dog"];
         Upload.ai_vibe := Some ["dog"; "Bird"];
         Upload.ai_objects := None; Upload.ai_must_keep := None |} ""
    = ["Cat"; "Dog"; "Bird"].
Proof.
  assert (mergeTags lists cap
          `sublist_of` List.filter nonEmpty (map trim (concat lists))) as Hsub.
  { unfold mergeTags. etrans; [apply sublist_take|apply firstSeenBy_sublist]. }
  split_and!.
  - unfold slice0, mergeTags. by rewrite dedupLower_firstSeen.
  - unfold Upload.mergedTags, slice0, mergeTags. by rewrite dedupLower_firstSeen.
  - unfold mergeTags. rewrite length_take. lia.
  - unfold mergeTags.
    eapply sublist_NoDup; [apply firstSeenBy_NoDup|].
    apply (fmap_sublist toLowerCase), sublist_take.
  - eapply Forall_sublist_of; [exact Hsub|apply tidy_cleaned].
  - exact Hsub.
  - vm_compute. reflexivity.
  - vm_compute. reflexivity.
Qed.

(* ===================================================================== *)
(** ** Field resolution and list coercion *)
(* ===================================================================== *)

Section RecentFacts.
Variable Number_toString : float -> string.
Variable JSON_parse : string -> option value.

Local Abbreviation pick := (Recent.pick Number_toString).
Local Abbreviation usable := (Recent.usable Number_toString).
Local Abbreviation resolve := (Recent.resolve Number_toString).
Local Abbreviation csvToArr := (Recent.csvToArr Number_toString JSON_parse).

Lemma usable_defined (v : value) :
  usable v = true ->
  v ≠ VUndefined ∧ v ≠ VNull
  ∧ nonEmpty (trim (toString Number_toString v)) = true.
Proof. by destruct v. Qed.

Lemma get_usable (obj : gmap string value) (k : string) :
  Recent.Object_prototype k = VUndefined ->
  usable (Recent.get obj k) = true -> obj !! k = Some (Recent.get obj k).
Proof. unfold Recent.get. intros ->. by destruct (obj !! k). Qed.

(** What [pick] returns: [null], or the value found under the first key
    whose value is usable. *)
Lemma pick_first (obj : gmap string value) (keys : list string) :
  (pick obj keys = VNull
   ∧ Forall (fun k => usable (Recent.get obj k) = false) keys)
  ∨ (exists before k after,
       keys = before ++ k :: after
       ∧ Forall (fun k' => usable (Recent.get obj k') = false) before
       ∧ Recent.get obj k = pick obj keys
       ∧ usable (pick obj keys) = true).
Proof.
  induction keys as [|k ks IH]; simpl; [by left|].
  destruct (usable (Recent.get obj k)) eqn:U.
  - right. exists [], k, ks. by auto.
  - destruct IH as [[-> Hall]|(before & k' & after & -> & Hb & Hk & Hu)].
    + left. by split; [|constructor].
    + right. exists (k :: before), k', after. by split_and!; [|constructor|..].
Qed.

(** Under keys that name nothing inherited, the value found is one the
    container stores. *)
Lemma pick_stored (obj : gmap string value) (keys : list string) :
  Forall (fun k => Recent.Object_prototype k = VUndefined) keys ->
  (pick obj keys = VNull
   ∧ Forall (fun k => usable (Recent.get obj k) = false) keys)
  ∨ (exists before k after,
       keys = before ++ k :: after
       ∧ Forall (fun k' => usable (Recent.get obj k') = false) before
       ∧ obj !! k = Some (pick obj keys)
       ∧ usable (pick obj keys) = true).
Proof.
  intros Hown.
  destruct (pick_first obj keys) as [?|(b & k & a & Hk & Hb & Hv & Hu)]; [by left|].
  right. exists b, k, a. split_and!; try done.
  rewrite <- Hv. apply get_usable; [|by rewrite Hv].
  rewrite Forall_forall in Hown. apply Hown. rewrite Hk.
  apply elem_of_app. right. apply list_elem_of_here.
Qed.

Lemma csvToArr_tidy (v : value) : Forall tidy (csvToArr v).
Proof.
  unfold Recent.csvToArr. cbv zeta.
  repeat match goal with
         | |- Forall tidy [] => constructor
         | |- Forall tidy (Recent.cleaned _ _) => apply tidy_cleaned
         | |- Forall tidy (List.filter _ _) => apply tidy_cleaned
         | |- Forall tidy (if ?b then _ else _) => destruct b
         | |- Forall tidy (match ?x with _ => _ end) => destruct x
         end.
Qed.

(** Coercing a comma-joined list of tidy, comma-free entries that is not
    read back as a JSON array gives the list again. *)
Lemma csvToArr_join (l : list string) :
  Forall tidy l ->
  Forall (fun e => includesChar "," e = false) l ->
  (forall a, Recent.bracketed (join "," l) = true ->
             JSON_parse (join "," l) ≠ Some (VArr a)) ->
  csvToArr (VStr (join "," l)) = l.
Proof.
  intros Ht Hc Hj. destruct (decide (l = [])) as [->|Hne]; [done|].
  destruct (join_tidy "," l Ht Hne) as (_ & _ & Hn).
  unfold Recent.csvToArr. simpl.
  rewrite Hn, (trim_join_tidy "," l Ht Hne), Hn. simpl.
  assert (List.filter nonEmpty (map trim (split "," (join "," l))) = l) as Hs.
  { rewrite split_join by done. by apply cleaned_tidy. }
  rewrite Hs. destruct (Recent.bracketed (join "," l)) eqn:B; [|done].
  destruct (JSON_parse (join "," l)) as [[]|] eqn:P; try done.
  by destruct (Hj l0).
Qed.
End RecentFacts.



(** C4, as the code has it.  Coercing the comma-joined rendering of a
    coerced list gives the same list whenever no entry of it contains a
    comma and the joined text is not itself read back as a JSON array. *)
Theorem csvToArr_idempotent_on_comma_free (Number_toString : float -> string)
    (JSON_parse : string -> option value) (x : value) :
  let l := Recent.csvToArr Number_toString JSON_parse x in
  Forall (fun e => includesChar "," e = false) l ->
  (forall a, Recent.bracketed (join "," l) = true ->
             JSON_parse (join "," l) ≠ Some (VArr a)) ->
  Recent.csvToArr Number_toString JSON_parse (VStr (join "," l)) = l.
Proof. intros l Hc Hj. apply csvToArr_join; [apply csvToArr_tidy|done..]. Qed.

Lemma csvToArr_idempotent_on_comma_free_witness :
  Recent.csvToArr (fun _ => "") (fun _ => None)
    (VStr (join "," (Recent.csvToArr (fun _ => "") (fun _ => None) (VStr "a, b, ,c"))))
  = ["a"; "b"; "c"].
Proof.
  refine (csvToArr_idempotent_on_comma_free (fun _ => "") (fun _ => None)
            (VStr "a, b, ,c") _ _).
  - vm_compute. repeat constructor.
  - intros a _. discriminate.
Defined.

(** C4, refuted as stated: an array entry that holds a comma is split
    when the joined rendering is coerced again. *)
Lemma csvToArr_not_idempotent :
  (forall Number_toString JSON_parse,
     Recent.csvToArr Number_toString JSON_parse (VArr [VStr "a,b"]) = ["a,b"])
  ∧ join "," ["a,b"] = "a,b"
  ∧ (forall Number_toString JSON_parse,
       Recent.csvToArr Number_toString JSON_parse (VStr "a,b") = ["a"; "b"]).
Proof. split_and!; intros; vm_compute; reflexivity. Qed.

(** The other way to lose the round trip: an entry that reads as a JSON
    array once it stands alone. *)
Lemma csvToArr_reads_entry_as_json (Number_toString : float -> string)
    (JSON_parse : string -> option value) :
  JSON_parse "[1]" = Some (VArr [VNum 1]) ->
  Number_toString 1%float = "1" ->
  Recent.csvToArr Number_toString JSON_parse (VArr [VStr "[1]"]) = ["[1]"]
  ∧ Recent.csvToArr Number_toString JSON_parse (VStr (join "," ["[1]"])) = ["1"].
Proof.
  intros Hp Hn. split; [vm_compute; reflexivity|].
  unfold Recent.csvToArr. simpl.
  change (trim "[1]") with "[1]". simpl.
  change (Recent.bracketed "[1]") with true. simpl.
  rewrite Hp. unfold Recent.cleaned. simpl. by rewrite Hn.
Qed.

(* ===================================================================== *)
(** ** Running handlers *)
(* ===================================================================== *)

Module EffectFacts.
Import Effect.

Section Run.
Context {E : Type -> Type} (w : world E).

Lemma run_bind {A B} (m : io E A) (f : A -> io E B) :
  run w (bind m f)
  = match (run w m).2 with
    | Some a => ((run w m).1 ++ (run w (f a)).1, (run w (f a)).2)
    | None => ((run w m).1, None)
    end.
Proof.
  induction m as [a| |R c k IH]; simpl.
  - by destruct (run w (f a)).
  - done.
  - rewrite IH. by destruct (run w (k (w R c))).2.
Qed.

Lemma run_try_catch {A} (m h : io E A) :
  run w (try_catch m h)
  = match (run w m).2 with
    | Some a => ((run w m).1, Some a)
    | None => ((run w m).1 ++ (run w h).1, (run w h).2)
    end.
Proof.
  induction m as [a| |R c k IH]; simpl.
  - done.
  - by destruct (run w h).
  - rewrite IH. by destruct (run w (k (w R c))).2.
Qed.

Lemma run_await {A} (c : E (outcome A)) :
  run w (await c)
  = ([Called c],
     match w _ c with Resolved a => Some a | Rejected => None end).
Proof. unfold await. simpl. by destruct (w _ c). Qed.

Lemma run_start_all {A} (cs : list (E (outcome A))) :
  run w (start_all cs) = (map Called cs, Some (map (w _) cs)).
Proof.
  induction cs as [|c r IH]; simpl; [done|].
  rewrite run_bind, IH. simpl. by rewrite app_nil_r.
Qed.

Lemma result_bind {A B} (m : io E A) (f : A -> io E B) :
  (run w (bind m f)).2
  = match (run w m).2 with
    | Some a => (run w (f a)).2
    | None => None
    end.
Proof. rewrite run_bind. by destruct (run w m).2. Qed.

Lemma result_try_catch {A} (m h : io E A) :
  (run w (try_catch m h)).2
  = match (run w m).2 with
    | Some a => Some a
    | None => (run w h).2
    end.
Proof. rewrite run_try_catch. by destruct (run w m).2. Qed.

Lemma result_await {A} (c : E (outcome A)) :
  (run w (await c)).2
  = match w _ c with Resolved a => Some a | Rejected => None end.
Proof. by rewrite run_await. Qed.

Lemma trace_bind {A B} (m : io E A) (f : A -> io E B) :
  (run w (bind m f)).1
  = (run w m).1 ++ match (run w m).2 with
                   | Some a => (run w (f a)).1
                   | None => []
                   end.
Proof. rewrite run_bind. destruct (run w m).2; simpl; by rewrite ?app_nil_r. Qed.

Lemma trace_try_catch {A} (m h : io E A) :
  (run w (try_catch m h)).1
  = (run w m).1 ++ match (run w m).2 with
                   | Some a => []
                   | None => (run w h).1
                   end.
Proof. rewrite run_try_catch. destruct (run w m).2; simpl; by rewrite ?app_nil_r. Qed.

(** Every call of a [Promise.all] is made, whatever the others do. *)
Lemma run_Promise_all {A} (cs : list (E (outcome A))) :
  run w (Promise_all cs) = (map Called cs, all_resolved (map (w _) cs)).
Proof.
  unfold Promise_all. rewrite run_bind, run_start_all. simpl.
  destruct (all_resolved _); simpl; by rewrite app_nil_r.
Qed.
End Run.

End EffectFacts.

(* ===================================================================== *)
(** ** The parents check *)
(* ===================================================================== *)

Import Effect EffectFacts.

Lemma atLeastTwo_fewer (f : arrayField RemixParent) :
  fewerThanTwo f -> LegacyRemix.atLeastTwo f = None.
Proof.
  unfold fewerThanTwo, LegacyRemix.atLeastTwo. intros H.
  destruct (asArray f) as [l|]; [|done].
  specialize (H l eq_refl). destruct (Nat.leb_spec 2 (length l)); [lia|done].
Qed.

Lemma length_normalized_fabricated (body : LegacyRemix.Body) :
  fewerThanTwo (LegacyRemix.parents body) ->
  LegacyRemix.normalizedParents body
  = imap (LegacyRemix.fabricate (LegacyRemix.parentIds body))
         (default [] (LegacyRemix.descriptions body)).
Proof.
  intros H. unfold LegacyRemix.normalizedParents. by rewrite atLeastTwo_fewer.
Qed.

(** The legacy handler, once at least two parents are there. *)
Lemma legacy_POST_proceeds (body : LegacyRemix.Body) :
  2 <= length (LegacyRemix.normalizedParents body) ->
  LegacyRemix.POST body
  = let strength := LegacyRemix.clamp (default 0.7%float (LegacyRemix.remixStrength body)) in
    let normalized := LegacyRemix.normalizedParents body in
    try_catch
      (c ← await (LegacyRemix.ChatCompletion
                    (LegacyRemix.planRequest body normalized strength));
       LegacyRemix.generate body normalized strength c)
      (Ret LegacyRemix.failed).
Proof.
  intros H. unfold LegacyRemix.POST. cbv zeta.
  destruct (Nat.ltb_spec (length (LegacyRemix.normalizedParents body)) 2); [lia|done].
Qed.

Lemma legacy_POST_rejects (body : LegacyRemix.Body) :
  length (LegacyRemix.normalizedParents body) < 2 ->
  LegacyRemix.POST body = Ret LegacyRemix.badRequest.
Proof.
  intros H. unfold LegacyRemix.POST. cbv zeta.
  destruct (Nat.ltb_spec (length (LegacyRemix.normalizedParents body)) 2); [done|lia].
Qed.

(** Whatever the world answers, a legacy request that got past the check
    ends in 200 or in the generic 500. *)
Lemma legacy_POST_result (w : world LegacyRemix.call) (body : LegacyRemix.Body) :
  2 <= length (LegacyRemix.normalizedParents body) ->
  (run w (LegacyRemix.POST body)).2 = Some LegacyRemix.failed
  ∨ exists prompt plan image urls,
      (run w (LegacyRemix.POST body)).2
      = Some {| LegacyRemix.status := 200;
                LegacyRemix.json := LegacyRemix.RemixJson prompt plan image urls |}.
Proof.
  intros H. rewrite legacy_POST_proceeds by done. cbv zeta.
  rewrite result_try_catch. simpl.
  destruct (w _ _) as [|c]; simpl; [by left|].
  unfold LegacyRemix.generate. destruct (parsePlan c) as [plan|]; simpl; [|by left].
  destruct (w _ _) as [|image]; simpl; [by left|]. right. by eauto.
Qed.

(** C6, as the code has it.  The first route rejects a request whose
    [parents] is not a list of at least two entries with status 400, and
    makes no call before it does.  The legacy route does the same when,
    besides, fewer than two [descriptions] came with the request. *)
Theorem too_few_parents_rejected_first
    (body : Remix.Body) (legacy : LegacyRemix.Body)
    (w : world Remix.call) (w' : world LegacyRemix.call) :
  fewerThanTwo (Remix.parents body) ->
  fewerThanTwo (LegacyRemix.parents legacy) ->
  length (default [] (LegacyRemix.descriptions legacy)) < 2 ->
  Remix.POST body = Ret Remix.badRequest
  ∧ run w (Remix.POST body) = ([], Some Remix.badRequest)
  ∧ Remix.status Remix.badRequest = 400
  ∧ LegacyRemix.POST legacy = Ret LegacyRemix.badRequest
  ∧ run w' (LegacyRemix.POST legacy) = ([], Some LegacyRemix.badRequest)
  ∧ LegacyRemix.status LegacyRemix.badRequest = 400.
Proof.
  intros Hb Hl Hd.
  assert (Remix.POST body = Ret Remix.badRequest) as H1.
  { unfold Remix.POST. unfold fewerThanTwo in Hb.
    destruct (asArray (Remix.parents body)) as [ps|]; [|done].
    specialize (Hb ps eq_refl).
    destruct (Nat.ltb_spec (length ps) 2); [done|lia]. }
  assert (LegacyRemix.POST legacy = Ret LegacyRemix.badRequest) as H2.
  { apply legacy_POST_rejects.
    rewrite length_normalized_fabricated by done. by rewrite length_imap. }
  rewrite H1, H2. by split_and!.
Qed.

Lemma too_few_parents_rejected_first_witness :
  run silentWorld
    (Remix.POST (remixBody (Array [parentAt "https://img.example/1.png"])))
  = ([], Some Remix.badRequest)
  ∧ run silentLegacyWorld
      (LegacyRemix.POST
         (legacyBody (Array [parentAt "https://img.example/1.png"])
                     (Some ["a cat"]) None))
    = ([], Some LegacyRemix.badRequest).
Proof.
  destruct (too_few_parents_rejected_first
              (remixBody (Array [parentAt "https://img.example/1.png"]))
              (legacyBody (Array [parentAt "https://img.example/1.png"])
                          (Some ["a cat"]) None) silentWorld silentLegacyWorld)
    as (_ & H1 & _ & _ & H2 & _).
  - intros l [= <-]. simpl. lia.
  - intros l [= <-]. simpl. lia.
  - simpl. lia.
  - by split.
Defined.

(** C6, refuted as stated: the legacy route lets a request with one
    parent through when two descriptions come with it; its first act is
    the completion call. *)
Lemma legacy_accepts_one_parent :
  fewerThanTwo (LegacyRemix.parents oneParentTwoDescriptions)
  ∧ LegacyRemix.POST oneParentTwoDescriptions ≠ Ret LegacyRemix.badRequest
  ∧ firstCall (LegacyRemix.POST oneParentTwoDescriptions)
    = Some (Called (LegacyRemix.ChatCompletion
                      (LegacyRemix.planRequest oneParentTwoDescriptions
                         [LegacyRemix.fabricate (Some ["id-1"]) 0 "a cat";
                          LegacyRemix.fabricate (Some ["id-1"]) 1 "a dog"]
                         0.7%float)))
  ∧ (run silentLegacyWorld (LegacyRemix.POST oneParentTwoDescriptions)).2
    = Some LegacyRemix.failed.
Proof.
  split_and!.
  - intros l [= <-]. simpl. lia.
  - discriminate.
  - vm_compute. reflexivity.
  - vm_compute. reflexivity.
Qed.

(** C10.  In the legacy route a request whose [parents] is not a list of
    at least two entries gets one fabricated parent per description, with
    the locator taken from [parentIds] at the same index (or empty) and a
    descriptor holding only the description.  The 400 rejection is
    returned exactly when this normalized list has fewer than two
    entries; with two or more descriptions the handler goes on to the
    completion call. *)
Theorem legacy_rejects_on_normalized_parents
    (body : LegacyRemix.Body) (w : world LegacyRemix.call) :
  fewerThanTwo (LegacyRemix.parents body) ->
  let descriptions := default [] (LegacyRemix.descriptions body) in
  let normalized := LegacyRemix.normalizedParents body in
  length normalized = length descriptions
  ∧ (forall i d,
       descriptions !! i = Some d ->
       exists p,
         normalized !! i = Some p
         ∧ url p = default "" (LegacyRemix.parentIds body ≫= (fun ids => ids !! i))
         ∧ descriptor p
           = Some {| title := None; description := Some d; subject := None;
                     setting := None; medium := None; realism := None;
                     lighting := None; palette := None; composition := None;
                     style := None; vibe := None; objects := None;
                     people := None; trend := None; feeling := None;
                     must_keep := None |})
  ∧ (LegacyRemix.POST body = Ret LegacyRemix.badRequest <-> length normalized < 2)
  ∧ ((run w (LegacyRemix.POST body)).2 = Some LegacyRemix.badRequest
     <-> length normalized < 2)
  ∧ (2 <= length descriptions ->
     firstCall (LegacyRemix.POST body)
     = Some (Called (LegacyRemix.ChatCompletion
                       (LegacyRemix.planRequest body normalized
                          (LegacyRemix.clamp
                             (default 0.7%float (LegacyRemix.remixStrength body))))))).
Proof.
  intros Hf descriptions normalized.
  assert (normalized = imap (LegacyRemix.fabricate (LegacyRemix.parentIds body))
                            descriptions) as Hn
    by by apply length_normalized_fabricated.
  assert (length normalized = length descriptions) as Hlen
    by by rewrite Hn, length_imap.
  split_and!.
  - exact Hlen.
  - intros i d Hd. exists (LegacyRemix.fabricate (LegacyRemix.parentIds body) i d).
    split; [|done]. by rewrite Hn, list_lookup_imap, Hd.
  - split; [|apply legacy_POST_rejects].
    intros HP. destruct (decide (length normalized < 2)) as [|Hge]; [done|].
    rewrite legacy_POST_proceeds in HP by (fold normalized; lia). discriminate.
  - split.
    + intros HP. destruct (decide (length normalized < 2)) as [|Hge]; [done|].
      destruct (legacy_POST_result w body) as [H|(? & ? & ? & ? & H)];
        [fold normalized; lia|rewrite H in HP; discriminate..].
    + intros H. by rewrite legacy_POST_rejects.
  - intros Hd. rewrite legacy_POST_proceeds by (fold normalized; lia). done.
Qed.

Lemma legacy_rejects_on_normalized_parents_witness :
  length (LegacyRemix.normalizedParents oneParentTwoDescriptions) = 2
  ∧ ((run silentLegacyWorld (LegacyRemix.POST oneParentTwoDescriptions)).2
     = Some LegacyRemix.badRequest
     <-> length (LegacyRemix.normalizedParents oneParentTwoDescriptions) < 2).
Proof.
  destruct (legacy_rejects_on_normalized_parents oneParentTwoDescriptions
              silentLegacyWorld) as (H1 & _ & _ & H2 & _).
  - intros l [= <-]. simpl. lia.
  - split; [exact H1|exact H2].
Defined.

(* ===================================================================== *)
(** ** How many parents reach the plan *)
(* ===================================================================== *)

Lemma planRequests_urlToFile (name : nat -> RemixParent -> string)
    (l : list RemixParent) :
  planRequests (map Called (imap (fun i p => Remix.UrlToFile (url p) (name i p)) l))
  = [].
Proof.
  revert name. induction l as [|p r IH]; intros name; [done|].
  apply (IH (fun i => name (S i))).
Qed.

Lemma downloaded_urlToFile (name : nat -> RemixParent -> string)
    (l : list RemixParent) :
  downloaded (map Called (imap (fun i p => Remix.UrlToFile (url p) (name i p)) l))
  = map url l.
Proof.
  revert name. induction l as [|p r IH]; intros name; [done|].
  unfold downloaded. simpl. f_equal. apply (IH (fun i => name (S i))).
Qed.

Lemma planRequests_downloads (ps : list RemixParent) :
  planRequests (map Called (Remix.downloads ps)) = [].
Proof. apply planRequests_urlToFile. Qed.

Lemma downloaded_downloads (ps : list RemixParent) :
  downloaded (map Called (Remix.downloads ps)) = map url (take 16 ps).
Proof. apply downloaded_urlToFile. Qed.

Lemma generate_trace (w : world Remix.call) (body : Remix.Body)
    (ps : list RemixParent) (strength : float) (files : list Remix.File)
    (c : Completion) :
  planRequests (run w (Remix.generate body ps strength files c)).1 = []
  ∧ downloaded (run w (Remix.generate body ps strength files c)).1 = [].
Proof.
  unfold Remix.generate.
  destruct (parsePlan c) as [plan|]; [|done].
  destruct (Remix.finalPrompt plan strength) as [prompt|]; [|done].
  simpl. destruct (w _ _) as [|res]; simpl; [done|].
  destruct (Remix.res_ok res); simpl; [|done].
  destruct (Remix.b64_json res) as [[|a b]|]; simpl; try done.
  by destruct (w _ _).
Qed.

(** The calls of the first route, once the parents check is passed: all
    the downloads, then at most one completion request. *)
Lemma remix_POST_trace (w : world Remix.call) (body : Remix.Body)
    (ps : list RemixParent) :
  asArray (Remix.parents body) = Some ps ->
  2 <= length ps ->
  let rq := Remix.planRequest body ps
              (Remix.clamp (default 0.65%float (Remix.remixStrength body))) in
  downloaded (run w (Remix.POST body)).1 = map url (take 16 ps)
  ∧ (planRequests (run w (Remix.POST body)).1 = []
     ∨ planRequests (run w (Remix.POST body)).1 = [rq]).
Proof.
  intros Hps Hlen rq. unfold Remix.POST. rewrite Hps.
  destruct (Nat.ltb_spec (length ps) 2) as [|_]; [lia|]. cbv zeta.
  unfold mbind, io_bind.
  rewrite trace_try_catch, trace_bind, run_Promise_all.
  cbn [fst snd run app]. fold rq.
  replace (match (run w (bind (Promise_all (Remix.downloads ps)) _)).2 with
           | Some _ => [] | None => [] end) with (@nil (event Remix.call))
    by by destruct (run w _).2.
  rewrite app_nil_r.
  unfold planRequests, downloaded. rewrite !omap_app.
  fold (planRequests (map Called (Remix.downloads ps))).
  fold (downloaded (map Called (Remix.downloads ps))).
  rewrite planRequests_downloads, downloaded_downloads.
  destruct (all_resolved _) as [files|]; [|by rewrite app_nil_r; auto].
  rewrite trace_bind, run_await. cbn [fst snd].
  rewrite !omap_app. simpl.
  destruct (w _ (Remix.ChatCompletion rq)) as [|c]; simpl.
  - rewrite app_nil_r. auto.
  - destruct (generate_trace w body ps
                (Remix.clamp (default 0.65%float (Remix.remixStrength body)))
                files c) as [Hp Hd].
    unfold planRequests, downloaded in Hp, Hd. rewrite Hp, Hd, app_nil_r. auto.
Qed.

Lemma legacy_POST_trace (w : world LegacyRemix.call) (body : LegacyRemix.Body) :
  let rq := LegacyRemix.planRequest body (LegacyRemix.normalizedParents body)
              (LegacyRemix.clamp (default 0.7%float (LegacyRemix.remixStrength body))) in
  legacyPlanRequests (run w (LegacyRemix.POST body)).1 = []
  ∨ legacyPlanRequests (run w (LegacyRemix.POST body)).1 = [rq].
Proof.
  intros rq.
  destruct (decide (length (LegacyRemix.normalizedParents body) < 2)) as [Hlt|Hge].
  - left. by rewrite legacy_POST_rejects.
  - right. rewrite legacy_POST_proceeds by lia. cbv zeta. fold rq.
    unfold mbind, io_bind. rewrite trace_try_catch, trace_bind, run_await.
    cbn [fst snd run app].
    replace (match (run w (bind (await (LegacyRemix.ChatCompletion rq)) _)).2 with
             | Some _ => [] | None => [] end)
      with (@nil (event LegacyRemix.call)) by by destruct (run w _).2.
    rewrite app_nil_r. unfold legacyPlanRequests. simpl. f_equal.
    destruct (w _ (LegacyRemix.ChatCompletion rq)) as [|c]; [done|].
    unfold LegacyRemix.generate. destruct (parsePlan c) as [plan|]; [|done].
    simpl. by destruct (w _ _).
Qed.

Lemma summaries_lookup {A B} (summary : nat -> A -> B) (cap : nat) (ps : list A) :
  length (imap summary (take cap ps)) = min cap (length ps)
  ∧ (forall i, i < cap -> imap summary (take cap ps) !! i = summary i <$> ps !! i)
  ∧ (forall i, cap <= i -> imap summary (take cap ps) !! i = None).
Proof.
  split_and!.
  - by rewrite length_imap, length_take.
  - intros i Hi. by rewrite list_lookup_imap, lookup_take_lt.
  - intros i Hi. by rewrite list_lookup_imap, lookup_take_ge.
Qed.

(** C9, as the code has it.  The first route downloads and summarises
    the first 16 parents, in request order, and whatever completion
    request it sends carries exactly these summaries; the legacy route
    does the same with the first 10 of its normalized parents. *)
Theorem parents_beyond_the_cap_dropped
    (body : Remix.Body) (ps : list RemixParent) (w : world Remix.call)
    (legacy : LegacyRemix.Body) (w' : world LegacyRemix.call) :
  asArray (Remix.parents body) = Some ps ->
  2 <= length ps ->
  let summaries := Remix.parentSummaries ps in
  let normalized := LegacyRemix.normalizedParents legacy in
  let legacySummaries := LegacyRemix.parentSummaries normalized in
  length summaries = min 16 (length ps)
  ∧ (forall i, i < 16 -> summaries !! i = Remix.summary i <$> ps !! i)
  ∧ (forall i, 16 <= i -> summaries !! i = None)
  ∧ map Remix.ps_url summaries = take 16 (map url ps)
  ∧ downloaded (run w (Remix.POST body)).1 = take 16 (map url ps)
  ∧ (forall rq, rq ∈ planRequests (run w (Remix.POST body)).1 ->
                Remix.rq_parentSummaries rq = summaries)
  ∧ length legacySummaries = min 10 (length normalized)
  ∧ (forall i, i < 10 ->
               legacySummaries !! i = LegacyRemix.summary i <$> normalized !! i)
  ∧ (forall i, 10 <= i -> legacySummaries !! i = None)
  ∧ (forall rq, rq ∈ legacyPlanRequests (run w' (LegacyRemix.POST legacy)).1 ->
                LegacyRemix.rq_parentSummaries rq = legacySummaries).
Proof.
  intros Hps Hlen summaries normalized legacySummaries.
  destruct (summaries_lookup Remix.summary 16 ps) as (H1 & H2 & H3).
  destruct (summaries_lookup LegacyRemix.summary 10 normalized) as (L1 & L2 & L3).
  destruct (remix_POST_trace w body ps Hps Hlen) as [Hd Hp].
  split_and!; try done.
  - unfold summaries, Remix.parentSummaries, slice0.
    rewrite fmap_imap, (imap_ext _ (const url)) by done.
    by rewrite imap_const, fmap_take.
  - by rewrite Hd, fmap_take.
  - intros rq Hrq. destruct Hp as [Hp|Hp]; rewrite Hp in Hrq.
    + by apply elem_of_nil in Hrq.
    + by apply list_elem_of_singleton in Hrq as ->.
  - intros rq Hrq.
    destruct (legacy_POST_trace w' legacy) as [Hp'|Hp']; rewrite Hp' in Hrq.
    + by apply elem_of_nil in Hrq.
    + by apply list_elem_of_singleton in Hrq as ->.
Qed.

Lemma parents_beyond_the_cap_dropped_witness :
  downloaded (run silentWorld (Remix.POST (remixBody (Array seventeenParents)))).1
  = ["u1"; "u2"; "u3"; "u4"; "u5"; "u6"; "u7"; "u8"; "u9"; "u10"; "u11";
     "u12"; "u13"; "u14"; "u15"; "u16"]
  ∧ map Remix.ps_url (Remix.parentSummaries seventeenParents)
    = ["u1"; "u2"; "u3"; "u4"; "u5"; "u6"; "u7"; "u8"; "u9"; "u10"; "u11";
       "u12"; "u13"; "u14"; "u15"; "u16"].
Proof.
  destruct (parents_beyond_the_cap_dropped
              (remixBody (Array seventeenParents)) seventeenParents silentWorld
              oneParentTwoDescriptions silentLegacyWorld)
    as (_ & _ & _ & H4 & H5 & _).
  - reflexivity.
  - simpl. lia.
  - split; [exact H5|exact H4].
Defined.

(** C9, refuted as stated: of eleven parents the legacy route passes ten
    to the plan synthesis, although eleven is below sixteen. *)
Lemma legacy_keeps_ten_parents :
  length elevenParents = 11
  ∧ map (fun rq => map LegacyRemix.ps_description (LegacyRemix.rq_parentSummaries rq))
        (legacyPlanRequests
           (run silentLegacyWorld
              (LegacyRemix.POST (legacyBody (Array elevenParents) None None))).1)
    = [["p1"; "p2"; "p3"; "p4"; "p5"; "p6"; "p7"; "p8"; "p9"; "p10"]].
Proof. split; vm_compute; reflexivity. Qed.

(* ===================================================================== *)
(** ** What becomes of the plan the model returns *)
(* ===================================================================== *)

Lemma finalPrompt_is_Some (plan : RemixPlan) (strength : float) :
  is_Some (Remix.finalPrompt plan strength) <-> is_Some (must_include plan).
Proof.
  unfold Remix.finalPrompt.
  destruct (must_include plan); [split; eauto|split; intros [? [=]]].
Qed.

(** The whole run of the first route once the parents check is passed,
    the downloads have succeeded and the model has answered. *)
Lemma remix_POST_run (w : world Remix.call) (body : Remix.Body)
    (ps : list RemixParent) (files : list Remix.File) (c : Completion) :
  asArray (Remix.parents body) = Some ps ->
  2 <= length ps ->
  let strength := Remix.clamp (default 0.65%float (Remix.remixStrength body)) in
  let rq := Remix.planRequest body ps strength in
  all_resolved (map (w _) (Remix.downloads ps)) = Some files ->
  w _ (Remix.ChatCompletion rq) = Resolved c ->
  run w (Remix.POST body)
  = ((map Called (Remix.downloads ps) ++ [Called (Remix.ChatCompletion rq)])
     ++ (run w (Remix.generate body ps strength files c)).1,
     match (run w (Remix.generate body ps strength files c)).2 with
     | Some r => Some r
     | None => Some Remix.failed
     end).
Proof.
  intros Hps Hlen strength rq Hf Hc. unfold Remix.POST. rewrite Hps.
  destruct (Nat.ltb_spec (length ps) 2) as [|_]; [lia|]. cbv zeta.
  unfold mbind, io_bind.
  rewrite run_try_catch, run_bind, run_Promise_all. cbn [fst snd].
  rewrite Hf, run_bind, run_await. cbn [fst snd]. fold strength rq. rewrite Hc.
  destruct (run w (Remix.generate body ps strength files c)) as [t [r|]];
    cbn [fst snd run]; by rewrite ?app_nil_r, <- ?app_assoc.
Qed.

(** The same for the legacy route. *)
Lemma legacy_POST_run (w : world LegacyRemix.call) (body : LegacyRemix.Body)
    (c : Completion) :
  let normalized := LegacyRemix.normalizedParents body in
  let strength := LegacyRemix.clamp (default 0.7%float (LegacyRemix.remixStrength body)) in
  let rq := LegacyRemix.planRequest body normalized strength in
  2 <= length normalized ->
  w _ (LegacyRemix.ChatCompletion rq) = Resolved c ->
  run w (LegacyRemix.POST body)
  = (Called (LegacyRemix.ChatCompletion rq)
     :: (run w (LegacyRemix.generate body normalized strength c)).1,
     match (run w (LegacyRemix.generate body normalized strength c)).2 with
     | Some r => Some r
     | None => Some LegacyRemix.failed
     end).
Proof.
  intros normalized strength rq Hlen Hc. rewrite legacy_POST_proceeds by done.
  cbv zeta. fold normalized strength rq. unfold mbind, io_bind.
  rewrite run_try_catch, run_bind, run_await. cbn [fst snd]. rewrite Hc.
  destruct (run w (LegacyRemix.generate body normalized strength c)) as [t [r|]];
    cbn [fst snd run app]; by rewrite ?app_nil_r.
Qed.

(** C5, as the code has it, for a reply that is missing, is not JSON, or
    parses to an object whose properties, where present, have the types
    of the schema.  Neither route checks the parsed plan against the
    schema it sent.  In the first route every plan that has a
    [must_include] list, of whatever length and with whatever else
    missing, is rendered into the prompt and sent to the image edit, and
    is returned unchanged with status 200 when edit and upload succeed; a
    plan without [must_include] (as the empty plan of a missing reply)
    and a reply that is not JSON end in the generic 500 with no further
    call.  The legacy route renders every plan, reading a missing
    [must_include] as the empty list, sends the prompt to the image model
    and returns the plan unchanged with status 200 when that call
    succeeds; only a reply that is not JSON ends in its generic 500 with
    no further call. *)
Theorem plan_rendered_without_validation
    (w : world Remix.call) (body : Remix.Body) (ps : list RemixParent)
    (files : list Remix.File)
    (w' : world LegacyRemix.call) (legacy : LegacyRemix.Body)
    (c : Completion) :
  let strength := Remix.clamp (default 0.65%float (Remix.remixStrength body)) in
  let rq := Remix.planRequest body ps strength in
  let before :=
    map Called (Remix.downloads ps) ++ [Called (Remix.ChatCompletion rq)] in
  let normalized := LegacyRemix.normalizedParents legacy in
  let strength' :=
    LegacyRemix.clamp (default 0.7%float (LegacyRemix.remixStrength legacy)) in
  let rq' := LegacyRemix.planRequest legacy normalized strength' in
  asArray (Remix.parents body) = Some ps ->
  2 <= length ps ->
  all_resolved (map (w _) (Remix.downloads ps)) = Some files ->
  w _ (Remix.ChatCompletion rq) = Resolved c ->
  2 <= length normalized ->
  w' _ (LegacyRemix.ChatCompletion rq') = Resolved c ->
  (forall plan,
     parsePlan c = Some plan ->
     is_Some (must_include plan) ->
     exists prompt,
       Remix.finalPrompt plan strength = Some prompt
       ∧ (exists rest,
            (run w (Remix.POST body)).1
            = before ++ Called (Remix.ImagesEdit prompt (editSize body) files) :: rest)
       ∧ (forall b64 u,
            w _ (Remix.ImagesEdit prompt (editSize body) files)
            = Resolved {| Remix.res_ok := true; Remix.b64_json := Some b64 |} ->
            nonEmpty b64 = true ->
            w _ (Remix.UploadB64ToCloudinary b64) = Resolved u ->
            run w (Remix.POST body)
            = (before ++ [Called (Remix.ImagesEdit prompt (editSize body) files);
                          Called (Remix.UploadB64ToCloudinary b64)],
               Some {| Remix.status := 200;
                       Remix.json := Remix.RemixJson prompt plan strength u
                                       (map url ps) |})))
  ∧ (parsePlan c = None
     ∨ (exists plan, parsePlan c = Some plan ∧ must_include plan = None) ->
     run w (Remix.POST body) = (before, Some Remix.failed))
  ∧ (forall plan,
       parsePlan c = Some plan ->
       let prompt := LegacyRemix.finalPrompt plan strength' in
       let generation :=
         LegacyRemix.ImagesGenerate prompt
           (default "1024x1024" (LegacyRemix.size legacy)) in
       (run w' (LegacyRemix.POST legacy)).1
       = [Called (LegacyRemix.ChatCompletion rq'); Called generation]
       ∧ (forall image,
            w' _ generation = Resolved image ->
            (run w' (LegacyRemix.POST legacy)).2
            = Some {| LegacyRemix.status := 200;
                      LegacyRemix.json :=
                        LegacyRemix.RemixJson prompt plan image
                          (List.filter nonEmpty (map url normalized)) |})
       ∧ (w' _ generation = Rejected ->
          (run w' (LegacyRemix.POST legacy)).2 = Some LegacyRemix.failed))
  ∧ (parsePlan c = None ->
     run w' (LegacyRemix.POST legacy)
     = ([Called (LegacyRemix.ChatCompletion rq')], Some LegacyRemix.failed))
  ∧ (parsePlan c = None <-> c = Unparsable)
  ∧ (c = NoContent -> parsePlan c = Some noPlan ∧ must_include noPlan = None).
Proof.
  intros strength rq before normalized strength' rq' Hps Hlen Hf Hc Hlen' Hc'.
  rewrite (remix_POST_run w body ps files c Hps Hlen Hf Hc).
  rewrite (legacy_POST_run w' legacy c Hlen' Hc').
  fold strength rq before normalized strength' rq'.
  split_and!.
  - intros plan Hplan Hmi.
    apply (finalPrompt_is_Some plan strength) in Hmi as [prompt Hprompt].
    exists prompt. unfold Remix.generate. rewrite Hplan, Hprompt.
    fold (editSize body). unfold mbind, io_bind.
    cbn [run Effect.bind await fst snd]. split_and!; [done|by eexists|].
    intros b64 u Hedit Hne Hup. rewrite Hedit. destruct b64 as [|a b]; [done|].
    cbn [run Effect.bind await fst snd Remix.res_ok negb Remix.b64_json].
    rewrite Hup. by cbn [run Effect.bind fst snd].
  - intros [Hnone|(plan & Hplan & Hmi)]; unfold Remix.generate.
    + rewrite Hnone. cbn [run fst snd]. by rewrite app_nil_r.
    + rewrite Hplan. unfold Remix.finalPrompt. rewrite Hmi.
      cbn [run fst snd]. by rewrite app_nil_r.
  - intros plan Hplan prompt generation. unfold LegacyRemix.generate.
    rewrite Hplan. cbv zeta. fold prompt generation. unfold mbind, io_bind.
    cbn [run Effect.bind await fst snd].
    split_and!.
    + by destruct (w' _ generation).
    + by intros image ->.
    + by intros ->.
  - intros Hnone. unfold LegacyRemix.generate. by rewrite Hnone.
  - by destruct c.
  - by intros ->.
Qed.

Lemma plan_rendered_without_validation_witness :
  conforms twoAnchorPlan = false
  ∧ exists prompt,
      Remix.finalPrompt twoAnchorPlan 0.65 = Some prompt
      ∧ (run (obligingWorld (Parsed twoAnchorPlan))
           (Remix.POST (remixBody (Array twoParents)))).2
        = Some {| Remix.status := 200;
                  Remix.json := Remix.RemixJson prompt twoAnchorPlan 0.65
                                  "https://cdn.example/remix.png" ["u1"; "u2"] |}.
Proof.
  split; [reflexivity|].
  destruct (proj1 (plan_rendered_without_validation
                     (obligingWorld (Parsed twoAnchorPlan))
                     (remixBody (Array twoParents)) twoParents
                     [ {| Remix.file_name := "parent-1.jpg";
                          Remix.file_type := "image/jpeg";
                          Remix.file_data := "u1" |};
                       {| Remix.file_name := "parent-2.jpg";
                          Remix.file_type := "image/jpeg";
                          Remix.file_data := "u2" |} ]
                     (obligingLegacyWorld (Parsed twoAnchorPlan))
                     (legacyBody (Array twoParents) None None)
                     (Parsed twoAnchorPlan)
                     eq_refl (le_n 2) eq_refl eq_refl (le_n 2) eq_refl)
              twoAnchorPlan eq_refl (ex_intro _ _ eq_refl))
    as (prompt & Hp & _ & Hrun).
  exists prompt. split; [exact Hp|].
  exact (f_equal snd (Hrun "aGVsbG8=" "https://cdn.example/remix.png"
                        eq_refl eq_refl eq_refl)).
Defined.

(** C5, refuted as stated: a plan with two anchors, and the empty plan of
    a reply without content, both end in status 200 with the plan handed
    back as it came. *)
Lemma nonconforming_plan_accepted :
  conforms twoAnchorPlan = false
  ∧ (run (obligingWorld (Parsed twoAnchorPlan))
       (Remix.POST (remixBody (Array twoParents)))).2
    = Some {| Remix.status := 200;
              Remix.json :=
                Remix.RemixJson
                  ("A street at dusk. A dog under a lamp. Old town. "
                   +:+ Remix.CREATIVE
                   +:+ " Blend freely. Composition: Low angle."
                   +:+ " Medium: photograph, realism: photorealistic."
                   +:+ " Lighting: warm. Palette: amber. Style: grainy."
                   +:+ " Must include (integrated naturally): lamp, dog."
                   +:+ " No text, no watermark, no UI, no logos, no signatures."
                   +:+ " Square image.")
                  twoAnchorPlan 0.65 "https://cdn.example/remix.png"
                  ["u1"; "u2"] |}
  ∧ conforms noPlan = false
  ∧ (run (obligingLegacyWorld NoContent)
       (LegacyRemix.POST (legacyBody (Array twoParents) None None))).2
    = Some {| LegacyRemix.status := 200;
              LegacyRemix.json :=
                LegacyRemix.RemixJson
                  ("undefined. undefined. undefined. " +:+ LegacyRemix.CREATIVE
                   +:+ " Composition: undefined."
                   +:+ " Medium: undefined, realism: undefined."
                   +:+ " Lighting: undefined. Palette: undefined."
                   +:+ " Must include: ."
                   +:+ " Square image. No text, no watermark, no UI, no logos, no signatures.")
                  noPlan (Some "https://cdn.example/gen.png") ["u1"; "u2"] |}.
Proof. split_and!; vm_compute; reflexivity. Qed.

(* ===================================================================== *)
(** ** The strength tiers *)
(* ===================================================================== *)

Module FloatFacts.

Lemma CompOpp_Pcompare (m1 m2 : positive) :
  Pos.compare_cont Eq m2 m1 = CompOpp (Pos.compare_cont Eq m1 m2).
Proof. apply (Pos.compare_antisym m1 m2). Qed.

(** Comparing the other way round gives the opposite answer. *)
Lemma SFcompare_opp (x y : spec_float) :
  SFcompare y x = option_map CompOpp (SFcompare x y).
Proof.
  destruct x as [s1|s1| |s1 m1 e1], y as [s2|s2| |s2 m2 e2]; simpl;
    try (destruct s1); try (destruct s2); try reflexivity;
    rewrite (Z.compare_antisym e1 e2); destruct (e1 ?= e2)%Z; simpl;
    try reflexivity; rewrite CompOpp_Pcompare; try reflexivity;
    by rewrite CompOpp_involutive.
Qed.

Lemma SFcompare_refl (x : spec_float) :
  SFcompare x x = match x with S754_nan => None | _ => Some Eq end.
Proof.
  destruct x as [s|s| |s m e]; simpl; try done; try (by destruct s).
  destruct s; rewrite Z.compare_refl;
    change (PosDef.Pos.compare_cont Eq m m) with (m ?= m)%positive;
    by rewrite Pos.compare_refl.
Qed.

Lemma SFcompare_None (x y : spec_float) :
  SFcompare x y = None <-> x = S754_nan ∨ y = S754_nan.
Proof.
  destruct x as [s1|s1| |s1 m1 e1], y as [s2|s2| |s2 m2 e2]; simpl;
    split; try (intros [?|?]); try done; auto.
Qed.

Lemma isNaN_spec (x : float) : JS.isNaN x = true <-> Prim2SF x = S754_nan.
Proof.
  unfold JS.isNaN. rewrite FloatAxioms.eqb_spec. unfold SFeqb. rewrite SFcompare_refl.
  destruct (Prim2SF x); simpl; split; done.
Qed.

Lemma isNaN_false (x : float) : JS.isNaN x = false <-> Prim2SF x ≠ S754_nan.
Proof. rewrite <- isNaN_spec. by destruct (JS.isNaN x). Qed.

(** [c <= x] fails exactly when [x < c] or [x] is NaN. *)
Lemma leb_false_iff (c x : float) :
  JS.isNaN c = false ->
  (c <=? x)%float = false <-> (x <? c)%float = true ∨ JS.isNaN x = true.
Proof.
  intros Hc%isNaN_false.
  rewrite FloatAxioms.leb_spec, FloatAxioms.ltb_spec, isNaN_spec. unfold SFleb, SFltb.
  rewrite (SFcompare_opp (Prim2SF c) (Prim2SF x)).
  pose proof (SFcompare_None (Prim2SF c) (Prim2SF x)) as Hn.
  destruct (SFcompare (Prim2SF c) (Prim2SF x)) as [[]|]; simpl.
  - split; [done|]. intros [?|Hx]; [done|].
    assert (Some Eq = @None comparison) by (apply Hn; auto). done.
  - split; [done|]. intros [?|Hx]; [done|].
    assert (Some Lt = @None comparison) by (apply Hn; auto). done.
  - split; [auto|done].
  - split; [|done]. intros _. destruct (proj1 Hn eq_refl); [done|auto].
Qed.

(** Within one binade a smaller mantissa is a smaller bound. *)
Lemma SFleb_finite_mono (m1 m2 : positive) (e : Z) (x : spec_float) :
  (m1 <= m2)%positive ->
  SFleb (S754_finite false m2 e) x = true ->
  SFleb (S754_finite false m1 e) x = true.
Proof.
  intros Hm. unfold SFleb.
  destruct x as [s|s| |s m' e']; simpl; try done; destruct s; try done.
  destruct (e ?= e')%Z; try done.
  change (Pos.compare_cont Eq m2 m') with (m2 ?= m')%positive.
  change (Pos.compare_cont Eq m1 m') with (m1 ?= m')%positive.
  destruct (Pos.compare_spec m2 m'), (Pos.compare_spec m1 m'); try done; lia.
Qed.

Section Tiers.
Variables hi lo : float.
Variables HIGH CREATIVE LIGHT : string.
Hypothesis hi_number : JS.isNaN hi = false.
Hypothesis lo_number : JS.isNaN lo = false.
Hypothesis lo_below_hi : forall x, (hi <=? x)%float = true -> (lo <=? x)%float = true.
Hypothesis distinct : HIGH ≠ CREATIVE ∧ HIGH ≠ LIGHT ∧ CREATIVE ≠ LIGHT.

Lemma tier_bounds (s : float) :
  let tier := Spec.tier hi lo HIGH CREATIVE LIGHT in
  (tier s = HIGH <-> (hi <=? s)%float = true)
  ∧ (tier s = CREATIVE <-> (lo <=? s)%float = true ∧ (s <? hi)%float = true)
  ∧ (tier s = LIGHT <-> (s <? lo)%float = true ∨ JS.isNaN s = true).
Proof.
  destruct distinct as (Hhc & Hhl & Hcl).
  destruct (leb_false_iff hi s hi_number) as [Hhi1 Hhi2].
  destruct (leb_false_iff lo s lo_number) as [Hlo1 Hlo2].
  pose proof (lo_below_hi s) as Hmono.
  unfold Spec.tier.
  destruct (hi <=? s)%float, (lo <=? s)%float;
    split_and!; split; intros; intuition congruence.
Qed.
End Tiers.

End FloatFacts.

Import FloatFacts.

(** The bounds of the legacy route lie in one binade, as do the first
    route's. *)
Lemma legacy_bounds_ordered (x : float) :
  (0.85 <=? x)%float = true -> (0.55 <=? x)%float = true.
Proof.
  rewrite !FloatAxioms.leb_spec.
  let hi := eval vm_compute in (Prim2SF 0.85) in change (Prim2SF 0.85) with hi.
  let lo := eval vm_compute in (Prim2SF 0.55) in change (Prim2SF 0.55) with lo.
  by apply SFleb_finite_mono.
Qed.

Lemma bounds_ordered (x : float) :
  (0.8 <=? x)%float = true -> (0.5 <=? x)%float = true.
Proof.
  rewrite !FloatAxioms.leb_spec.
  let hi := eval vm_compute in (Prim2SF 0.8) in change (Prim2SF 0.8) with hi.
  let lo := eval vm_compute in (Prim2SF 0.5) in change (Prim2SF 0.5) with lo.
  by apply SFleb_finite_mono.
Qed.

(** C1, as the code has it.  The legacy route picks its phrase with
    bounds at 0.85 and 0.55: "highly remixed" from 0.85 up, "creative
    remix" from 0.55 up to but not including 0.85, "light remix" below
    0.55 (and for NaN); 0.549, 0.55, 0.849 and 0.85 give light, creative,
    creative and highly remixed.  The first route does the same with
    bounds 0.8 and 0.5 and phrases of its own. *)
Theorem remixLine_tiers (strength : float) :
  (LegacyRemix.remixLine strength = LegacyRemix.HIGH
   <-> (0.85 <=? strength)%float = true)
  ∧ (LegacyRemix.remixLine strength = LegacyRemix.CREATIVE
     <-> (0.55 <=? strength)%float = true ∧ (strength <? 0.85)%float = true)
  ∧ (LegacyRemix.remixLine strength = LegacyRemix.LIGHT
     <-> (strength <? 0.55)%float = true ∨ isNaN strength = true)
  ∧ LegacyRemix.remixLine 0.549 = LegacyRemix.LIGHT
  ∧ LegacyRemix.remixLine 0.55 = LegacyRemix.CREATIVE
  ∧ LegacyRemix.remixLine 0.849 = LegacyRemix.CREATIVE
  ∧ LegacyRemix.remixLine 0.85 = LegacyRemix.HIGH
  ∧ (Remix.remixLine strength = Remix.HIGH <-> (0.8 <=? strength)%float = true)
  ∧ (Remix.remixLine strength = Remix.CREATIVE
     <-> (0.5 <=? strength)%float = true ∧ (strength <? 0.8)%float = true)
  ∧ (Remix.remixLine strength = Remix.LIGHT
     <-> (strength <? 0.5)%float = true ∨ isNaN strength = true)
  ∧ Remix.remixLine 0.499 = Remix.LIGHT
  ∧ Remix.remixLine 0.5 = Remix.CREATIVE
  ∧ Remix.remixLine 0.799 = Remix.CREATIVE
  ∧ Remix.remixLine 0.8 = Remix.HIGH.
Proof.
  destruct (tier_bounds 0.85 0.55 LegacyRemix.HIGH LegacyRemix.CREATIVE
              LegacyRemix.LIGHT eq_refl eq_refl legacy_bounds_ordered)
    with (s := strength) as (L1 & L2 & L3);
    [by split_and!|].
  destruct (tier_bounds 0.8 0.5 Remix.HIGH Remix.CREATIVE Remix.LIGHT
              eq_refl eq_refl bounds_ordered)
    with (s := strength) as (R1 & R2 & R3);
    [by split_and!|].
  split_and!; try done; vm_compute; reflexivity.
Qed.

(** C1, refuted as stated: in the first route 0.549 already gives the
    creative phrase and 0.849 the highly remixed one. *)
Lemma first_route_tiers_differ :
  Remix.remixLine 0.549 = Remix.CREATIVE
  ∧ Remix.remixLine 0.549 ≠ Remix.LIGHT
  ∧ Remix.remixLine 0.849 = Remix.HIGH
  ∧ Remix.remixLine 0.849 ≠ Remix.CREATIVE.
Proof. split_and!; vm_compute; done. Qed.

(* ===================================================================== *)
(** ** The listing: descriptors, titles and pages *)
(* ===================================================================== *)

Import Terms.

Lemma append_assoc (a b c : string) : (a +:+ b) +:+ c = a +:+ b +:+ c.
Proof. induction a as [|x a IH]; [done|]. by rewrite !append_cons, IH. Qed.

Lemma append_empty_r (a : string) : a +:+ "" = a.
Proof. induction a as [|x a IH]; [done|]. by rewrite append_cons, IH. Qed.

Lemma split_not_nil sep s : split sep s ≠ [].
Proof.
  destruct s as [|c r]; simpl; [done|].
  destruct (Ascii.eqb c sep); [done|]. by destruct (split sep r).
Qed.

(** The pieces of a split hold no separator. *)
Lemma split_pieces sep s :
  Forall (fun e => includesChar sep e = false) (split sep s).
Proof.
  induction s as [|c r IH]; simpl; [by repeat constructor|].
  destruct (Ascii.eqb c sep) eqn:E; [by constructor|].
  destruct (split sep r) as [|w ws]; [by repeat constructor; simpl; rewrite E|].
  inversion IH as [|? ? Hw Hws]; subst.
  constructor; [|done]. simpl. by rewrite E.
Qed.

(** Joining the pieces with the separator gives the string back. *)
Lemma join_split sep s : join (String sep EmptyString) (split sep s) = s.
Proof.
  induction s as [|c r IH]; simpl; [done|].
  destruct (Ascii.eqb_spec c sep) as [->|Hne].
  - pose proof (split_not_nil sep r) as Hnil.
    destruct (split sep r) as [|w ws]; [done|]. simpl in IH |- *. by rewrite IH.
  - pose proof (split_not_nil sep r) as Hnil.
    destruct (split sep r) as [|w ws]; [done|].
    destruct ws as [|w' ws']; simpl in IH |- *; by rewrite <- IH.
Qed.

Lemma join_ends_with_last sep (l : list string) :
  l ≠ [] -> exists pre, join sep l = pre +:+ List.last l EmptyString.
Proof.
  induction l as [|x r IH]; [done|]. intros _.
  destruct r as [|y r'].
  - by exists EmptyString.
  - destruct IH as [pre Hpre]; [done|].
    exists (x +:+ sep +:+ pre).
    change (join sep (x :: y :: r')) with (x +:+ sep +:+ join sep (y :: r')).
    rewrite Hpre.
    change (List.last (x :: y :: r') EmptyString) with (List.last (y :: r') EmptyString).
    by rewrite !append_assoc.
Qed.

Lemma last_Forall {A} (P : A -> Prop) (l : list A) (d : A) :
  l ≠ [] -> Forall P l -> P (List.last l d).
Proof.
  induction l as [|x r IH]; [done|]. intros _ Hl.
  inversion Hl; subst. destruct r; [done|]. by apply IH.
Qed.

Lemma null_or_not (v : value) : v = VNull ∨ v ≠ VNull.
Proof. destruct v; (by left) || (by right). Qed.

Section ListingFacts.
Variable Number_toString : float -> string.
Variable JSON_parse : string -> option value.
Variable cloudinary_url : option string -> string -> string -> string.

Local Abbreviation pick := (Recent.pick Number_toString).
Local Abbreviation csvToArr := (Recent.csvToArr Number_toString JSON_parse).
Local Abbreviation stored := (storedNonBlank Number_toString).

Lemma pick_null_or_usable (obj : gmap string value) (keys : list string) :
  Forall (fun k => Recent.Object_prototype k = VUndefined) keys ->
  pick obj keys = VNull
  ∨ ((exists k, obj !! k = Some (pick obj keys))
     ∧ pick obj keys ≠ VUndefined ∧ pick obj keys ≠ VNull
     ∧ nonEmpty (trim (toString Number_toString (pick obj keys))) = true).
Proof.
  intros Hown.
  destruct (pick_stored Number_toString obj keys Hown)
    as [[H _]|(b & k & a & _ & _ & Hk & Hu)]; [by left|right].
  apply usable_defined in Hu as (? & ? & ?). eauto.
Qed.

Lemma nullish_picks_stored (cx md : gmap string value) (ks ks' : list string) :
  Forall (fun k => Recent.Object_prototype k = VUndefined) ks ->
  Forall (fun k => Recent.Object_prototype k = VUndefined) ks' ->
  stored cx md (Recent.nullish (pick cx ks) (pick md ks')).
Proof.
  intros Hks Hks'.
  destruct (pick_null_or_usable cx ks Hks) as [Hc|([k Hk] & Hu & Hn & Hb)].
  - rewrite Hc. simpl.
    destruct (pick_null_or_usable md ks' Hks') as [Hm|([k Hk] & Hu & Hn & Hb)];
      [by left|right]. eauto.
  - right. destruct (pick cx ks) eqn:E; try done; simpl; eauto.
Qed.

Lemma stored_or_null (cx md : gmap string value) (v : value) :
  stored cx md v -> stored cx md (Recent.nullish v VNull).
Proof.
  intros [->|(Hk & Hu & Hb)]; [by left|]. right. by destruct v.
Qed.

Lemma stored_not_undefined (cx md : gmap string value) (v : value) :
  stored cx md v -> v ≠ VUndefined.
Proof. by intros [->|(_ & Hu & _)]. Qed.
End ListingFacts.

Ltac project_descriptor :=
  cbn [Listing.d_title Listing.d_caption Listing.d_altText Listing.d_so_me_type
       Listing.d_trend Listing.d_feeling Listing.d_subject Listing.d_setting
       Listing.d_medium Listing.d_realism Listing.d_lighting Listing.d_palette
       Listing.d_composition Listing.d_style Listing.d_vibe Listing.d_objects
       Listing.d_people Listing.d_scenes Listing.d_must_keep].

(** X1.  Whatever the two containers of a resource hold, every scalar
    field of the descriptor the listing builds is [null] or a value that
    one of the containers stores and that does not render blank (so never
    [undefined] and never an empty or whitespace-only string), and every
    entry of its five list fields is trimmed and non-empty. *)
Theorem descriptor_fields_are_clean (Number_toString : float -> string)
    (JSON_parse : string -> option value) (cx md : gmap string value) :
  let d := Listing.descriptorOf Number_toString JSON_parse cx md in
  Forall (storedNonBlank Number_toString cx md) (scalarsOf d)
  ∧ Forall (fun v => v ≠ VUndefined ∧ forall s, v = VStr s -> nonBlank s)
      (scalarsOf d)
  ∧ Forall (Forall tidy) (listsOf d).
Proof.
  intros d.
  assert (Forall (storedNonBlank Number_toString cx md) (scalarsOf d)) as Hs.
  { unfold scalarsOf, d, Listing.descriptorOf, Listing.either, Listing.altOf.
    project_descriptor.
    repeat (apply Forall_cons_2;
            [apply stored_or_null, nullish_picks_stored; by repeat constructor|]).
    apply Forall_nil_2. }
  split_and!; [exact Hs| |].
  - eapply Forall_impl; [exact Hs|]. intros v Hv. split.
    + by eapply stored_not_undefined.
    + intros s ->. by destruct Hv as [?|(_ & _ & Hb)].
  - unfold listsOf, d, Listing.descriptorOf. project_descriptor.
    repeat (apply Forall_cons_2; [apply csvToArr_tidy|]). apply Forall_nil_2.
Qed.

(** X2.  An item's title is never absent.  It is the caption when the
    context (keys [caption], [Caption]) or the metadata holds a usable
    one, else the metadata's [title], else the part of [public_id] after
    its last slash (which may be the empty string), else ["Untitled"]. *)
Theorem title_falls_back (Number_toString : float -> string) (r : Listing.Resource) :
  let cx := Listing.contextOf r in
  let md := Listing.metadataOf r in
  let caption := Listing.captionOf Number_toString cx md in
  let stored := Recent.pick Number_toString md ["title"] in
  let title := Listing.titleOf Number_toString r in
  title ≠ VNull ∧ title ≠ VUndefined
  ∧ (caption ≠ VNull -> title = caption)
  ∧ (caption = VNull -> stored ≠ VNull -> title = stored)
  ∧ (caption = VNull -> stored = VNull ->
     forall p, Listing.public_id r = Some p ->
       title = VStr (Listing.lastSegment p)
       ∧ includesChar "/" (Listing.lastSegment p) = false
       ∧ exists pre, p = pre +:+ Listing.lastSegment p)
  ∧ (caption = VNull -> stored = VNull -> Listing.public_id r = None ->
     title = VStr "Untitled").
Proof.
  intros cx md caption stored title.
  assert (caption ≠ VUndefined) as Hc.
  { eapply stored_not_undefined.
    apply nullish_picks_stored; by repeat constructor. }
  assert (stored ≠ VUndefined) as Hs.
  { unfold stored.
    destruct (pick_null_or_usable Number_toString md ["title"]) as [->|(_ & H & _)];
      [by repeat constructor|done..]. }
  assert (forall v x, v ≠ VNull -> v ≠ VUndefined -> Recent.nullish v x = v) as Hleft
    by (by intros [] ?).
  unfold title, Listing.titleOf. fold cx md caption stored.
  set (segment := match Listing.public_id r with
                  | Some p => VStr (Listing.lastSegment p)
                  | None => VUndefined
                  end).
  set (rest := Recent.nullish segment (VStr "Untitled")).
  assert (rest ≠ VNull ∧ rest ≠ VUndefined) as [Hr1 Hr2]
    by (unfold rest, segment; by destruct (Listing.public_id r)).
  assert (Recent.nullish stored rest ≠ VNull
          ∧ Recent.nullish stored rest ≠ VUndefined) as [Ht1 Ht2].
  { destruct (null_or_not stored) as [E|Hn]; [by rewrite E|]. by rewrite Hleft. }
  split_and!.
  - destruct (null_or_not caption) as [E|Hn]; [by rewrite E|]. by rewrite Hleft.
  - destruct (null_or_not caption) as [E|Hn]; [by rewrite E|]. by rewrite Hleft.
  - intros Hn. by rewrite Hleft.
  - intros -> Hn. simpl. by rewrite Hleft.
  - intros -> -> p Hp. simpl. unfold rest, segment. rewrite Hp. simpl.
    split_and!; [done| |].
    + unfold Listing.lastSegment.
      apply (last_Forall (fun e => includesChar "/" e = false));
        [apply split_not_nil|apply split_pieces].
    + destruct (join_ends_with_last "/" (split "/" p) (split_not_nil _ _))
        as [pre Hpre].
      exists pre. unfold Listing.lastSegment. by rewrite <- Hpre, join_split.
  - intros -> -> Hp. simpl. unfold rest, segment. by rewrite Hp.
Qed.

Lemma toString_strings (Number_toString : float -> string) (l : list string) :
  map (toString Number_toString) (map VStr l) = l.
Proof. induction l as [|a r IH]; simpl; [done|by rewrite IH]. Qed.

(** X3.  List coercion leaves a coerced list alone: applied to its own
    result, given back as an array, [csvToArr] returns that result, and
    any list of trimmed, non-empty strings is a fixed point. *)
Theorem csvToArr_keeps_coerced_arrays (Number_toString : float -> string)
    (JSON_parse : string -> option value) (x : value) (l : list string) :
  Recent.csvToArr Number_toString JSON_parse
    (VArr (map VStr (Recent.csvToArr Number_toString JSON_parse x)))
  = Recent.csvToArr Number_toString JSON_parse x
  ∧ (Forall tidy l ->
     Recent.csvToArr Number_toString JSON_parse (VArr (map VStr l)) = l).
Proof.
  assert (forall l', Forall tidy l' ->
            Recent.csvToArr Number_toString JSON_parse (VArr (map VStr l')) = l')
    as Hfix.
  { intros l' Hl. unfold Recent.csvToArr, Recent.cleaned. simpl.
    rewrite toString_strings. by apply cleaned_tidy. }
  split; [|apply Hfix]. apply Hfix, csvToArr_tidy.
Qed.

Lemma csvToArr_keeps_coerced_arrays_witness :
  Recent.csvToArr (fun _ => "") (fun _ => None)
    (VArr [VStr "warm light"; VStr "dog"])
  = ["warm light"; "dog"].
Proof.
  refine (proj2 (csvToArr_keeps_coerced_arrays (fun _ => "") (fun _ => None)
                   VNull ["warm light"; "dog"]) _).
  repeat constructor.
Defined.

Lemma relativeIndex_le (len : nat) (i : option Z) :
  Listing.relativeIndex len i <= len.
Proof.
  unfold Listing.relativeIndex. destruct i as [z|]; [|lia].
  destruct (Z.ltb_spec z 0); lia.
Qed.

(** With a skip and a limit that are not negative, [slice] is what one
    expects of a page. *)
Lemma slice_take_drop {A} (s n : Z) (l : list A) :
  (0 <= s)%Z -> (0 <= n)%Z ->
  Listing.slice (Some s) (Some (s + n)%Z) l
  = take (Z.to_nat n) (drop (Z.to_nat s) l).
Proof.
  intros Hs Hn. unfold Listing.slice, Listing.relativeIndex.
  destruct (Z.ltb_spec s 0); [lia|]. destruct (Z.ltb_spec (s + n) 0); [lia|].
  destruct (decide (length l <= Z.to_nat s)) as [Hge|Hlt].
  - rewrite !drop_ge by lia. by rewrite !take_nil.
  - replace (Z.to_nat s `min` length l) with (Z.to_nat s) by lia.
    destruct (decide (Z.to_nat n <= length l - Z.to_nat s)) as [Hfit|Hover].
    + f_equal. lia.
    + rewrite !take_ge; [done|rewrite length_drop; lia..].
Qed.

(** Whatever [skip] is, a slice from [skip] to [skip + limit] holds at
    most [limit] entries when [limit] is not negative, and none when one
    of the two is not a number. *)
Lemma slice_length {A} (skip limit : option Z) (l : list A) :
  (forall n, limit = Some n -> (0 <= n)%Z) ->
  length (Listing.slice skip (Listing.plus skip limit) l)
  <= Z.to_nat (default 0%Z limit).
Proof.
  intros Hlimit. unfold Listing.slice. rewrite length_take, length_drop.
  destruct skip as [s|], limit as [n|]; simpl; try lia.
  specialize (Hlimit n eq_refl). unfold Listing.relativeIndex.
  destruct (Z.ltb_spec s 0), (Z.ltb_spec (s + n) 0); lia.
Qed.

(** X4.  For a [skip] and a [limit] that binary64 holds exactly: a page of
    the listing holds at most [limit] items whenever [limit] is not
    negative, whatever [skip] is, and none when [skip] or [limit] is not a
    number.  When neither is negative it is the [limit] items after the
    first [skip], and consecutive pages tile the result.  A negative
    [limit] counts from the end: skip 0 with limit -1 gives all resources
    but the last. *)
Theorem page_holds_at_most_limit (Number_toString : float -> string)
    (JSON_parse : string -> option value)
    (cloudinary_url : option string -> string -> string -> string)
    (skip limit : option Z) (resources : list Listing.Resource) :
  Listing.safe skip = true -> Listing.safe limit = true ->
  let page := Listing.page Number_toString JSON_parse cloudinary_url in
  let itemOf := Listing.itemOf Number_toString JSON_parse cloudinary_url in
  ((forall n, limit = Some n -> (0 <= n)%Z) ->
   length (page skip limit resources) <= Z.to_nat (default 0%Z limit))
  ∧ (skip = None ∨ limit = None -> page skip limit resources = [])
  ∧ (forall s n, skip = Some s -> limit = Some n -> (0 <= s)%Z -> (0 <= n)%Z ->
       page skip limit resources
       = map itemOf (take (Z.to_nat n) (drop (Z.to_nat s) resources)))
  ∧ (forall n m, (0 <= n)%Z -> (0 <= m)%Z ->
       (n + m <= Listing.MAX_SAFE_INTEGER)%Z ->
       page (Some 0%Z) (Some n) resources ++ page (Some n) (Some m) resources
       = page (Some 0%Z) (Some (n + m)%Z) resources)
  ∧ page (Some 0%Z) (Some (-1)%Z) resources
    = map itemOf (take (length resources - 1) resources).
Proof.
  intros _ _ page itemOf. unfold page, Listing.page. fold itemOf. split_and!.
  - intros Hlimit. rewrite length_map. by apply slice_length.
  - intros H. apply nil_length_inv. rewrite length_map.
    unfold Listing.slice. rewrite length_take.
    destruct H as [-> | ->]; [|destruct skip]; simpl; lia.
  - intros s n -> -> Hs Hn. simpl. by rewrite slice_take_drop.
  - intros n m Hn Hm _. simpl.
    rewrite (slice_take_drop 0 n), (slice_take_drop n m),
      (slice_take_drop 0 (n + m)) by lia.
    rewrite <- map_app. f_equal. change (Z.to_nat 0) with 0. rewrite !drop_0.
    by rewrite take_take_drop, Z2Nat.inj_add.
  - simpl. f_equal. unfold Listing.slice, Listing.relativeIndex. simpl.
    rewrite drop_0. f_equal. lia.
Qed.

Lemma page_holds_at_most_limit_witness :
  length (Listing.page (fun _ => "") (fun _ => None) (fun _ _ _ => "")
            (Some 1%Z) (Some 2%Z)
            (replicate 5 (Listing.Build_Resource None (Some "imageEcology/a") None
                            None VUndefined VUndefined VUndefined VUndefined
                            VUndefined None None None)))
  <= 2.
Proof.
  refine (proj1 (page_holds_at_most_limit (fun _ => "") (fun _ => None)
                   (fun _ _ _ => "") (Some 1%Z) (Some 2%Z) _ eq_refl eq_refl)
            _).
  intros n [= <-]. lia.
Defined.

(** Reading a numeral continues the number read so far. *)
Lemma readDigits_uint (d : Decimal.uint) (a : Z) :
  (0 <= a)%Z ->
  Listing.readDigits (Some a) (NilEmpty.string_of_uint d)
  = Some (Z.of_nat (Nat.of_uint_acc d (Z.to_nat a))).
Proof.
  revert a. induction d as [|d IH|d IH|d IH|d IH|d IH|d IH|d IH|d IH|d IH|d IH];
    intros a Ha;
    [simpl; f_equal; lia|..];
    cbn [NilEmpty.string_of_uint Listing.readDigits Nat.of_uint_acc];
    (match goal with
     | |- context [Listing.digitOf ?c] =>
         let v := eval vm_compute in (Listing.digitOf c) in
         change (Listing.digitOf c) with v
     end);
    cbn [from_option id]; rewrite IH by lia; do 3 f_equal;
    rewrite Nat.tail_mul_spec; simpl; lia.
Qed.

Lemma numeral_digits (n : nat) :
  exists c r,
    numeral n = String c r
    ∧ isWhite c = false ∧ c ≠ "-"%char ∧ c ≠ "+"%char
    ∧ Listing.readDigits None (numeral n)
      = Listing.readDigits (Some 0%Z) (numeral n).
Proof.
  unfold numeral.
  assert (Nat.to_uint n ≠ Decimal.Nil) as Hnil.
  { rewrite <- (DecimalNat.Unsigned.of_to n) at 1.
    rewrite DecimalNat.Unsigned.to_of. apply DecimalFacts.unorm_nonnil. }
  destruct (Nat.to_uint n) as [|d|d|d|d|d|d|d|d|d|d]; [done|..];
    eexists _, _; (split_and!; [reflexivity|reflexivity|done|done|reflexivity]).
Qed.

(** What [parseInt] reads back from a decimal numeral. *)
Lemma parseInt_numeral (n : nat) :
  Listing.parseInt (numeral n) = Some (Z.of_nat n).
Proof.
  destruct (numeral_digits n) as (c & r & Hs & Hw & Hm & Hp & Hd).
  unfold Listing.parseInt.
  assert (trimStart (numeral n) = numeral n) as ->
    by (rewrite Hs; simpl; by rewrite Hw).
  assert (match numeral n with
          | String "-" r => Z.opp <$> Listing.readDigits None r
          | String "+" r => Listing.readDigits None r
          | t => Listing.readDigits None t
          end = Listing.readDigits None (numeral n)) as ->.
  { rewrite Hs.
    destruct c as [[] [] [] [] [] [] [] []]; try done. }
  rewrite Hd. unfold numeral. rewrite readDigits_uint by lia.
  change (Z.to_nat 0) with 0.
  change (Nat.of_uint_acc (Nat.to_uint n) 0) with (Nat.of_uint (Nat.to_uint n)).
  by rewrite DecimalNat.Unsigned.of_to.
Qed.



(* ===================================================================== *)
(** ** The upload route *)
(* ===================================================================== *)

Ltac run_handler :=
  unfold mbind, io_bind; cbn [run try_catch Effect.bind await fst snd].





Lemma includesChar_trimStart c s :
  includesChar c s = false -> includesChar c (trimStart s) = false.
Proof.
  induction s as [|d r IH]; [done|]. intros H. simpl.
  destruct (isWhite d); [|done]. apply IH. simpl in H.
  by apply orb_false_elim in H as [_ H].
Qed.

Lemma includesChar_trimEnd c s :
  includesChar c s = false -> includesChar c (trimEnd s) = false.
Proof.
  induction s as [|d r IH]; [done|]. simpl. intros H.
  apply orb_false_elim in H as [Hd Hr]. specialize (IH Hr).
  destruct (trimEnd r) eqn:E.
  - destruct (isWhite d); simpl; [done|]. by rewrite Hd.
  - simpl in *. by rewrite Hd.
Qed.

Lemma includesChar_trim c s :
  includesChar c s = false -> includesChar c (trim s) = false.
Proof. intros H. by apply includesChar_trimEnd, includesChar_trimStart. Qed.

(** What [dedupLower] keeps is made of trimmed entries of its input. *)
Lemma dedupLower_Forall (P : string -> Prop) (l : list string) :
  Forall (fun e => P (trim e)) l -> Forall P (Upload.dedupLower l).
Proof.
  intros Hl. rewrite dedupLower_firstSeen.
  eapply Forall_sublist_of; [apply firstSeenBy_sublist|].
  apply Forall_forall. intros x Hx. apply list_elem_of_In, filter_In in Hx.
  destruct Hx as [Hx _]. apply list_elem_of_In, list_elem_of_fmap in Hx.
  destruct Hx as (e & -> & He). rewrite Forall_forall in Hl. by apply Hl.
Qed.

(** X8.  The write-back hands the merged tags over as one comma-joined
    string.  Split on commas, that string gives the tags of the response
    again exactly when there is at least one merged tag and none of them
    holds a comma: with no tag at all the string is empty and splits into
    one empty tag.  The tags taken from the request never hold a comma,
    so no merged tag does whenever the entries of the vision reply's
    [tags], [vibe], [objects] and [must_keep] are free of commas. *)
Theorem written_tags_split_into_reported_tags (body : Ingest.Body) (ai : Ingest.Ai) :
  let merged := Ingest.mergedTags body ai in
  let commaFree := fun e => includesChar "," e = false in
  (split "," (join "," merged) = merged
   <-> merged ≠ [] ∧ Forall commaFree merged)
  ∧ (merged = [] -> join "," merged = "" ∧ split "," (join "," merged) = [""])
  ∧ (Forall commaFree
       (default [] (Ingest.tags ai) ++ default [] (Ingest.vibe ai)
        ++ default [] (Ingest.objects ai) ++ default [] (Ingest.must_keep ai)) ->
     Forall commaFree merged).
Proof.
  intros merged commaFree. split_and!.
  - split.
    + intros Hs. split.
      * rewrite <- Hs. apply split_not_nil.
      * rewrite <- Hs. apply split_pieces.
    + intros [Hne H]. by apply split_join.
  - by intros ->.
  - intros Hai. unfold merged, Ingest.mergedTags, Upload.mergedTags, slice0.
    apply Forall_take, dedupLower_Forall.
    unfold Upload.tagSources, Upload.orEmpty, Ingest.listsOf.
    cbn [concat Upload.ai_tags Upload.ai_vibe Upload.ai_objects
           Upload.ai_must_keep].
    rewrite app_nil_r, !Forall_app in *.
    destruct Hai as (H1 & H2 & H3 & H4).
    assert (forall l, Forall commaFree l ->
                      Forall (fun e => commaFree (trim e)) l) as Htrim.
    { intros l Hl. eapply Forall_impl; [exact Hl|].
      intros e He. by apply includesChar_trim. }
    split_and!; try by apply Htrim.
    destruct (nonEmpty _); [|constructor]. apply Htrim, split_pieces.
Qed.

(* ===================================================================== *)
(** ** From the upload route's context to the listing's descriptor *)
(* ===================================================================== *)

Lemma includesChar_append c a b :
  includesChar c (a +:+ b) = includesChar c a || includesChar c b.
Proof.
  induction a as [|d r IH]; [done|].
  rewrite append_cons. simpl. by rewrite IH, orb_assoc.
Qed.

Lemma includesChar_join c sep (l : list string) :
  includesChar c sep = false ->
  Forall (fun e => includesChar c e = false) l ->
  includesChar c (join sep l) = false.
Proof.
  intros Hsep. induction 1 as [|x r Hx Hr IH]; [done|].
  destruct r as [|y r']; [done|].
  change (join sep (x :: y :: r')) with (x +:+ sep +:+ join sep (y :: r')).
  by rewrite !includesChar_append, Hx, Hsep, IH.
Qed.

Lemma join_cons_space sep (y : string) (r : list string) :
  String " " (join sep (y :: r)) = join sep ((" " +:+ y) :: r).
Proof. by destruct r. Qed.

(** The pieces of a list joined with a comma and a space: all but the
    first start with the space. *)
Lemma split_join_spaced (x : string) (r : list string) :
  Forall (fun e => includesChar "," e = false) (x :: r) ->
  split "," (join ", " (x :: r)) = x :: map (fun e => " " +:+ e) r.
Proof.
  revert x. induction r as [|y r' IH]; intros x Hl.
  - inversion Hl; subst. by apply split_without.
  - inversion Hl as [|? ? Hx Hr]; subst. inversion Hr as [|? ? Hy Hr']; subst.
    change (join ", " (x :: y :: r'))
      with (x +:+ String "," (String " " (join ", " (y :: r')))).
    rewrite split_append by done. rewrite join_cons_space, IH; [done|].
    constructor; [|done]. by rewrite includesChar_append, Hy.
Qed.

Lemma cleaned_spaced (l : list string) :
  Forall tidy l ->
  List.filter nonEmpty (map trim (map (fun e => " " +:+ e) l)) = l.
Proof.
  induction 1 as [|x r [Ht Hn] _ IH]; [done|].
  cbn [map List.filter].
  change (trim (" " +:+ x)) with (trim x). by rewrite Ht, Hn, IH.
Qed.

Section RoundTrip.
Variable Number_toString : float -> string.
Variable JSON_parse : string -> option value.

Local Abbreviation pick := (Recent.pick Number_toString).
Local Abbreviation usable := (Recent.usable Number_toString).
Local Abbreviation csvToArr := (Recent.csvToArr Number_toString JSON_parse).
Local Abbreviation either := (Listing.either Number_toString).

(** A list written with [", "] between its entries is read back entry by
    entry. *)
Lemma csvToArr_join_spaced (l : list string) :
  l ≠ [] -> Forall tidy l ->
  Forall (fun e => includesChar "," e = false) l ->
  (forall a, Recent.bracketed (join ", " l) = true ->
             JSON_parse (join ", " l) ≠ Some (VArr a)) ->
  csvToArr (VStr (join ", " l)) = l.
Proof.
  intros Hne Ht Hc Hj.
  destruct (join_tidy ", " l Ht Hne) as (_ & _ & Hn).
  unfold Recent.csvToArr. cbn [truthy toString negb].
  rewrite Hn, (trim_join_tidy ", " l Ht Hne), Hn. cbn [negb].
  assert (List.filter nonEmpty (map trim (split "," (join ", " l))) = l) as Hs.
  { destruct l as [|x r]; [done|]. rewrite split_join_spaced by done.
    inversion Ht as [|? ? [Hx Hx'] Hr]; subst.
    cbn [map List.filter]. rewrite Hx, Hx'. f_equal. by apply cleaned_spaced. }
  rewrite Hs. destruct (Recent.bracketed (join ", " l)) eqn:B; [|done].
  destruct (JSON_parse (join ", " l)) as [[]|] eqn:P; try done.
  by destruct (Hj l0).
Qed.

(** A list written with [" | "] between its entries is read back as one
    entry. *)
Lemma csvToArr_join_barred (l : list string) :
  l ≠ [] -> Forall tidy l ->
  Forall (fun e => includesChar "," e = false) l ->
  (forall a, Recent.bracketed (join " | " l) = true ->
             JSON_parse (join " | " l) ≠ Some (VArr a)) ->
  csvToArr (VStr (join " | " l)) = [join " | " l].
Proof.
  intros Hne Ht Hc Hj.
  destruct (join_tidy " | " l Ht Hne) as (_ & _ & Hn).
  unfold Recent.csvToArr. cbn [truthy toString negb].
  rewrite Hn, (trim_join_tidy " | " l Ht Hne), Hn. cbn [negb].
  rewrite split_without by (by apply includesChar_join).
  cbn [map List.filter]. rewrite (trim_join_tidy " | " l Ht Hne), Hn.
  destruct (Recent.bracketed (join " | " l)) eqn:B; [|done].
  destruct (JSON_parse (join " | " l)) as [[]|] eqn:P; try done.
  by destruct (Hj l0).
Qed.

Lemma usable_nullish (v x : value) : usable v = true -> Recent.nullish v x = v.
Proof. by destruct v. Qed.

(** A field stored in the context under its snake-case key only. *)
Lemma either_snake (cx md : gmap string value) (camel snake : string) (v : value) :
  Recent.Object_prototype camel = VUndefined ->
  cx !! camel = None -> cx !! snake = Some v -> usable v = true ->
  either cx md [camel; snake] = v.
Proof.
  intros Hp Hc Hs Hv. unfold Listing.either, Recent.pick, Recent.get.
  rewrite Hc, Hs, Hp. cbn [Recent.usable]. rewrite Hv.
  by apply usable_nullish.
Qed.

(** A field written as the empty string is looked up in the metadata. *)
Lemma either_blank (cx md : gmap string value) (camel snake : string) :
  Recent.Object_prototype camel = VUndefined ->
  cx !! camel = None -> cx !! snake = Some (VStr "") ->
  either cx md [camel; snake] = pick md [camel; snake].
Proof.
  intros Hp Hc Hs. unfold Listing.either.
  assert (pick cx [camel; snake] = VNull) as ->; [|done].
  unfold Recent.pick, Recent.get. by rewrite Hc, Hs, Hp.
Qed.
End RoundTrip.

Ltac lookup_written :=
  repeat match goal with x := _ : gmap string value |- _ => unfold x end;
  unfold Listing.propertiesOf, Ingest.descriptorContext;
  cbn [list_to_map foldr fst snd];
  repeat (rewrite lookup_insert_ne by done);
  first [apply lookup_insert_eq | apply lookup_empty].

(** X9.  What the upload route writes into the context, read by the
    listing.  Every scalar of the vision reply that is not blank comes
    back as the descriptor's field of the same name, whatever the
    metadata holds.  A non-empty list of [vibe], [objects], [people] or
    [must_keep] comes back entry by entry when its entries are trimmed,
    non-empty and free of commas (and the joined text is not read as a
    JSON array).  The [scenes] are written with a bar between them: under
    the same conditions they come back as one single entry, the joined
    text, so that two or more scenes never come back as they were
    written; and when there are none, the listing takes the scenes from
    the metadata. *)
Theorem written_descriptor_reads_back (Number_toString : float -> string)
    (JSON_parse : string -> option value)
    (body : Ingest.Body) (ai : Ingest.Ai) (md : gmap string value) :
  let cx := Listing.propertiesOf (Ingest.descriptorContext Number_toString body ai) in
  let d := Listing.descriptorOf Number_toString JSON_parse cx md in
  let readable (sep : string) (l : list string) :=
    l ≠ [] ∧ Forall tidy l ∧ Forall (fun e => includesChar "," e = false) l
    ∧ (forall a, Recent.bracketed (join sep l) = true ->
                 JSON_parse (join sep l) ≠ Some (VArr a)) in
  Forall (fun '(written, read) =>
            forall s, written = Some s -> nonBlank s -> read = VStr s)
    [ (Ingest.title ai, Listing.d_title d);
      (Ingest.caption ai, Listing.d_caption d);
      (Ingest.altText ai, Listing.d_altText d);
      (Ingest.so_me_type ai, Listing.d_so_me_type d);
      (Ingest.trend ai, Listing.d_trend d);
      (Ingest.feeling ai, Listing.d_feeling d);
      (Ingest.subject ai, Listing.d_subject d);
      (Ingest.setting ai, Listing.d_setting d);
      (Ingest.medium ai, Listing.d_medium d);
      (Ingest.realism ai, Listing.d_realism d);
      (Ingest.lighting ai, Listing.d_lighting d);
      (Ingest.palette ai, Listing.d_palette d);
      (Ingest.composition ai, Listing.d_composition d);
      (Ingest.style ai, Listing.d_style d) ]
  ∧ Forall (fun '(written, read) =>
              forall l, written = Some l -> readable ", " l -> read = l)
      [ (Ingest.vibe ai, Listing.d_vibe d);
        (Ingest.objects ai, Listing.d_objects d);
        (Ingest.people ai, Listing.d_people d);
        (Ingest.must_keep ai, Listing.d_must_keep d) ]
  ∧ (forall l, Ingest.scenes ai = Some l -> readable " | " l ->
               Listing.d_scenes d = [join " | " l])
  ∧ (forall l, Ingest.scenes ai = Some l -> readable " | " l ->
               2 <= length l -> Listing.d_scenes d ≠ l)
  ∧ (Ingest.scenes ai = None ∨ Ingest.scenes ai = Some [] ->
     Listing.d_scenes d
     = Recent.csvToArr Number_toString JSON_parse
         (Recent.pick Number_toString md ["aiScenes"; "ai_scenes"])).
Proof.
  intros cx d readable.
  assert (forall camel snake o,
            Recent.Object_prototype camel = VUndefined ->
            cx !! camel = None -> cx !! snake = Some (Ingest.prop o) ->
            forall s, o = Some s -> nonBlank s ->
            Recent.nullish (Listing.either Number_toString cx md [camel; snake]) VNull
            = VStr s) as Hscalar.
  { intros camel snake o Hp Hc Hs s -> Hb.
    by rewrite (either_snake Number_toString cx md camel snake (VStr s)). }
  assert (forall camel snake sep o l,
            Recent.Object_prototype camel = VUndefined ->
            cx !! camel = None -> cx !! snake = Some (Ingest.joined sep o) ->
            o = Some l -> readable sep l ->
            Listing.either Number_toString cx md [camel; snake]
            = VStr (join sep l)) as Hlist.
  { intros camel snake sep o l Hp Hc Hs -> (Hne & Ht & _).
    apply either_snake; [done..|].
    unfold Recent.usable, Ingest.joined. cbn [default from_option id toString].
    rewrite trim_join_tidy by done. by apply join_tidy. }
  unfold d, Listing.descriptorOf. project_descriptor. split_and!.
  - repeat (apply Forall_cons_2;
            [try (apply Hscalar; [by vm_compute|lookup_written..])|]);
      [|apply Forall_nil_2].
    intros s Hs Hb. unfold Listing.altOf, Recent.pick, Recent.get.
    replace (cx !! "alt") with (Some (Ingest.prop (Ingest.altText ai)))
      by (symmetry; lookup_written).
    rewrite Hs. cbn [default from_option id Ingest.prop Recent.usable toString].
    unfold nonBlank in Hb. by rewrite Hb.
  - repeat (apply Forall_cons_2; [|try apply Forall_nil_2]);
      intros l Hl Hr;
      (erewrite Hlist; [|by vm_compute|lookup_written..|exact Hl|exact Hr]);
      destruct Hr as (? & ? & ? & ?); by apply csvToArr_join_spaced.
  - intros l Hl Hr.
    (erewrite Hlist; [|by vm_compute|lookup_written..|exact Hl|exact Hr]).
    destruct Hr as (? & ? & ? & ?). by apply csvToArr_join_barred.
  - intros l Hl Hr Hlen.
    (erewrite Hlist; [|by vm_compute|lookup_written..|exact Hl|exact Hr]).
    destruct Hr as (? & ? & ? & ?). rewrite csvToArr_join_barred by done.
    intros E. rewrite <- E in Hlen. simpl in Hlen. lia.
  - intros Hnone. f_equal. apply either_blank; [by vm_compute|lookup_written|].
    assert (Ingest.joined " | " (Ingest.scenes ai) = VStr "") as <-
      by (by destruct Hnone as [-> | ->]).
    lookup_written.
Qed.

(* ===================================================================== *)
(** ** The remix routes: anchors, deduplication, and the handler's calls *)
(* ===================================================================== *)

Lemma firstSeenBy_app_prefix (key : string -> string) (l1 l2 seen : list string) :
  firstSeenBy key seen l1 `prefix_of` firstSeenBy key seen (l1 ++ l2).
Proof.
  revert seen. induction l1 as [|x r IH]; intros seen; simpl.
  - apply prefix_nil.
  - case_bool_decide; [apply IH|]. apply prefix_cons, IH.
Qed.

Lemma take_prefix {A} (n : nat) (l1 l2 : list A) :
  l1 `prefix_of` l2 -> take n l1 `prefix_of` take n l2.
Proof. intros [k ->]. rewrite take_app. by eexists. Qed.

(** A list without repeated keys, none of them seen, is kept as it is. *)
Lemma firstSeenBy_fixed (key : string -> string) (l seen : list string) :
  NoDup (map key l) -> Forall (fun x => key x ∉ seen) l ->
  firstSeenBy key seen l = l.
Proof.
  revert seen. induction l as [|x r IH]; intros seen Hnd Hseen; simpl; [done|].
  inversion Hnd as [|? ? Hx Hr]; subst. inversion Hseen as [|? ? Hs Hrs]; subst.
  case_bool_decide; [done|]. f_equal. apply IH; [done|].
  apply Forall_forall. intros y Hy. rewrite not_elem_of_cons. split.
  - intros E. apply Hx. rewrite <- E. by apply list_elem_of_fmap_2.
  - rewrite Forall_forall in Hrs. by apply Hrs.
Qed.

Lemma firstTruthy_sublist (l : list string) : firstTruthy l `sublist_of` take 1 l.
Proof.
  destruct l as [|x r]; simpl; [done|]. rewrite take_0.
  destruct (nonEmpty x); [done|]. by apply sublist_cons.
Qed.

Lemma cleaned_elem (l : list string) (a : string) :
  a ∈ List.filter nonEmpty (map trim l) -> exists e, e ∈ l ∧ a = trim e.
Proof.
  intros Ha. apply list_elem_of_In, filter_In in Ha as [Ha _].
  apply list_elem_of_In, list_elem_of_fmap in Ha as (e & -> & He). eauto.
Qed.

(** X10.  The anchors the first remix route builds from any descriptor,
    or from none: at most ten, no two alike, each trimmed and non-empty,
    each the trimmed form of an entry of [must_keep], of the first five
    [objects], or of the first of [vibe] or [people]; the entries of
    [must_keep] come first, so that the anchors start with the (up to
    ten) distinct entries of [must_keep].  The legacy route's anchors are
    also at most ten and distinct, but may hold the empty string. *)
Theorem anchors_of_any_descriptor (d : option ParentDescriptor) :
  let anchors := Remix.buildAnchors d in
  length anchors <= 10
  ∧ NoDup anchors
  ∧ Forall tidy anchors
  ∧ (forall a, a ∈ anchors -> exists e, e ∈ anchorSources d ∧ a = trim e)
  ∧ take 10 (Remix.uniq (orNoArray (d ≫= must_keep))) `prefix_of` anchors
  ∧ length (LegacyRemix.buildAnchors d) <= 10
  ∧ NoDup (LegacyRemix.buildAnchors d)
  ∧ Forall (fun a => a = "" ∨ tidy a) (LegacyRemix.buildAnchors d)
  ∧ LegacyRemix.buildAnchors (Some Cases.blankKeep) = [""]
  ∧ Remix.buildAnchors (Some Cases.blankKeep) = [].
Proof.
  intros anchors. unfold anchors, Remix.buildAnchors, LegacyRemix.buildAnchors, slice0.
  cbv zeta. rewrite !uniq_firstSeen, legacy_uniq_firstSeen.
  set (mk := orNoArray (d ≫= must_keep)).
  set (src := mk ++ take 5 (orNoArray (d ≫= objects))
              ++ firstTruthy (orNoArray (d ≫= vibe))
              ++ firstTruthy (orNoArray (d ≫= people))).
  split_and!.
  - rewrite length_take. lia.
  - eapply sublist_NoDup; [apply firstSeen_NoDup|apply sublist_take].
  - apply Forall_take.
    eapply Forall_sublist_of; [apply firstSeenBy_sublist|apply tidy_cleaned].
  - intros a Ha.
    assert (a ∈ List.filter nonEmpty (map trim src)) as Hin.
    { eapply elem_of_sublist; [|apply firstSeenBy_sublist].
      eapply elem_of_sublist; [exact Ha|apply sublist_take]. }
    apply cleaned_elem in Hin as (e & He & ->). exists e. split; [|done].
    unfold anchorSources. fold mk. unfold src in He.
    rewrite !elem_of_app in He. rewrite !elem_of_app.
    destruct He as [?|[?|[He|He]]]; auto.
    + right; right; left.
      eapply elem_of_sublist; [exact He|apply firstTruthy_sublist].
    + right; right; right.
      eapply elem_of_sublist; [exact He|apply firstTruthy_sublist].
  - apply take_prefix. unfold src.
    rewrite map_app, List.filter_app. apply firstSeenBy_app_prefix.
  - rewrite length_take. lia.
  - eapply sublist_NoDup; [apply firstSeen_NoDup|apply sublist_take].
  - apply Forall_take.
    eapply Forall_sublist_of; [apply firstSeenBy_sublist|].
    apply Forall_forall. intros a Ha.
    apply list_elem_of_fmap in Ha as (e & -> & _).
    destruct (nonEmpty (trim e)) eqn:E.
    + right. split; [apply trim_idem|done].
    + left. by destruct (trim e).
  - by vm_compute.
  - by vm_compute.
Qed.

(** What one pass of cleaning and first-seen deduplication leaves is left
    alone by the next. *)
Lemma firstSeen_cleaned_fixed (key : string -> string) (l : list string) :
  let once := firstSeenBy key [] (List.filter nonEmpty (map trim l)) in
  firstSeenBy key [] (List.filter nonEmpty (map trim once)) = once.
Proof.
  intros once.
  assert (Forall tidy once) as Ht
    by (eapply Forall_sublist_of; [apply firstSeenBy_sublist|apply tidy_cleaned]).
  rewrite (cleaned_tidy once Ht).
  apply firstSeenBy_fixed; [apply firstSeenBy_NoDup|].
  apply Forall_forall. intros x _. apply not_elem_of_nil.
Qed.

Lemma firstSeenBy_take_fixed (key : string -> string) (n : nat) (l : list string) :
  NoDup (map key l) -> firstSeenBy key [] (take n l) = take n l.
Proof.
  intros Hnd. apply firstSeenBy_fixed.
  - eapply sublist_NoDup; [exact Hnd|]. apply fmap_sublist, sublist_take.
  - apply Forall_forall. intros x _. apply not_elem_of_nil.
Qed.

(** X11.  Deduplicating twice changes nothing more: [uniq] of the first
    route and [dedupLower] return their own results unchanged, and so the
    anchors of a parent and the merged tags of an upload pass through
    them as they are.  The legacy [uniq], which trims after it has
    dropped the empties, does not have this property: of one blank entry
    it makes an empty string, and of that nothing. *)
Theorem deduplication_is_idempotent (l : list string)
    (d : option ParentDescriptor) (ai : Upload.AiLists) (tags : string) :
  Remix.uniq (Remix.uniq l) = Remix.uniq l
  ∧ Upload.dedupLower (Upload.dedupLower l) = Upload.dedupLower l
  ∧ Remix.uniq (Remix.buildAnchors d) = Remix.buildAnchors d
  ∧ Upload.dedupLower (Upload.mergedTags ai tags) = Upload.mergedTags ai tags
  ∧ LegacyRemix.uniq [" "] = [""]
  ∧ LegacyRemix.uniq (LegacyRemix.uniq [" "]) = [].
Proof.
  assert (forall key n (l : list string),
            let once := firstSeenBy key [] (List.filter nonEmpty (map trim l)) in
            firstSeenBy key [] (List.filter nonEmpty (map trim (take n once)))
            = take n once) as Hcut.
  { intros key n l' once.
    assert (Forall tidy (take n once)) as Ht.
    { apply Forall_take.
      eapply Forall_sublist_of; [apply firstSeenBy_sublist|apply tidy_cleaned]. }
    rewrite (cleaned_tidy _ Ht).
    apply firstSeenBy_take_fixed, firstSeenBy_NoDup. }
  split_and!.
  - rewrite !uniq_firstSeen. apply firstSeen_cleaned_fixed.
  - rewrite !dedupLower_firstSeen. apply firstSeen_cleaned_fixed.
  - unfold Remix.buildAnchors, slice0. cbv zeta.
    rewrite !uniq_firstSeen. apply Hcut.
  - unfold Upload.mergedTags, slice0.
    rewrite !dedupLower_firstSeen. apply Hcut.
  - by vm_compute.
  - by vm_compute.
Qed.

Lemma steps_downloads (ps : list RemixParent) :
  steps (map Called (Remix.downloads ps)) = replicate (length (take 16 ps)) Download.
Proof.
  unfold Remix.downloads, slice0, steps. rewrite map_map.
  generalize (fun i : nat => "parent-" +:+ numeral (i + 1)). intros name.
  change (imap (fun i p => Remix.UrlToFile (url p) ("parent-" +:+ numeral (i + 1))))
    with (imap (fun i p => Remix.UrlToFile (url p) ((fun i => "parent-" +:+ numeral (i + 1)) i))).
  generalize (fun i : nat => "parent-" +:+ numeral (i + 1)) as f.
  induction (take 16 ps) as [|p r IH]; intros f; [done|].
  simpl. f_equal. apply (IH (fun i => f (S i))).
Qed.

Lemma uploaded_downloads (ps : list RemixParent) :
  uploaded (map Called (Remix.downloads ps)) = [].
Proof.
  unfold Remix.downloads, slice0, uploaded.
  change (imap (fun i p => Remix.UrlToFile (url p) ("parent-" +:+ numeral (i + 1))))
    with (imap (fun i p => Remix.UrlToFile (url p) ((fun i => "parent-" +:+ numeral (i + 1)) i))).
  generalize (fun i : nat => "parent-" +:+ numeral (i + 1)) as f.
  induction (take 16 ps) as [|p r IH]; intros f; [done|].
  simpl. apply (IH (fun i => f (S i))).
Qed.

Ltac settle_steps :=
  simpl; split;
  [ first [ solve [left; split; [done|auto]]
          | solve [right; left; split; done]
          | solve [right; right; split; [eexists; split; [reflexivity|done]|done]] ]
  | solve [repeat constructor] ].

(** The calls and the result of the handler from the plan reply on. *)
Lemma generate_steps (w : world Remix.call) (body : Remix.Body)
    (ps : list RemixParent) (strength : float) (files : list Remix.File)
    (c : Completion) :
  let tr := run w (Remix.generate body ps strength files c) in
  (tr.2 = None ∧ (steps tr.1 = [] ∨ steps tr.1 = [Edit] ∨ steps tr.1 = [Edit; Store])
   ∨ tr.2 = Some Remix.noImage ∧ steps tr.1 = [Edit]
   ∨ (exists r, tr.2 = Some r ∧ Remix.status r = 200) ∧ steps tr.1 = [Edit; Store])
  ∧ Forall (fun b64 => nonEmpty b64 = true) (uploaded tr.1).
Proof.
  unfold Remix.generate.
  destruct (parsePlan c) as [plan|]; [|settle_steps].
  destruct (Remix.finalPrompt plan strength) as [prompt|]; [|settle_steps].
  run_handler. destruct (w _ _) as [|res]; run_handler; [settle_steps|].
  destruct (Remix.res_ok res); cbn [negb]; run_handler; [|settle_steps].
  destruct (Remix.b64_json res) as [[|a b]|]; run_handler;
    [settle_steps| |settle_steps].
  destruct (w _ _) as [|u]; run_handler; settle_steps.
Qed.

(** X12.  The first remix route answers every request: whatever the
    services do it returns a response, the 400 for too few parents, a
    500, or a 200.  Its calls are the downloads (at most sixteen, all of
    them issued before any result is looked at), then at most one plan
    request, one image edit and one upload of the result, in this order;
    nothing is called for a request it rejects, a 200 is only given after
    all three were made, and the upload helper is never handed an empty
    image. *)
Theorem remix_answers_every_request (w : world Remix.call) (body : Remix.Body) :
  let trace := (run w (Remix.POST body)).1 in
  exists r,
    (run w (Remix.POST body)).2 = Some r
    ∧ (r = Remix.badRequest ∨ r = Remix.failed ∨ r = Remix.noImage
       ∨ Remix.status r = 200)
    ∧ (exists n rest,
         steps trace = replicate n Download ++ rest
         ∧ n <= 16
         ∧ rest `prefix_of` [Plan; Edit; Store]
         ∧ (Remix.status r = 200 -> rest = [Plan; Edit; Store])
         ∧ (r = Remix.noImage -> rest = [Plan; Edit])
         ∧ (r = Remix.badRequest -> trace = []))
    ∧ Forall (fun b64 => nonEmpty b64 = true) (uploaded trace).
Proof.
  intros trace. unfold trace, Remix.POST.
  assert (forall rest, rest = [] ∨ rest = [Plan] ∨ rest = [Plan; Edit]
                       ∨ rest = [Plan; Edit; Store] ->
                       rest `prefix_of` [Plan; Edit; Store]) as Hprefix.
  { intros rest [-> | [-> | [-> | ->]]]; [by eexists|by exists [Edit; Store]
                                    |by exists [Store]|by exists []]. }
  destruct (asArray (Remix.parents body)) as [ps|].
  2: { exists Remix.badRequest. split_and!; [done|by left| |by constructor].
       exists 0, []. split_and!; try done; [lia|apply prefix_nil]. }
  destruct (Nat.ltb_spec (length ps) 2) as [|Hlen].
  { exists Remix.badRequest. split_and!; [done|by left| |by constructor].
    exists 0, []. split_and!; try done; [lia|apply prefix_nil]. }
  cbv zeta. unfold mbind, io_bind.
  set (strength := Remix.clamp _).
  rewrite run_try_catch, run_bind, run_Promise_all. cbn [fst snd].
  destruct (all_resolved _) as [files|].
  2: { cbn [run fst snd]. rewrite app_nil_r. exists Remix.failed.
       split_and!; [done|by right; left| |].
       - exists (length (take 16 ps)), []. rewrite app_nil_r, steps_downloads.
         split_and!; try done; [rewrite length_take; lia|apply prefix_nil].
       - by rewrite uploaded_downloads. }
  rewrite run_bind, run_await. cbn [fst snd].
  destruct (w _ (Remix.ChatCompletion _)) as [|c].
  { cbn [run fst snd]. rewrite app_nil_r. exists Remix.failed.
    split_and!; [done|by right; left| |].
    - exists (length (take 16 ps)), [Plan].
      unfold steps. rewrite map_app. fold (steps (map Called (Remix.downloads ps))).
      rewrite steps_downloads.
      split_and!; try done; [rewrite length_take; lia|apply Hprefix; auto].
    - unfold uploaded. rewrite omap_app.
      fold (uploaded (map Called (Remix.downloads ps))).
      by rewrite uploaded_downloads. }
  destruct (generate_steps w body ps strength files c) as [Hg Hu].
  cbv zeta in Hg, Hu.
  set (g := run w (Remix.generate body ps strength files c)) in *.
  assert (forall t, steps (map Called (Remix.downloads ps) ++ [Called (Remix.ChatCompletion (Remix.planRequest body ps strength))] ++ t)
                    = replicate (length (take 16 ps)) Download ++ Plan :: steps t) as Hsteps.
  { intros t. unfold steps. rewrite !map_app.
    fold (steps (map Called (Remix.downloads ps))). by rewrite steps_downloads. }
  assert (forall t, uploaded (map Called (Remix.downloads ps) ++ [Called (Remix.ChatCompletion (Remix.planRequest body ps strength))] ++ t)
                    = uploaded t) as Hup.
  { intros t. unfold uploaded. rewrite !omap_app.
    fold (uploaded (map Called (Remix.downloads ps))). by rewrite uploaded_downloads. }
  destruct Hg as [[Hr Hs]|[[Hr Hs]|[(r & Hr & H200) Hs]]]; rewrite Hr; cbn [run fst snd].
  - exists Remix.failed. rewrite app_nil_r, Hsteps, Hup.
    split_and!; [done|by right; left| |done].
    exists (length (take 16 ps)), (Plan :: steps g.1).
    split_and!; try done; [rewrite length_take; lia|].
    apply Hprefix. destruct Hs as [-> | [-> | ->]]; auto.
  - exists Remix.noImage. rewrite Hsteps, Hup.
    split_and!; [done|by right; right; left| |done].
    exists (length (take 16 ps)), (Plan :: steps g.1). rewrite Hs.
    split_and!; try done; [rewrite length_take; lia|apply Hprefix; auto].
  - exists r. rewrite Hsteps, Hup.
    split_and!; [done|by right; right; right| |done].
    exists (length (take 16 ps)), (Plan :: steps g.1). rewrite Hs.
    split_and!; try done; try (rewrite length_take; lia);
      try (apply Hprefix; by auto); intros ->; done.
Qed.

(* ===================================================================== *)
(** ** The remix strength *)
(* ===================================================================== *)

Lemma ltb_leb (x y : float) : (x <? y)%float = true -> (x <=? y)%float = true.
Proof.
  rewrite FloatAxioms.ltb_spec, FloatAxioms.leb_spec. unfold SFltb, SFleb.
  by destruct (SFcompare _ _) as [[]|].
Qed.

Lemma leb_numbers (x y : float) :
  (x <=? y)%float = true -> JS.isNaN x = false ∧ JS.isNaN y = false.
Proof.
  rewrite FloatAxioms.leb_spec, !isNaN_false. unfold SFleb.
  pose proof (SFcompare_None (Prim2SF x) (Prim2SF y)) as Hn.
  destruct (SFcompare _ _) as [c|]; [|done]. intros _.
  split; intros E; by assert (Some c = None) by (apply Hn; auto).
Qed.

Lemma leb_not_ltb (x y : float) :
  (x <=? y)%float = true -> (y <? x)%float = false.
Proof.
  rewrite FloatAxioms.ltb_spec, FloatAxioms.leb_spec. unfold SFltb, SFleb.
  rewrite (SFcompare_opp (Prim2SF x) (Prim2SF y)).
  by destruct (SFcompare _ _) as [[]|].
Qed.

Lemma not_ltb_leb (x y : float) :
  JS.isNaN x = false -> JS.isNaN y = false ->
  (y <? x)%float = false -> (x <=? y)%float = true.
Proof.
  rewrite FloatAxioms.ltb_spec, FloatAxioms.leb_spec, !isNaN_false.
  unfold SFltb, SFleb. intros Hx Hy.
  rewrite (SFcompare_opp (Prim2SF x) (Prim2SF y)).
  pose proof (SFcompare_None (Prim2SF x) (Prim2SF y)) as Hn.
  destruct (SFcompare _ _) as [[]|]; try done.
  intros _. by destruct (proj1 Hn eq_refl).
Qed.

Lemma leb_not_ltb_eqb (x y : float) :
  (x <=? y)%float = true -> (x <? y)%float = false -> (x =? y)%float = true.
Proof.
  rewrite FloatAxioms.ltb_spec, FloatAxioms.leb_spec, FloatAxioms.eqb_spec.
  unfold SFltb, SFleb, SFeqb. by destruct (SFcompare _ _) as [[]|].
Qed.

Lemma eqb_sym (x y : float) : (x =? y)%float = (y =? x)%float.
Proof.
  rewrite !FloatAxioms.eqb_spec. unfold SFeqb.
  rewrite (SFcompare_opp (Prim2SF x) (Prim2SF y)).
  by destruct (SFcompare _ _) as [[]|].
Qed.

Lemma leb_nan (x y : float) : JS.isNaN y = true -> (x <=? y)%float = false.
Proof.
  intros Hy. destruct (x <=? y)%float eqn:E; [|done].
  apply leb_numbers in E as [_ E]. congruence.
Qed.

(** A bound below 1 that holds for 1 holds for everything above 1. *)
Lemma SFleb_below (m m1 : positive) (e e1 : Z) (x : spec_float) :
  (e < e1)%Z ->
  SFltb (S754_finite false m1 e1) x = true ->
  SFleb (S754_finite false m e) x = true.
Proof.
  intros He. unfold SFleb, SFltb.
  destruct x as [s|s| |s m' e']; simpl; try done; destruct s; try done.
  destruct (Z.compare_spec e1 e'), (Z.compare_spec e e'); try done; lia.
Qed.

(** Of two positive numbers the one with the lower exponent is below. *)
Lemma SFleb_lower_exponent (m m1 : positive) (e e1 : Z) :
  (e < e1)%Z ->
  SFleb (S754_finite false m e) (S754_finite false m1 e1) = true.
Proof.
  intros He. unfold SFleb. cbn [SFcompare].
  by destruct (Z.compare_spec e e1); try lia.
Qed.

(** A positive bound fails for everything that is not above zero. *)
Lemma SFleb_positive (m : positive) (e : Z) (x : spec_float) :
  x ≠ S754_nan ->
  SFltb (S754_zero false) x = false ->
  SFleb (S754_finite false m e) x = false.
Proof.
  unfold SFleb, SFltb.
  destruct x as [s|s| |s m' e']; simpl; try done; by destruct s.
Qed.

Lemma Math_min_one (r : float) :
  JS.isNaN r = false -> Math_min 1 r = if (1 <? r)%float then 1%float else r.
Proof.
  intros Hr. unfold Math_min. rewrite Hr.
  change (JS.isNaN 1) with false. cbn [orb].
  destruct (1 <? r)%float; [done|]. by destruct (r <? 1)%float.
Qed.

Lemma Math_max_zero (m : float) :
  JS.isNaN m = false -> Math_max 0 m = if (0 <? m)%float then m else 0%float.
Proof.
  intros Hm. unfold Math_max. rewrite Hm.
  change (JS.isNaN 0) with false. cbn [orb].
  destruct (0 <? m)%float; [done|]. by destruct (m <? 0)%float.
Qed.

Lemma clamp_number (r : float) :
  JS.isNaN r = false ->
  Remix.clamp r
  = if (1 <? r)%float then 1%float
    else if (0 <? r)%float then r else 0%float.
Proof.
  intros Hr. unfold Remix.clamp. rewrite (Math_min_one r Hr).
  destruct (1 <? r)%float; [done|]. by apply Math_max_zero.
Qed.

Lemma clamp_nan (r : float) : JS.isNaN r = true -> JS.isNaN (Remix.clamp r) = true.
Proof.
  intros Hr. unfold Remix.clamp, Math_min. rewrite Hr, orb_true_r. done.
Qed.

(** Clamping does not move a strength across a bound that lies above 0
    and below 1. *)
Lemma clamp_keeps_side (c r : float) (m : positive) (e : Z) :
  Prim2SF c = S754_finite false m e -> (e < -52)%Z ->
  (c <=? Remix.clamp r)%float = (c <=? r)%float.
Proof.
  intros Hc He. destruct (JS.isNaN r) eqn:Hr.
  { by rewrite !leb_nan by (done || by apply clamp_nan). }
  rewrite (clamp_number r Hr).
  destruct (1 <? r)%float eqn:H1.
  - rewrite !FloatAxioms.leb_spec, Hc. rewrite FloatAxioms.ltb_spec in H1.
    let one := eval vm_compute in (Prim2SF 1) in change (Prim2SF 1) with one in *.
    rewrite (SFleb_below m _ e _ (Prim2SF r) He H1).
    by rewrite SFleb_lower_exponent.
  - destruct (0 <? r)%float eqn:H0; [done|].
    rewrite !FloatAxioms.leb_spec, Hc. rewrite FloatAxioms.ltb_spec in H0.
    let zero := eval vm_compute in (Prim2SF 0) in change (Prim2SF 0) with zero in *.
    rewrite (SFleb_positive m e (Prim2SF r)); [done|by apply isNaN_false|done].
Qed.

(** X13.  The strength the remix routes work with, [Math.max(0,
    Math.min(1, remixStrength))]: it is NaN when the request's value is,
    and otherwise lies between 0 and 1; a value between 0 and 1 is kept
    (up to the sign of zero); and clamping never changes the tier of
    either route, so the phrase in the prompt is the one the raw value
    would have given. *)
Theorem clamp_keeps_the_tier (r : float) :
  LegacyRemix.clamp r = Remix.clamp r
  ∧ (JS.isNaN r = true -> JS.isNaN (Remix.clamp r) = true)
  ∧ (JS.isNaN r = false ->
     (0 <=? Remix.clamp r)%float = true ∧ (Remix.clamp r <=? 1)%float = true)
  ∧ ((0 <=? r)%float = true -> (r <=? 1)%float = true ->
     (Remix.clamp r =? r)%float = true)
  ∧ Remix.remixLine (Remix.clamp r) = Remix.remixLine r
  ∧ LegacyRemix.remixLine (LegacyRemix.clamp r) = LegacyRemix.remixLine r.
Proof.
  split_and!.
  - done.
  - apply clamp_nan.
  - intros Hr. rewrite (clamp_number r Hr).
    destruct (1 <? r)%float eqn:H1; [by vm_compute|].
    destruct (0 <? r)%float eqn:H0; [|by vm_compute].
    split; [by apply ltb_leb|by apply not_ltb_leb].
  - intros H0 H1. destruct (leb_numbers _ _ H0) as [_ Hr].
    rewrite (clamp_number r Hr), (leb_not_ltb _ _ H1).
    destruct (0 <? r)%float eqn:E.
    + unfold JS.isNaN in Hr. by destruct (r =? r)%float.
    + by apply leb_not_ltb_eqb.
  - unfold Remix.remixLine.
    by rewrite (clamp_keeps_side 0.8 r _ _ eq_refl), (clamp_keeps_side 0.5 r _ _ eq_refl).
  - unfold LegacyRemix.remixLine. change (LegacyRemix.clamp r) with (Remix.clamp r).
    by rewrite (clamp_keeps_side 0.85 r _ _ eq_refl),
      (clamp_keeps_side 0.55 r _ _ eq_refl).
Qed.

Lemma clamp_keeps_the_tier_witness :
  (0 <=? Remix.clamp 1.5)%float = true ∧ (Remix.clamp 1.5 <=? 1)%float = true.
Proof.
  refine (proj1 (proj2 (proj2 (clamp_keeps_the_tier 1.5))) eq_refl).
Defined.

(* ===================================================================== *)
(** ** The helpers of the first remix route *)
(* ===================================================================== *)

Lemma toLowerCase_idem (s : string) : toLowerCase (toLowerCase s) = toLowerCase s.
Proof.
  induction s as [|c r IH]; [done|]. simpl. rewrite IH. f_equal.
  by destruct c as [[] [] [] [] [] [] [] []].
Qed.

Lemma typeOf_lower (t : string) :
  toLowerCase (Helpers.typeOf t) = Helpers.typeOf t.
Proof.
  unfold Helpers.typeOf. destruct (forallb _ _); [apply toLowerCase_idem|done].
Qed.

(** X14.  [urlToFile] makes one request, to the given address.  It
    throws when the request fails, when the response is not ok, or when
    the body cannot be read.  Otherwise the file holds the body.  Its
    name is the fallback name with one of the extensions png, webp and
    jpg, chosen on the [content-type] header as it was sent ([image/jpeg]
    when the header is missing or empty): png when that text contains
    png in lower case, else webp when it contains webp, else jpg.  Its
    type is what [File] keeps of the same text:
    the text in lower case, or the empty string when the text holds a
    code unit outside U+0020 to U+007E.  So a header [Image/PNG] gives a
    file named with jpg whose type is [image/png]. *)
Theorem urlToFile_names_the_file (w : world Helpers.call) (url name : string) :
  let tr := run w (Helpers.urlToFile url name) in
  tr.1 = [Called (Helpers.Fetch url)]
  ∧ (tr.2 = None
     <-> w _ (Helpers.Fetch url) = Rejected
         ∨ exists res, w _ (Helpers.Fetch url) = Resolved res
                       ∧ (Helpers.ok res = false
                          ∨ Helpers.arrayBuffer res = Rejected))
  ∧ (forall file,
       tr.2 = Some file ->
       exists res,
         let sent := Listing.orElse (Helpers.content_type res) "image/jpeg" in
         w _ (Helpers.Fetch url) = Resolved res
         ∧ Helpers.ok res = true
         ∧ Helpers.arrayBuffer res = Resolved (Remix.file_data file)
         ∧ nonEmpty sent = true
         ∧ (forallb Helpers.printable (list_ascii_of_string sent) = true ->
            Remix.file_type file = toLowerCase sent)
         ∧ (forallb Helpers.printable (list_ascii_of_string sent) = false ->
            Remix.file_type file = "")
         ∧ toLowerCase (Remix.file_type file) = Remix.file_type file
         ∧ (exists ext, ext ∈ ["png"; "webp"; "jpg"]
                        ∧ Remix.file_name file = name +:+ "." +:+ ext)
         ∧ (Helpers.includes sent "png" = true ->
            Remix.file_name file = name +:+ ".png")
         ∧ (Helpers.includes sent "png" = false ->
            Helpers.includes sent "webp" = true ->
            Remix.file_name file = name +:+ ".webp")
         ∧ (Helpers.includes sent "png" = false ->
            Helpers.includes sent "webp" = false ->
            Remix.file_name file = name +:+ ".jpg")
         ∧ (Helpers.content_type res = None ∨ Helpers.content_type res = Some "" ->
            Remix.file_name file = name +:+ ".jpg"
            ∧ Remix.file_type file = "image/jpeg")
         ∧ (Helpers.content_type res = Some "Image/PNG" ->
            Remix.file_name file = name +:+ ".jpg"
            ∧ Remix.file_type file = "image/png")).
Proof.
  intros tr. unfold tr, Helpers.urlToFile. run_handler.
  destruct (w _ (Helpers.Fetch url)) as [|res] eqn:Hw; run_handler.
  { split_and!; [done|split; auto|done]. }
  destruct (Helpers.ok res) eqn:Hok; cbn [negb]; run_handler.
  2: { split_and!; [done|split; eauto|done]. }
  destruct (Helpers.arrayBuffer res) as [|ab] eqn:Hab; run_handler.
  { split_and!; [done|split; eauto|done]. }
  split_and!; [done| |].
  - split; [done|]. intros [?|(res' & [= <-] & [?|?])]; congruence.
  - intros file [= <-]. exists res. cbv zeta.
    cbn [Remix.file_type Remix.file_name Remix.file_data].
    split_and!; try done.
    + by destruct (Helpers.content_type res) as [[|]|].
    + unfold Helpers.typeOf. by intros ->.
    + unfold Helpers.typeOf. by intros ->.
    + apply typeOf_lower.
    + unfold Helpers.extOf.
      destruct (Helpers.includes _ "png"); [exists "png"|
        destruct (Helpers.includes _ "webp"); [exists "webp"|exists "jpg"]];
        (split; [set_solver|done]).
    + unfold Helpers.extOf. by intros ->.
    + unfold Helpers.extOf. by intros -> ->.
    + unfold Helpers.extOf. by intros -> ->.
    + by intros [-> | ->].
    + by intros ->.
Qed.

(** X15.  [uploadB64ToCloudinary] never resolves with an empty address:
    what it returns is the non-empty [secure_url] of an upload that
    reported no error.  Handed anything but a non-empty string it throws
    before it calls the service. *)
Theorem upload_helper_checks_both_ends (w : world Helpers.call) (b64 : value) :
  let tr := run w (Helpers.uploadB64ToCloudinary b64) in
  (forall u,
     tr.2 = Some u ->
     nonEmpty u = true
     ∧ exists s,
         b64 = VStr s ∧ nonEmpty s = true
         ∧ tr.1 = [Called (Helpers.UploadStream s)]
         ∧ Helpers.err (w _ (Helpers.UploadStream s)) = false
         ∧ Helpers.secure_url (w _ (Helpers.UploadStream s)) = Some u)
  ∧ ((forall s, b64 = VStr s -> nonEmpty s = false) -> tr = ([], None))
  ∧ (forall s, b64 = VStr s -> nonEmpty s = true ->
               tr.1 = [Called (Helpers.UploadStream s)]).
Proof.
  intros tr. unfold tr, Helpers.uploadB64ToCloudinary. split_and!.
  - intros u. destruct b64 as [| | | |[|a s]| | |]; try done. run_handler.
    destruct (Helpers.err _) eqn:He; [done|].
    destruct (Helpers.secure_url _) as [[|c v]|] eqn:Hu; try done.
    intros [= <-]. split; [done|]. by exists (String a s).
  - intros H. destruct b64 as [| | | |[|a s]| | |]; try done.
    by specialize (H _ eq_refl).
  - intros s -> Hs. destruct s as [|a s]; [done|]. run_handler.
    destruct (Helpers.err _); [done|].
    by destruct (Helpers.secure_url _) as [[|c v]|].
Qed.

Lemma upload_helper_checks_both_ends_witness :
  (run Cases.pngHost (Helpers.uploadB64ToCloudinary (VStr ""))) = ([], None).
Proof.
  refine (proj1 (proj2 (upload_helper_checks_both_ends Cases.pngHost (VStr ""))) _).
  by intros s [= <-].
Defined.

(* ===================================================================== *)
(** ** The compatibility [GET] and the re-ingest route *)
(* ===================================================================== *)

Lemma removeFirst_occurrences (c : ascii) (s : string) :
  occurrences c (CompatGet.removeFirst c s) = pred (occurrences c s).
Proof.
  induction s as [|d r IH]; [done|]. simpl.
  destruct (Ascii.eqb d c) eqn:E; simpl; [done|]. by rewrite E.
Qed.

Lemma removeFirst_without (c : ascii) (s : string) :
  without c (CompatGet.removeFirst c s) = without c s.
Proof.
  induction s as [|d r IH]; [done|]. simpl.
  destruct (Ascii.eqb d c) eqn:E; simpl; [done|]. by rewrite E, IH.
Qed.

Lemma removeFirst_absent (c : ascii) (s : string) :
  occurrences c s = 0 -> CompatGet.removeFirst c s = s.
Proof.
  induction s as [|d r IH]; [done|]. simpl.
  destruct (Ascii.eqb d c); [done|]. intros H. by rewrite IH.
Qed.

(** What goes is the occurrence that nothing precedes. *)
Lemma removeFirst_first (c : ascii) (pre post : string) :
  occurrences c pre = 0 ->
  CompatGet.removeFirst c (pre +:+ String c post) = pre +:+ post.
Proof.
  induction pre as [|d r IH].
  - intros _. simpl. by rewrite Ascii.eqb_refl.
  - rewrite !append_cons. simpl.
    destruct (Ascii.eqb d c); [done|]. intros H. by rewrite IH.
Qed.

Lemma first_occurrence (c : ascii) (s : string) :
  occurrences c s ≠ 0 ->
  exists pre post, s = pre +:+ String c post ∧ occurrences c pre = 0.
Proof.
  induction s as [|d r IH]; [done|]. simpl.
  destruct (Ascii.eqb_spec d c) as [->|Hne].
  - intros _. by exists "", r.
  - intros H. destruct IH as (pre & post & -> & Hpre); [done|].
    exists (String d pre), post. split; [by rewrite append_cons|].
    simpl. by destruct (Ascii.eqb_spec d c).
Qed.

Lemma trimStart_blank_append (a b : string) :
  trimStart a = "" -> trimStart (a +:+ b) = trimStart b.
Proof.
  induction a as [|c r IH]; [done|]. rewrite append_cons. simpl.
  by destruct (isWhite c).
Qed.

(** X16.  The reply of the chat model loses its first double quote and
    no other character: where the reply is some text without a quote, a
    quote, and a rest, the sentence is that text followed by the rest,
    and a reply that holds a quote is of this form; a reply without
    quotes is unchanged.  So there is one quote fewer when there is any,
    and the other characters stay in place.  The prompt for the image
    model always ends with the fixed style text; it is the sentence
    without its leading whitespace, a line break and the style text, or
    the style text alone when the sentence is blank. *)
Theorem only_the_first_quote_is_removed (content : option string) :
  let reply := default "" content in
  let sentence := CompatGet.sentenceOf content in
  (forall pre post,
     reply = pre +:+ String CompatGet.quote post ->
     occurrences CompatGet.quote pre = 0 ->
     sentence = pre +:+ post)
  ∧ (occurrences CompatGet.quote reply ≠ 0 ->
     exists pre post,
       reply = pre +:+ String CompatGet.quote post
       ∧ occurrences CompatGet.quote pre = 0)
  ∧ occurrences CompatGet.quote sentence = pred (occurrences CompatGet.quote reply)
  ∧ without CompatGet.quote sentence = without CompatGet.quote reply
  ∧ (occurrences CompatGet.quote reply = 0 -> sentence = reply)
  ∧ (nonEmpty (trimStart sentence) = true ->
     CompatGet.imagePrompt sentence
     = trimStart sentence +:+ CompatGet.newline +:+ CompatGet.styleSuffix)
  ∧ (nonEmpty (trimStart sentence) = false ->
     CompatGet.imagePrompt sentence = CompatGet.styleSuffix)
  ∧ exists pre, CompatGet.imagePrompt sentence = pre +:+ CompatGet.styleSuffix.
Proof.
  intros reply sentence.
  assert (nonEmpty (trimStart sentence) = true ->
          CompatGet.imagePrompt sentence
          = trimStart sentence +:+ CompatGet.newline +:+ CompatGet.styleSuffix) as Hfull.
  { intros Hs. unfold CompatGet.imagePrompt, trim.
    rewrite trimStart_append by done. rewrite <- append_assoc.
    rewrite trimEnd_append by (by vm_compute).
    assert (trimEnd CompatGet.styleSuffix = CompatGet.styleSuffix) as ->
      by (by vm_compute).
    done. }
  assert (nonEmpty (trimStart sentence) = false ->
          CompatGet.imagePrompt sentence = CompatGet.styleSuffix) as Hblank.
  { intros Hs. unfold CompatGet.imagePrompt, trim.
    rewrite trimStart_blank_append by (by destruct (trimStart sentence)).
    by vm_compute. }
  split_and!; try done.
  - intros pre post Hr Hpre. unfold sentence, CompatGet.sentenceOf.
    fold reply. rewrite Hr. by apply removeFirst_first.
  - apply first_occurrence.
  - apply removeFirst_occurrences.
  - apply removeFirst_without.
  - apply removeFirst_absent.
  - destruct (nonEmpty (trimStart sentence)) eqn:E.
    + exists (trimStart sentence +:+ CompatGet.newline).
      rewrite Hfull by done. by rewrite append_assoc.
    + exists "". by rewrite Hblank.
Qed.

(** X17.  The compatibility [GET] answers every request with a response
    and never throws.  It first asks the chat model; when that answers
    with a message it asks the image model for the prompt made of that
    message, and nothing else.  A reply without [data] yields a 200 with
    the placeholder address; an empty [data] yields the generic 500; and
    otherwise the first entry's address is returned, with the prompt and
    the adjectives of the request. *)
Theorem compat_get_outcomes (w : world CompatGet.call)
    (promptParam adjectivesParam : option string) :
  let GET := CompatGet.GET promptParam adjectivesParam in
  let prompt := Listing.orElse promptParam "" in
  let adjectives := Listing.orElse adjectivesParam "" in
  let ask := CompatGet.ChatCompletion (CompatGet.question prompt adjectives) in
  (exists r, (run w GET).2 = Some r
             ∧ (r = CompatGet.failed ∨ CompatGet.status r = 200))
  ∧ (w _ ask = Rejected ∨ w _ ask = Resolved CompatGet.NoChoice ->
     run w GET = ([Called ask], Some CompatGet.failed))
  ∧ (forall content,
       w _ ask = Resolved (CompatGet.Message content) ->
       let sentence := CompatGet.sentenceOf content in
       let draw := CompatGet.ImagesGenerate (CompatGet.imagePrompt sentence) in
       let answer imageUrl :=
         Some {| CompatGet.status := 200;
                 CompatGet.json :=
                   CompatGet.DataJson prompt sentence imageUrl adjectives |} in
       (run w GET).1 = [Called ask; Called draw]
       ∧ (w _ draw = Rejected -> (run w GET).2 = Some CompatGet.failed)
       ∧ (w _ draw = Resolved None ->
          (run w GET).2 = answer (Some "imageurlplaceholder"))
       ∧ (w _ draw = Resolved (Some []) -> (run w GET).2 = Some CompatGet.failed)
       ∧ (forall url rest,
            w _ draw = Resolved (Some (url :: rest)) ->
            (run w GET).2 = answer url)).
Proof.
  intros GET prompt adjectives ask. unfold GET, CompatGet.GET.
  fold prompt adjectives ask. cbv zeta. run_handler.
  destruct (w _ ask) as [|[|content]] eqn:Hask; run_handler.
  - split_and!; [eauto|done|done].
  - split_and!; [eauto|done|done].
  - destruct (w _ (CompatGet.ImagesGenerate _)) as [|[[|url rest]|]] eqn:Hdraw;
      run_handler.
    + split_and!; [eauto|by intros [?|?]|].
      intros ? [= <-]. rewrite Hdraw. by split_and!.
    + split_and!; [eauto|by intros [?|?]|].
      intros ? [= <-]. rewrite Hdraw. by split_and!.
    + split_and!; [eauto|by intros [?|?]|].
      intros ? [= <-]. rewrite Hdraw. split_and!; try done.
      by intros ? ? [= <- <-].
    + split_and!; [eauto|by intros [?|?]|].
      intros ? [= <-]. rewrite Hdraw. by split_and!.
Qed.

Lemma compat_get_outcomes_witness :
  run Cases.noChat (CompatGet.GET None None)
  = ([Called (CompatGet.ChatCompletion (CompatGet.question "" ""))],
     Some CompatGet.failed).
Proof.
  refine (proj1 (proj2 (compat_get_outcomes Cases.noChat None None)) _).
  by left.
Defined.

Lemma all_resolved_Some {A} (os : list (outcome A)) :
  is_Some (all_resolved os) <-> Forall (fun o => o ≠ Rejected) os.
Proof.
  induction os as [|o r IH]; simpl.
  - split; [constructor|eauto].
  - destruct o as [|a].
    + split; [by intros [? [=]]|]. by intros [? _]%Forall_cons.
    + rewrite Forall_cons, <- IH. destruct (all_resolved r); simpl.
      * split; [eauto|eauto].
      * split; [by intros [? [=]]|]. by intros [_ [? [=]]].
Qed.

(** X18.  The re-ingest route asks its own listing for the first 1000
    images and then sends one upload request per image returned, in the
    order of the listing, with the image's address and title, all of
    them before it looks at any result.  It answers 200 with the listing
    as soon as every request was answered, whatever the answers were; a
    listing that is not ok gives the 500; and since nothing is caught, a
    request that fails, or a listing that cannot be read, makes the
    handler throw. *)
Theorem reingest_uploads_every_listed_image (w : world Reingest.call)
    (origin : string) :
  let GET := Reingest.GET origin in
  let listing := Reingest.FetchRecent origin 1000 0 in
  let upload element :=
    Reingest.FetchUpload origin (Reingest.url element) (Reingest.title element) in
  (w _ listing = Rejected -> run w GET = ([Called listing], None))
  ∧ (forall reply,
       w _ listing = Resolved reply ->
       (Reingest.ok reply = false ->
        run w GET = ([Called listing], Some Reingest.failed))
       ∧ (Reingest.ok reply = true -> Reingest.body reply = None ->
          run w GET = ([Called listing], None))
       ∧ (forall data,
            Reingest.ok reply = true -> Reingest.body reply = Some data ->
            (run w GET).1
            = Called listing :: map (fun element => Called (upload element)) data
            ∧ (Forall (fun element => w _ (upload element) ≠ Rejected) data ->
               (run w GET).2
               = Some {| Reingest.status := 200;
                         Reingest.json := Reingest.ImagesJson data |})
            ∧ (Exists (fun element => w _ (upload element) = Rejected) data ->
               (run w GET).2 = None))).
Proof.
  intros GET listing upload. unfold GET, Reingest.GET. fold listing.
  unfold mbind, io_bind. rewrite run_bind, run_await. cbn [fst snd].
  split; [by intros ->|]. intros reply ->. split_and!.
  - by intros ->.
  - by intros -> ->.
  - intros data -> ->. cbn [negb].
    rewrite run_bind, run_Promise_all. cbn [fst snd].
    assert (map Called (Reingest.uploads origin data)
            = map (fun element => Called (upload element)) data) as Htr
      by (unfold Reingest.uploads; by rewrite map_map).
    assert (is_Some (all_resolved (map (w _) (Reingest.uploads origin data)))
            <-> Forall (fun element => w _ (upload element) ≠ Rejected) data) as Hall.
    { rewrite all_resolved_Some. unfold Reingest.uploads.
      by rewrite map_map, Forall_fmap. }
    destruct (all_resolved _) as [l|]; cbn [run fst snd app].
    + rewrite app_nil_r, Htr. split_and!; [done|done|].
      intros Hex. exfalso. apply Exists_exists in Hex as (x & Hx & Hr).
      assert (Forall (fun element => w _ (upload element) ≠ Rejected) data) as Hf
        by (apply Hall; eauto).
      rewrite Forall_forall in Hf. by apply (Hf x).
    + rewrite Htr. split_and!; [done| |done].
      intros Hf. apply Hall in Hf as [? [=]].
Qed.

Lemma reingest_uploads_every_listed_image_witness :
  run Cases.listingDown (Reingest.GET "https://example.org")
  = ([Called (Reingest.FetchRecent "https://example.org" 1000 0)], None).
Proof.
  refine (proj1 (reingest_uploads_every_listed_image Cases.listingDown
                   "https://example.org") eq_refl).
Defined.
